(** * Interface repair of hierarchical multi-patch bases (gsMultiBasis.hpp)

    A shallow embedding of [gsMultiBasis<T>::repairInterface],
    [repairInterfaceFindElements<d>] and [repairInterface2d], and the
    properties of the interface reconciliation algorithm proved about it.

    Conventions of the embedding:
    - [unsigned] values (knot indices, levels, corners) are integers in [Z]
      with the 32-bit wrap-around written out (module [U32]);
    - loop counters, axis numbers, side indices and patch numbers are [nat];
    - [gsVector<unsigned>] is a [list Z], [gsMatrix<unsigned>] a list of rows;
    - an element access out of range is undefined in the source; the model
      reads [0] there and ignores a write, and every statement that depends on
      such an access assumes it is in range;
    - a shift by 32 bits or more is undefined in the source; the model gives
      it the mathematical value before wrap-around. *)

From Stdlib Require Import ZArith Lia String.
From Stdlib Require Import Sorting.Sorted.
From stdpp Require Import base list.

(** ** Unsigned 32-bit arithmetic *)

Module U32.
Local Open Scope Z_scope.

Definition modulus : Z := 2 ^ 32.

Definition wrap (x : Z) : Z := x mod modulus.

(** [x - y] on [unsigned]. *)
Definition sub (x y : Z) : Z := wrap (x - y).

(** [x << n] on [unsigned]. *)
Definition shl (x n : Z) : Z := wrap (Z.shiftl x n).

(** [x >> n] on [unsigned]. *)
Definition shr (x n : Z) : Z := Z.shiftr x n.

Definition in_range (x : Z) : Prop := 0 <= x < modulus.
End U32.

Arguments U32.sub : simpl never.
Arguments U32.shl : simpl never.
Arguments U32.shr : simpl never.

(** ** Vectors, matrices and counted loops *)

Abbreviation vec := (list Z).
Abbreviation matrix := (list (list Z)).

(** [v[i]] *)
Definition vget (v : vec) (i : nat) : Z := default 0%Z (v !! i).

(** [v[i] = x] *)
Definition vset (v : vec) (i : nat) (x : Z) : vec := <[i := x]> v.

(** [m(i,j)] *)
Definition mget (m : matrix) (i j : nat) : Z := vget (default [] (m !! i)) j.

(** [m(i,j) = x] *)
Definition mset (m : matrix) (i j : nat) (x : Z) : matrix :=
  alter (fun row => vset row j x) i m.

(** [m.rows()] *)
Definition rows (m : matrix) : nat := length m.

(** [for (i = 0; i < n; i++) body] over a state [s]. *)
Definition for_loop {S : Type} (n : nat) (body : nat -> S -> S) (s : S) : S :=
  fold_left (fun s i => body i s) (seq 0 n) s.

(** An [n] x [d] matrix. *)
Definition mat_dims (n d : nat) (m : matrix) : Prop :=
  length m = n /\ Forall (fun row => length row = d) m.

(** ** The interface descriptor *)

(** [patchSide]: the patch, the index of the side (west = 1, east = 2,
    south = 3, north = 4, front = 5, back = 6) and the direction normal to it,
    as [side().index()] and [direction()] return them. *)
Record patchSide := {
  patch : nat;
  side_index : nat;
  direction : nat
}.

(** [boundaryInterface]: both sides, [dirMap()] and [dirOrientation()]. *)
Record boundaryInterface := {
  first : patchSide;
  second : patchSide;
  dirMap : list nat;
  dirOrientation : list bool
}.

(** [dirMap[jj]] *)
Definition dmap (dm : list nat) (jj : nat) : nat := default 0 (dm !! jj).

(** [dirOrient[jj]] *)
Definition dorient (dor : list bool) (jj : nat) : bool := default true (dor !! jj).

Arguments dorient : simpl never.

(** ** The queries on the hierarchical domain of a patch *)

(** What [getBoxesOnSide] writes: lower corners, upper corners, levels. *)
Record sideBoxes := {
  sb_lo : matrix;
  sb_up : matrix;
  sb_level : vec
}.

(** [gsHDomain]: the query surface of [bas->tree()]. *)
Record gsHDomain := {
  getIndexLevel : Z;
  getMaxInsLevel : Z;
  upperCorner : vec;
  getBoxesOnSide : nat -> sideBoxes
}.

(** ** Level normalisation (gsMultiBasis.hpp, lines 260-298) *)

Definition indexLevelUse (t0 t1 : gsHDomain) : Z :=
  if (getIndexLevel t0 >? getIndexLevel t1)%Z
  then getIndexLevel t0 else getIndexLevel t1.

Definition indexLevelDiff (t0 t1 ti : gsHDomain) : Z :=
  U32.sub (indexLevelUse t0 t1) (getIndexLevel ti).

(** [for i < d: upperCorn[i] = upperCorn[i] << diff] *)
Definition upperCornOnIndexLevel (d : nat) (diff : Z) (upperCorn : vec) : vec :=
  for_loop d (fun i v => vset v i (U32.shl (vget v i) diff)) upperCorn.

(** [idxExponent] of tree [ti]. *)
Definition idxExponent (t0 t1 ti : gsHDomain) : Z :=
  U32.sub (indexLevelUse t0 t1) (getMaxInsLevel ti).

(** The body of the loop over the boxes of the first side. *)
Definition shiftBody0 (e : Z) (i j : nat) (s : matrix * matrix) : matrix * matrix :=
  let '(lo0, up0) := s in
  let lo0 := mset lo0 i j (U32.shl (mget lo0 i j) e) in
  let up0 := mset up0 i j (U32.shl (mget up0 i j) e) in
  (lo0, up0).

Definition shiftBoxes0 (d : nat) (e : Z) (s : matrix * matrix) : matrix * matrix :=
  for_loop (rows (fst s)) (fun i s => for_loop d (fun j s => shiftBody0 e i j s) s) s.

(** ** Orientation mapping of the second side (lines 291-308) *)

Definition orientBody1 (e : Z) (dm : list nat) (dor : list bool) (upperCorn1 : vec)
    (i jj : nat) (s : matrix * matrix) : matrix * matrix :=
  let '(lo1, up1) := s in
  let j := dmap dm jj in
  let lo1 := mset lo1 i j (U32.shl (mget lo1 i j) e) in
  let up1 := mset up1 i j (U32.shl (mget up1 i j) e) in
  if negb (dorient dor jj) then
    let tmp := U32.sub (vget upperCorn1 j) (mget lo1 i j) in
    let lo1 := mset lo1 i j (U32.sub (vget upperCorn1 j) (mget up1 i j)) in
    let up1 := mset up1 i j tmp in
    (lo1, up1)
  else (lo1, up1).

Definition orientBoxes1 (d : nat) (e : Z) (dm : list nat) (dor : list bool)
    (upperCorn1 : vec) (s : matrix * matrix) : matrix * matrix :=
  for_loop (rows (fst s))
    (fun i s => for_loop d (fun jj s => orientBody1 e dm dor upperCorn1 i jj s) s) s.

(** ** Failure *)

(** What a function that may fail an assertion gives: its value, or the
    message of the assertion that failed. *)
Inductive result (A : Type) : Type :=
| Ok (a : A)
| AssertionFailed (msg : string).
Arguments Ok {A} a.
Arguments AssertionFailed {A} msg.

Definition bind {A B : Type} (r : result A) (k : A -> result B) : result B :=
  match r with
  | Ok a => k a
  | AssertionFailed msg => AssertionFailed msg
  end.

(** Modelled from the spec: the macro [GISMO_ASSERT] (gsDebug.h is not among
    the sources).  A failed assertion is fatal: the function stops there and
    nothing after it runs (the behaviour of a build that keeps assertions). *)
Definition GISMO_ASSERT (cond : bool) (msg : string) : result unit :=
  if cond then Ok tt else AssertionFailed msg.

(** ** The merged interface mesh, general path (lines 316-369) *)

(** The directions [a0], [b0] spanning the interface and the direction [c0]
    normal to it. *)
Definition spanDirections (d dir : nat) : nat * nat * nat :=
  let '(a0, b0, c0) :=
    match dir with
    | 0 => (1, 2, 0)
    | 1 => (0, 2, 1)
    | 2 => (0, 1, 2)
    | _ => (99, 99, 99)
    end in
  let b0 := if d =? 2 then a0 else b0 in
  (a0, b0, c0).

Definition overlapBody (lo0 up0 : matrix) (level0 : vec) (lo1 up1 : matrix) (level1 : vec)
    (a0 b0 a1 b1 : nat) (i0 i1 : nat) (iU : list (list Z)) : list (list Z) :=
  if ((mget lo0 i0 a0 <? mget up1 i1 a1) &&
      (mget lo0 i0 b0 <? mget up1 i1 b1) &&
      (mget lo1 i1 a1 <? mget up0 i0 a0) &&
      (mget lo1 i1 b1 <? mget up0 i0 b0))%Z
  then
    iU ++ [[ Z.max (mget lo0 i0 a0) (mget lo1 i1 a1);
             Z.max (mget lo0 i0 b0) (mget lo1 i1 b1);
             Z.min (mget up0 i0 a0) (mget up1 i1 a1);
             Z.min (mget up0 i0 b0) (mget up1 i1 b1);
             vget level0 i0;
             vget level1 i1 ]]
  else iU.

Definition findOverlaps (lo0 up0 : matrix) (level0 : vec) (lo1 up1 : matrix) (level1 : vec)
    (a0 b0 a1 b1 : nat) : list (list Z) :=
  for_loop (rows lo0)
    (fun i0 iU =>
       for_loop (rows lo1)
         (fun i1 iU => overlapBody lo0 up0 level0 lo1 up1 level1 a0 b0 a1 b1 i0 i1 iU) iU)
    [].

(** ** The refinement boxes, general path (lines 371-457) *)

(** [for j < n: ref.push_back(tmpvec[j])] *)
Definition pushAll (n : nat) (tmpvec : vec) (ref : list Z) : list Z :=
  for_loop n (fun j ref => ref ++ [vget tmpvec j]) ref.

(** The flip of the box written for the second patch (lines 439-449). *)
Definition unorientBody (d : nat) (dm : list nat) (dor : list bool) (upperCorn1 : vec)
    (shift : Z) (c jj : nat) (tmpvec : vec) : vec :=
  let j := dmap dm jj in
  if negb (j =? c) && negb (dorient dor jj) then
    let upperCornOnLevel := U32.shr (vget upperCorn1 j) shift in
    let tmp := vget tmpvec (1 + j) in
    let tmpvec := vset tmpvec (1 + j) (U32.sub upperCornOnLevel (vget tmpvec (1 + d + j))) in
    let tmpvec := vset tmpvec (1 + d + j) (U32.sub upperCornOnLevel tmp) in
    tmpvec
  else tmpvec.

Definition unorientBox (d : nat) (dm : list nat) (dor : list bool) (upperCorn1 : vec)
    (shift : Z) (c : nat) (tmpvec : vec) : vec :=
  for_loop d (fun jj tmpvec => unorientBody d dm dor upperCorn1 shift c jj tmpvec) tmpvec.

(** What the loop over [iU] carries: [tmpvec], declared before the loop, and
    the two lists of refinement boxes. *)
Definition emitState : Type := vec * list Z * list Z.

Definition emitBody (d : nat) (bi : boundaryInterface) (Lu : Z) (upperCorn0 upperCorn1 : vec)
    (a0 b0 c0 a1 b1 c1 : nat) (seg : list Z) (st : emitState) : emitState :=
  let '(tmpvec, refEltsFirst, refEltsSecond) := st in
  let L0 := vget seg 4 in
  let L1 := vget seg 5 in
  if negb (L0 =? L1)%Z then
    let '(Luse, a, b, c, refSideIndex, upperCornOnLevel) :=
      if (L0 <? L1)%Z
      then (L1, a0, b0, c0, side_index (first bi),
            U32.shr (vget upperCorn0 c0) (U32.sub Lu L1))
      else (L0, a1, b1, c1, side_index (second bi),
            U32.shr (vget upperCorn1 c1) (U32.sub Lu L0)) in
    let shift := U32.sub Lu Luse in
    let tmpvec := vset tmpvec 0 Luse in
    let tmpvec := vset tmpvec (1 + a) (U32.shr (vget seg 0) shift) in
    let tmpvec := vset tmpvec (1 + d + a) (U32.shr (vget seg 2) shift) in
    let tmpvec :=
      if d =? 3 then
        let tmpvec := vset tmpvec (1 + b) (U32.shr (vget seg 1) shift) in
        vset tmpvec (1 + d + b) (U32.shr (vget seg 3) shift)
      else tmpvec in
    let tmpvec :=
      if refSideIndex mod 2 =? 1 then
        let tmpvec := vset tmpvec (1 + c) 0%Z in
        vset tmpvec (1 + d + c) 1%Z
      else
        let tmpvec := vset tmpvec (1 + c) (U32.sub upperCornOnLevel 1) in
        vset tmpvec (1 + d + c) upperCornOnLevel in
    if (Luse =? L1)%Z then
      (tmpvec, pushAll (length tmpvec) tmpvec refEltsFirst, refEltsSecond)
    else
      let tmpvec :=
        unorientBox d (dirMap bi) (dirOrientation bi) upperCorn1 shift c tmpvec in
      (tmpvec, refEltsFirst, pushAll (1 + 2 * d) tmpvec refEltsSecond)
  else st.

(** [for i < iU.size(): ...], from an all-zero [tmpvec] and two empty lists. *)
Definition emitRefinements (d : nat) (bi : boundaryInterface) (Lu : Z)
    (upperCorn0 upperCorn1 : vec) (a0 b0 c0 a1 b1 c1 : nat) (iU : list (list Z))
    : emitState :=
  fold_left
    (fun st seg => emitBody d bi Lu upperCorn0 upperCorn1 a0 b0 c0 a1 b1 c1 seg st)
    iU (replicate (1 + 2 * d) 0%Z, [], []).

(** [v.size() > 0] *)
Definition nonempty {A : Type} (v : list A) : bool := 0 <? length v.

(** ** repairInterfaceFindElements<d> on the two hierarchical domains *)

(** The values the function holds when it reaches the loop over [iU]. *)
Record mergedInterface := {
  mi_Lu : Z;
  mi_upperCorn0 : vec;
  mi_upperCorn1 : vec;
  mi_boxes0 : matrix * matrix;
  mi_boxes1 : matrix * matrix;
  mi_axes0 : nat * nat * nat;
  mi_axes1 : nat * nat * nat;
  mi_iU : list (list Z)
}.

Definition mergeInterfaceBoxes (d : nat) (bi : boundaryInterface) (t0 t1 : gsHDomain)
    : mergedInterface :=
  let Lu := indexLevelUse t0 t1 in
  let upperCorn0 := upperCornOnIndexLevel d (indexLevelDiff t0 t1 t0) (upperCorner t0) in
  let upperCorn1 := upperCornOnIndexLevel d (indexLevelDiff t0 t1 t1) (upperCorner t1) in
  let sb0 := getBoxesOnSide t0 (side_index (first bi)) in
  let sb1 := getBoxesOnSide t1 (side_index (second bi)) in
  let '(lo0, up0) := shiftBoxes0 d (idxExponent t0 t1 t0) (sb_lo sb0, sb_up sb0) in
  let '(lo1, up1) :=
    orientBoxes1 d (idxExponent t0 t1 t1) (dirMap bi) (dirOrientation bi) upperCorn1
      (sb_lo sb1, sb_up sb1) in
  let '(a0, b0, c0) := spanDirections d (direction (first bi)) in
  let a1 := dmap (dirMap bi) a0 in
  let b1 := dmap (dirMap bi) b0 in
  let c1 := dmap (dirMap bi) c0 in
  {| mi_Lu := Lu;
     mi_upperCorn0 := upperCorn0;
     mi_upperCorn1 := upperCorn1;
     mi_boxes0 := (lo0, up0);
     mi_boxes1 := (lo1, up1);
     mi_axes0 := (a0, b0, c0);
     mi_axes1 := (a1, b1, c1);
     mi_iU := findOverlaps lo0 up0 (sb_level sb0) lo1 up1 (sb_level sb1) a0 b0 a1 b1 |}.

Definition findElements (d : nat) (bi : boundaryInterface) (t0 t1 : gsHDomain)
    : bool * list Z * list Z :=
  let mi := mergeInterfaceBoxes d bi t0 t1 in
  let '(a0, b0, c0) := mi_axes0 mi in
  let '(a1, b1, c1) := mi_axes1 mi in
  let '(_, refEltsFirst, refEltsSecond) :=
    emitRefinements d bi (mi_Lu mi) (mi_upperCorn0 mi) (mi_upperCorn1 mi)
      a0 b0 c0 a1 b1 c1 (mi_iU mi) in
  (nonempty refEltsFirst || nonempty refEltsSecond, refEltsFirst, refEltsSecond).

(** ** The bases of the patches *)

(** A patch basis: [hdomain] is the tree of the basis when the cast to
    [gsHTensorBasis<d,T>] succeeds, [refineElements] the refinement of the
    basis by a list of boxes. *)
Class PatchBasis (B : Type) := {
  hdomain : B -> option gsHDomain;
  refineElements : list Z -> B -> B
}.

(** [gsMultiBasis]: the bases, the dimension [dim()], and a record of the
    calls of [refineElements] made so far (patch and boxes). *)
Record gsMultiBasis (B : Type) := {
  m_bases : list B;
  dim : nat;
  refineCalls : list (nat * list Z)
}.
Arguments m_bases {B} _.
Arguments dim {B} _.
Arguments refineCalls {B} _.

(** [m_bases[p]->refineElements(boxes)] *)
Definition refineAt {B : Type} `{PatchBasis B} (p : nat) (boxes : list Z)
    (mb : gsMultiBasis B) : gsMultiBasis B :=
  {| m_bases := alter (refineElements boxes) p (m_bases mb);
     dim := dim mb;
     refineCalls := refineCalls mb ++ [(p, boxes)] |}.

(** The two [dynamic_cast]s and the assertion on them.  The source reads
    [m_bases[patch]] unchecked: a patch that is not stored is an out-of-bounds
    read there, outside what the code defines; the statements on failed casts
    are about stored patches. *)
Definition castBases {B : Type} `{PatchBasis B} (bi : boundaryInterface)
    (mb : gsMultiBasis B) : result (gsHDomain * gsHDomain) :=
  match m_bases mb !! patch (first bi) ≫= hdomain,
        m_bases mb !! patch (second bi) ≫= hdomain with
  | Some t0, Some t1 => Ok (t0, t1)
  | _, _ => AssertionFailed "Cannot cast basis as needed."
  end.

Definition repairInterfaceFindElements {B : Type} `{PatchBasis B} (d : nat)
    (bi : boundaryInterface) (mb : gsMultiBasis B) : result (bool * list Z * list Z) :=
  bind (GISMO_ASSERT ((d =? 2) || (d =? 3)) "Dimension must be 2 or 3.") (fun _ =>
  bind (castBases bi mb) (fun '(t0, t1) =>
  Ok (findElements d bi t0 t1))).

(** ** repairInterface (lines 196-227) *)

Definition repairInterface {B : Type} `{PatchBasis B} (bi : boundaryInterface)
    (mb : gsMultiBasis B) : result (bool * gsMultiBasis B) :=
  bind
    match dim mb with
    | 2 => repairInterfaceFindElements 2 bi mb
    | 3 => repairInterfaceFindElements 3 bi mb
    | _ => AssertionFailed "wrong dimension"
    end
    (fun '(changed, refEltsFirst, refEltsSecond) =>
       let mb :=
         if changed then
           let mb :=
             if nonempty refEltsFirst
             then refineAt (patch (first bi)) refEltsFirst mb else mb in
           if nonempty refEltsSecond
           then refineAt (patch (second bi)) refEltsSecond mb else mb
         else mb in
       Ok (changed, mb)).

(** ** repairInterface2d (lines 461-698) *)

(** Modelled from the spec: the insertion step of [gsMatrix::sortByColumn]
    below: the row [r] put before the first row of [m] whose entry in column
    [j] is not smaller. *)
Fixpoint insertRow (j : nat) (r : list Z) (m : matrix) : matrix :=
  match m with
  | [] => [r]
  | r' :: m' => if (vget r j <=? vget r' j)%Z then r :: m else r' :: insertRow j r m'
  end.

(** Modelled from the spec: [gsMatrix::sortByColumn] (gsMatrix.h is not among
    the sources): the rows in ascending order of their entry in column [j].
    Rows with equal entries keep their order. *)
Definition sortByColumn (j : nat) (m : matrix) : matrix :=
  foldr (insertRow j) [] m.

(** The table [intfc] of one side: row [i] is
    [(lo(i,dir) << idxExponent, up(i,dir) << idxExponent, level[i])]. *)
Definition interfaceTable (sb : sideBoxes) (dir : nat) (e : Z) : matrix :=
  map (fun i => [ U32.shl (mget (sb_lo sb) i dir) e;
                  U32.shl (mget (sb_up sb) i dir) e;
                  vget (sb_level sb) i ])
      (seq 0 (rows (sb_lo sb))).

(** The flip of the knot indices of [intfc1] (lines 524-533). *)
Definition flipTable (upper : Z) (intfc1 : matrix) : matrix :=
  for_loop (rows intfc1)
    (fun i m =>
       let tmp := U32.sub upper (mget m i 1) in
       let m := mset m i 1 (U32.sub upper (mget m i 0)) in
       mset m i 0 tmp)
    intfc1.

(** One turn of the merging loop: the cursors [i0], [i1] and [intfcU]. *)
Definition mergeState : Type := nat * nat * list (list Z).

Definition mergeStep (intfc0 intfc1 : matrix) (st : mergeState) : mergeState :=
  let '(i0, i1, intfcU) := st in
  if (mget intfc0 i0 1 =? mget intfc1 i1 1)%Z then
    (S i0, S i1, intfcU ++ [[mget intfc0 i0 1; mget intfc0 i0 2; mget intfc1 i1 2]])
  else if (mget intfc0 i0 1 >? mget intfc1 i1 1)%Z then
    (i0, S i1, intfcU ++ [[mget intfc1 i1 1; mget intfc0 i0 2; mget intfc1 i1 2]])
  else
    (S i0, i1, intfcU ++ [[mget intfc0 i0 1; mget intfc0 i0 2; mget intfc1 i1 2]]).

(** [i0 < intfc0.rows() && i1 < intfc1.rows()] *)
Definition mergeGuard (intfc0 intfc1 : matrix) (st : mergeState) : bool :=
  let '(i0, i1, _) := st in (i0 <? rows intfc0) && (i1 <? rows intfc1).

(** The [while] loop, run for at most [fuel] turns. *)
Fixpoint mergeLoop (fuel : nat) (intfc0 intfc1 : matrix) (st : mergeState) : mergeState :=
  match fuel with
  | 0 => st
  | S fuel =>
      if mergeGuard intfc0 intfc1 st
      then mergeLoop fuel intfc0 intfc1 (mergeStep intfc0 intfc1 st)
      else st
  end.

(** Every turn advances a cursor, so [rows intfc0 + rows intfc1] turns are
    enough (lemma [mergeLoop_exits]). *)
Definition mergeInterfaces (intfc0 intfc1 : matrix) : mergeState :=
  mergeLoop (rows intfc0 + rows intfc1) intfc0 intfc1 (0, 0, []).

(** What the loop over [intfcU] carries: [knot1] and the two lists. *)
Definition emitState2d : Type := Z * list Z * list Z.

Definition emitBody2d (bi : boundaryInterface) (Lu : Z) (upperCorn0 upperCorn1 : vec)
    (orientPreserv : bool) (dir1 : nat) (seg : list Z) (st : emitState2d)
    : result emitState2d :=
  let '(knot1, refElts0, refElts1) := st in
  let knot0 := knot1 in
  let knot1 := vget seg 0 in
  let L0 := vget seg 1 in
  let L1 := vget seg 2 in
  if (L0 <? L1)%Z then
    let refElts0 := refElts0 ++ [L1] in
    let knot0L := U32.shr knot0 (U32.sub Lu L1) in
    let knot1L := U32.shr knot1 (U32.sub Lu L1) in
    match side_index (first bi) with
    | 1 => Ok (knot1, refElts0 ++ [0; knot0L; 1; knot1L]%Z, refElts1)
    | 2 =>
        let upperCornOnLevel := U32.shr (vget upperCorn0 0) (U32.sub Lu L1) in
        Ok (knot1,
            refElts0 ++ [U32.sub upperCornOnLevel 1; knot0L; upperCornOnLevel; knot1L],
            refElts1)
    | 3 => Ok (knot1, refElts0 ++ [knot0L; 0; knot1L; 1]%Z, refElts1)
    | 4 =>
        let upperCornOnLevel := U32.shr (vget upperCorn0 1) (U32.sub Lu L1) in
        Ok (knot1,
            refElts0 ++ [knot0L; U32.sub upperCornOnLevel 1; knot1L; upperCornOnLevel],
            refElts1)
    | _ => AssertionFailed "3D not implemented yet. You can do it, if you want."
    end
  else if (L0 >? L1)%Z then
    let refElts1 := refElts1 ++ [L0] in
    let knot0L := knot0 in
    let knot1L := knot1 in
    let '(knot0L, knot1L) :=
      if negb orientPreserv then
        let tmp := knot0L in
        let knot0L := U32.sub (vget upperCorn1 dir1) knot1L in
        let knot1L := U32.sub (vget upperCorn1 dir1) tmp in
        (knot0L, knot1L)
      else (knot0L, knot1L) in
    let knot0L := U32.shr knot0L (U32.sub Lu L0) in
    let knot1L := U32.shr knot1L (U32.sub Lu L0) in
    match side_index (second bi) with
    | 1 => Ok (knot1, refElts0, refElts1 ++ [0; knot0L; 1; knot1L]%Z)
    | 2 =>
        let upperCornOnLevel0 := U32.shr (vget upperCorn1 0) (U32.sub Lu L0) in
        Ok (knot1, refElts0,
            refElts1 ++ [U32.sub upperCornOnLevel0 1; knot0L; upperCornOnLevel0; knot1L])
    | 3 => Ok (knot1, refElts0, refElts1 ++ [knot0L; 0; knot1L; 1]%Z)
    | 4 =>
        let upperCornOnLevel1 := U32.shr (vget upperCorn1 1) (U32.sub Lu L0) in
        Ok (knot1, refElts0,
            refElts1 ++ [knot0L; U32.sub upperCornOnLevel1 1; knot1L; upperCornOnLevel1])
    | _ => AssertionFailed "3D not implemented yet. You can do it, if you want."
    end
  else Ok (knot1, refElts0, refElts1).

Definition emitRefinements2d (bi : boundaryInterface) (Lu : Z) (upperCorn0 upperCorn1 : vec)
    (orientPreserv : bool) (dir1 : nat) (intfcU : list (list Z)) : result emitState2d :=
  fold_left
    (fun r seg =>
       bind r (emitBody2d bi Lu upperCorn0 upperCorn1 orientPreserv dir1 seg))
    intfcU (Ok (0%Z, [], [])).

(** The values [repairInterface2d] holds when it reaches its assertion. *)
Record interfaceTables := {
  it_Lu : Z;
  it_orientPreserv : bool;
  it_dir1 : nat;
  it_upperCorn0 : vec;
  it_upperCorn1 : vec;
  it_intfc0 : matrix;
  it_intfc1 : matrix
}.

Definition interfaceTables2d (bi : boundaryInterface) (t0 t1 : gsHDomain) : interfaceTables :=
  let Lu := indexLevelUse t0 t1 in
  let indexLevelDiff0 := indexLevelDiff t0 t1 t0 in
  let indexLevelDiff1 := indexLevelDiff t0 t1 t1 in
  let sb0 := getBoxesOnSide t0 (side_index (first bi)) in
  let dir0 := (direction (first bi) + 1) mod 2 in
  let orientPreserv := dorient (dirOrientation bi) dir0 in
  let intfc0 := sortByColumn 0 (interfaceTable sb0 dir0 (idxExponent t0 t1 t0)) in
  let sb1 := getBoxesOnSide t1 (side_index (second bi)) in
  let dir1 := (direction (second bi) + 1) mod 2 in
  let intfc1 := interfaceTable sb1 dir1 (idxExponent t0 t1 t1) in
  let upperCorn0 := upperCorner t0 in
  let upperCorn0 := vset upperCorn0 0 (U32.shl (vget upperCorn0 0) indexLevelDiff0) in
  let upperCorn0 := vset upperCorn0 1 (U32.shl (vget upperCorn0 1) indexLevelDiff0) in
  let upperCorn1 := upperCorner t1 in
  let upperCorn1 := vset upperCorn1 0 (U32.shl (vget upperCorn1 0) indexLevelDiff1) in
  let upperCorn1 := vset upperCorn1 1 (U32.shl (vget upperCorn1 1) indexLevelDiff1) in
  let intfc1 :=
    if negb orientPreserv then flipTable (vget upperCorn1 dir1) intfc1 else intfc1 in
  let intfc1 := sortByColumn 0 intfc1 in
  {| it_Lu := Lu;
     it_orientPreserv := orientPreserv;
     it_dir1 := dir1;
     it_upperCorn0 := upperCorn0;
     it_upperCorn1 := upperCorn1;
     it_intfc0 := intfc0;
     it_intfc1 := intfc1 |}.

(** [repairInterface2d] up to its two lists of refinement boxes. *)
Definition findElements2d (bi : boundaryInterface) (t0 t1 : gsHDomain)
    : result (list Z * list Z) :=
  let it := interfaceTables2d bi t0 t1 in
  let intfc0 := it_intfc0 it in
  let intfc1 := it_intfc1 it in
  bind (GISMO_ASSERT
          (mget intfc0 (rows intfc0 - 1) 1 =? mget intfc1 (rows intfc1 - 1) 1)%Z
          " Something wrong with interfaces! Mark 264") (fun _ =>
  let '(_, _, intfcU) := mergeInterfaces intfc0 intfc1 in
  bind (emitRefinements2d bi (it_Lu it) (it_upperCorn0 it) (it_upperCorn1 it)
          (it_orientPreserv it) (it_dir1 it) intfcU)
       (fun '(_, refElts0, refElts1) => Ok (refElts0, refElts1))).

Definition repairInterface2d {B : Type} `{PatchBasis B} (bi : boundaryInterface)
    (mb : gsMultiBasis B) : result (bool * gsMultiBasis B) :=
  bind (castBases bi mb) (fun '(t0, t1) =>
  bind (findElements2d bi t0 t1) (fun '(refElts0, refElts1) =>
  let mb :=
    if nonempty refElts0 then refineAt (patch (first bi)) refElts0 mb else mb in
  let mb :=
    if nonempty refElts1 then refineAt (patch (second bi)) refElts1 mb else mb in
  Ok (nonempty refElts0 || nonempty refElts1, mb))).

(** ** Well-formed inputs *)

(** [dirMap] is a permutation of the [d] directions. *)
Definition is_permutation (d : nat) (dm : list nat) : Prop :=
  length dm = d /\ NoDup dm /\ Forall (fun j => j < d) dm.

(** Every entry is a value of type [unsigned]. *)
Definition vec_in_range (v : vec) : Prop := Forall U32.in_range v.

#[global] Instance is_permutation_dec d dm : Decision (is_permutation d dm).
Proof. unfold is_permutation. apply _. Defined.

#[global] Instance in_range_dec x : Decision (U32.in_range x).
Proof. unfold U32.in_range. apply _. Defined.

#[global] Instance vec_in_range_dec v : Decision (vec_in_range v).
Proof. unfold vec_in_range. apply _. Defined.

#[global] Instance mat_dims_dec n d m : Decision (mat_dims n d m).
Proof. unfold mat_dims. apply _. Defined.

(** Closes a decidable statement about concrete data by evaluation. *)
Ltac by_evaluation := apply (bool_decide_unpack _); vm_compute; exact I.

(** ** The statements in the words of the specification *)

(** The two coordinates of cell [k] of the boxes of one side. *)
Definition cell (k : nat * nat) (s : list (list Z) * list (list Z)) : Z * Z :=
  (mget s.1 k.1 k.2, mget s.2 k.1 k.2).

(** The interval [[lo, up]] seen from the other side: itself when the
    orientation is preserved, [[upper - up, upper - lo]] when it is not. *)
Definition orientInterval (preserved : bool) (upper : Z) (x : Z * Z) : Z * Z :=
  if preserved then x else (U32.sub upper x.2, U32.sub upper x.1).

(** Two intervals overlap: strict inequalities, so that intervals which only
    touch do not. *)
Definition strictOverlap (lo0 up0 lo1 up1 : Z) : Prop := (lo0 < up1 /\ lo1 < up0)%Z.

#[global] Instance strictOverlap_dec lo0 up0 lo1 up1 :
  Decision (strictOverlap lo0 up0 lo1 up1).
Proof. unfold strictOverlap. apply _. Defined.

(** The merged segment of box [i0] of the first side and box [i1] of the
    second: the intersection on the axes [a] and [b], and both levels. *)
Definition pairSegment (lo0 up0 : matrix) (level0 : vec) (lo1 up1 : matrix) (level1 : vec)
    (a0 b0 a1 b1 : nat) (i0 i1 : nat) : list Z :=
  [ Z.max (mget lo0 i0 a0) (mget lo1 i1 a1);
    Z.max (mget lo0 i0 b0) (mget lo1 i1 b1);
    Z.min (mget up0 i0 a0) (mget up1 i1 a1);
    Z.min (mget up0 i0 b0) (mget up1 i1 b1);
    vget level0 i0;
    vget level1 i1 ].

(** The boxes [i0] and [i1] overlap on both axes spanning the interface. *)
Definition pairOverlaps (lo0 up0 lo1 up1 : matrix) (a0 b0 a1 b1 : nat) (i0 i1 : nat) : Prop :=
  strictOverlap (mget lo0 i0 a0) (mget up0 i0 a0) (mget lo1 i1 a1) (mget up1 i1 a1) /\
  strictOverlap (mget lo0 i0 b0) (mget up0 i0 b0) (mget lo1 i1 b1) (mget up1 i1 b1).

#[global] Instance pairOverlaps_dec lo0 up0 lo1 up1 a0 b0 a1 b1 i0 i1 :
  Decision (pairOverlaps lo0 up0 lo1 up1 a0 b0 a1 b1 i0 i1).
Proof. unfold pairOverlaps. apply _. Defined.

(** The order of the rows of a table sorted by column [j]. *)
Definition colLe (j : nat) (r r' : list Z) : Prop := (vget r j <= vget r' j)%Z.

(** What is left for the merging loop to do: the rows not yet passed. *)
Definition mergeMeasure (intfc0 intfc1 : matrix) (st : mergeState) : nat :=
  let '(i0, i1, _) := st in (rows intfc0 - i0) + (rows intfc1 - i1).


(** The two coordinates of axis [j] of a refinement box [level, lo, up]. *)
Definition boxAxis (d : nat) (j : nat) (box : vec) : Z * Z :=
  (vget box (1 + j), vget box (1 + d + j)).

(** The extent of a refinement box along the normal direction: the cell
    next to the boundary, at the lower end of the domain for a side of odd
    index (west, south, front), at the upper end for one of even index (east,
    north, back). *)
Definition slab (sideIndex : nat) (upperCornOnLevel : Z) : Z * Z :=
  if sideIndex mod 2 =? 1 then (0%Z, 1%Z)
  else (U32.sub upperCornOnLevel 1, upperCornOnLevel).

(** The refinement box [level, lo_0 .. lo_(d-1), up_0 .. up_(d-1)] whose
    extent along direction [j] is [extent j]. *)
Definition refinementBox (d : nat) (level : Z) (extent : nat -> Z * Z) : vec :=
  level :: map (fun j => (extent j).1) (seq 0 d) ++ map (fun j => (extent j).2) (seq 0 d).

(** The extent of a merged segment of the general path along its first
    ([snd_axis = false]) or second spanning direction, shifted down. *)
Definition segmentExtent (seg : list Z) (snd_axis : bool) (shift : Z) : Z * Z :=
  if snd_axis then (U32.shr (vget seg 1) shift, U32.shr (vget seg 3) shift)
  else (U32.shr (vget seg 0) shift, U32.shr (vget seg 2) shift).

(** The box asked of the first patch for the segment [seg]. *)
Definition requestFirst (d : nat) (bi : boundaryInterface) (Lu : Z) (upperCorn0 : vec)
    (a0 c0 : nat) (seg : list Z) : vec :=
  let Luse := vget seg 5 in
  let shift := U32.sub Lu Luse in
  refinementBox d Luse (fun j =>
    if j =? c0 then slab (side_index (first bi)) (U32.shr (vget upperCorn0 c0) shift)
    else segmentExtent seg (negb (j =? a0)) shift).

(** The box asked of the second patch for the segment [seg]: along a
    spanning direction whose orientation is not preserved the shifted extent
    is reflected about the upper corner of the patch on level [Luse]. *)
Definition requestSecond (d : nat) (bi : boundaryInterface) (Lu : Z) (upperCorn1 : vec)
    (a0 b0 a1 c1 : nat) (seg : list Z) : vec :=
  let Luse := vget seg 4 in
  let shift := U32.sub Lu Luse in
  refinementBox d Luse (fun j =>
    if j =? c1 then slab (side_index (second bi)) (U32.shr (vget upperCorn1 c1) shift)
    else
      orientInterval
        (dorient (dirOrientation bi) (if j =? a1 then a0 else b0))
        (U32.shr (vget upperCorn1 j) shift)
        (segmentExtent seg (negb (j =? a1)) shift)).

(** What one merged segment [seg] asks of the first and of the second
    patch: a box when the level of that patch is the lower one, nothing
    otherwise. *)
Definition requestsFirst (d : nat) (bi : boundaryInterface) (Lu : Z) (upperCorn0 : vec)
    (a0 c0 : nat) (seg : list Z) : list Z :=
  if (vget seg 4 <? vget seg 5)%Z then requestFirst d bi Lu upperCorn0 a0 c0 seg else [].

Definition requestsSecond (d : nat) (bi : boundaryInterface) (Lu : Z) (upperCorn1 : vec)
    (a0 b0 a1 c1 : nat) (seg : list Z) : list Z :=
  if (vget seg 5 <? vget seg 4)%Z
  then requestSecond d bi Lu upperCorn1 a0 b0 a1 c1 seg else [].

(** The box of [repairInterface2d] for a patch met on its side [sideIndex]:
    the cell next to the side along the normal direction, [extent] along
    the other one. *)
Definition request2d (sideIndex : nat) (Luse : Z) (upperCorn : vec) (shift : Z)
    (extent : Z * Z) : vec :=
  refinementBox 2 Luse (fun j =>
    if j =? (sideIndex - 1) / 2
    then slab sideIndex (U32.shr (vget upperCorn j) shift) else extent).

(** What the segment from [knot0] to [seg[0]] asks of the first and of the
    second patch in [repairInterface2d]. *)
Definition requests2dFirst (bi : boundaryInterface) (Lu : Z) (upperCorn0 : vec)
    (knot0 : Z) (seg : list Z) : list Z :=
  let shift := U32.sub Lu (vget seg 2) in
  if (vget seg 1 <? vget seg 2)%Z
  then request2d (side_index (first bi)) (vget seg 2) upperCorn0 shift
         (U32.shr knot0 shift, U32.shr (vget seg 0) shift)
  else [].

Definition requests2dSecond (bi : boundaryInterface) (Lu : Z) (upperCorn1 : vec)
    (orientPreserv : bool) (dir1 : nat) (knot0 : Z) (seg : list Z) : list Z :=
  let shift := U32.sub Lu (vget seg 1) in
  let x := orientInterval orientPreserv (vget upperCorn1 dir1) (knot0, vget seg 0) in
  if (vget seg 2 <? vget seg 1)%Z
  then request2d (side_index (second bi)) (vget seg 1) upperCorn1 shift
         (U32.shr x.1 shift, U32.shr x.2 shift)
  else [].

(** The boxes asked along the merged segments of [repairInterface2d]: each
    segment runs from [knot0], the end of the segment before it (0 for the
    first), to its own end [seg[0]]. *)
Fixpoint requestsAlong (request : Z -> list Z -> list Z) (knot0 : Z)
    (intfcU : list (list Z)) : list Z :=
  match intfcU with
  | [] => []
  | seg :: intfcU => request knot0 seg ++ requestsAlong request (vget seg 0) intfcU
  end.

(** A side of a patch of the plane: west, east, south or north. *)
Definition planarSide (sideIndex : nat) : Prop := 1 <= sideIndex <= 4.

#[global] Instance planarSide_dec sideIndex : Decision (planarSide sideIndex).
Proof. unfold planarSide. apply _. Defined.

(** The inputs on which [repairInterfaceFindElements<d>] is defined: [d] is
    2 or 3, the first side lies across one of the [d] directions, and [dirMap]
    permutes the directions. *)
Definition wellFormed (d : nat) (bi : boundaryInterface) : Prop :=
  (d = 2 \/ d = 3) /\ direction (first bi) < d /\ is_permutation d (dirMap bi).

#[global] Instance wellFormed_dec d bi : Decision (wellFormed d bi).
Proof. unfold wellFormed. apply _. Defined.

(** ** The scenarios of the specification, as inputs *)

Module Scenario.
Local Open Scope Z_scope.

(** Patch 0 meets patch 1 along its east side; patch 1 along its west
    side. *)
Definition east_west (dor : list bool) : boundaryInterface :=
  {| first := {| patch := 0; side_index := 2; direction := 0 |};
     second := {| patch := 1; side_index := 1; direction := 0 |};
     dirMap := [0; 1]%nat;
     dirOrientation := dor |}.

(** The boundary boxes of a patch of the plane with upper corner [upper]
    along its west (index 1) or east side: for each element [(lo, up, level)]
    the cell next to the side, from [lo] to [up] along direction 1. *)
Definition strip (upper : Z) (elements : list (Z * Z * Z)) (side : nat) : sideBoxes :=
  {| sb_lo := map (fun e => [if (side =? 1)%nat then 0 else upper - 1; e.1.1]) elements;
     sb_up := map (fun e => [if (side =? 1)%nat then 1 else upper; e.1.2]) elements;
     sb_level := map (fun e => e.2) elements |}.

Definition tree (level upper : Z) (elements : list (Z * Z * Z)) : gsHDomain :=
  {| getIndexLevel := level; getMaxInsLevel := level; upperCorner := [upper; upper];
     getBoxesOnSide := strip upper elements |}.

(** One boundary element of level 2 over the whole interface [[0,4]]. *)
Definition coarse : gsHDomain := tree 3 4 [(0, 4, 2)].

(** Two boundary elements of level 3 over [[0,2]] and [[2,4]]. *)
Definition fine : gsHDomain := tree 3 4 [(0, 2, 3); (2, 4, 3)].

(** Two boundary elements over [[0,1]] (level 3) and [[1,4]] (level 1). *)
Definition uneven : gsHDomain := tree 3 4 [(0, 1, 3); (1, 4, 1)].

(** The domain of [coarse] stored at index level 2. *)
Definition coarse_low : gsHDomain := tree 2 2 [(0, 2, 2)].

(** A patch whose domain ends at 2: its side is shorter than that of the
    patches above. *)
Definition short : gsHDomain := tree 3 2 [(0, 2, 3)].

(** A basis for the examples: its tree, if it is hierarchical, and the
    boxes it was asked to refine. *)
Record basis := { b_tree : option gsHDomain; b_refined : list (list Z) }.

#[global] Instance basis_PatchBasis : PatchBasis basis :=
  {| hdomain := b_tree;
     refineElements := fun boxes b =>
       {| b_tree := b_tree b; b_refined := b_refined b ++ [boxes] |} |}.

Definition patches (d : nat) (t0 t1 : gsHDomain) : gsMultiBasis basis :=
  {| m_bases := [ {| b_tree := Some t0; b_refined := [] |};
                  {| b_tree := Some t1; b_refined := [] |} ];
     dim := d;
     refineCalls := [] |}.

(** Scenario C: the box [[0,2] x [0,2]] of level 1 on the first side, the
    box [[1,3] x [1,3]] of level 2 on the second; the interface is spanned by
    the directions 1 and 2. *)
Definition boxA : sideBoxes :=
  {| sb_lo := [[0; 0; 0]]; sb_up := [[1; 2; 2]]; sb_level := [1] |}.
Definition boxB : sideBoxes :=
  {| sb_lo := [[0; 1; 1]]; sb_up := [[1; 3; 3]]; sb_level := [2] |}.
(** A box that only touches [boxA]: it starts where [boxA] ends. *)
Definition boxB_touching : sideBoxes :=
  {| sb_lo := [[0; 2; 0]]; sb_up := [[1; 4; 2]]; sb_level := [2] |}.
End Scenario.

(** ** Degrees of a multi-basis (lines 99-139) *)

(** The degree queries of a basis: [degree(k)], [maxDegree()] and
    [minDegree()]. *)
Class BasisDegrees (B : Type) := {
  degree : B -> Z -> Z;
  basisMaxDegree : B -> Z;
  basisMinDegree : B -> Z
}.

(** [maxDegree(k)]: the assertion on [m_bases.size()], then the loop over all
    bases from [result = m_bases[0]->degree(k)]. *)
Definition maxDegree {B : Type} `{BasisDegrees B} (mb : gsMultiBasis B) (k : Z) : result Z :=
  match m_bases mb with
  | [] => AssertionFailed "Empty multibasis."
  | b0 :: _ =>
      Ok (fold_left
            (fun result b => if (degree b k >? result)%Z then degree b k else result)
            (m_bases mb) (degree b0 k))
  end.

(** [minDegree(k)] *)
Definition minDegree {B : Type} `{BasisDegrees B} (mb : gsMultiBasis B) (k : Z) : result Z :=
  match m_bases mb with
  | [] => AssertionFailed "Empty multibasis."
  | b0 :: _ =>
      Ok (fold_left
            (fun result b => if (degree b k <? result)%Z then degree b k else result)
            (m_bases mb) (degree b0 k))
  end.

(** [maxCwiseDegree()] *)
Definition maxCwiseDegree {B : Type} `{BasisDegrees B} (mb : gsMultiBasis B) : result Z :=
  match m_bases mb with
  | [] => AssertionFailed "Empty multibasis."
  | b0 :: _ =>
      Ok (fold_left (fun result b => Z.max (basisMaxDegree b) result)
            (m_bases mb) (basisMaxDegree b0))
  end.

(** [minCwiseDegree()] *)
Definition minCwiseDegree {B : Type} `{BasisDegrees B} (mb : gsMultiBasis B) : result Z :=
  match m_bases mb with
  | [] => AssertionFailed "Empty multibasis."
  | b0 :: _ =>
      Ok (fold_left (fun result b => Z.min (basisMinDegree b) result)
            (m_bases mb) (basisMinDegree b0))
  end.

(** ** The stored bases and the topology (lines 65-97) *)

(** The operations of [gsBoxTopology] that [addBasis] and [addInterface]
    call; the class itself is not among the sources. *)
Class BoxTopology (T : Type) := {
  top_dim : T -> Z;
  top_setDim : Z -> T -> T;
  top_addBox : T -> T;
  top_addInterface : nat -> nat -> nat -> nat -> T -> T
}.

(** [m_bases] as the container of pointers that it is, and [m_topology].
    [P] is the type of the pointers; two pointers are compared by [=]. *)
Record basisStore (P T : Type) := {
  bs_bases : list P;
  bs_topology : T
}.
Arguments bs_bases {P T} _.
Arguments bs_topology {P T} _.

(** The macro [assert] of the C library: fatal when the condition fails. *)
Definition c_assert (cond : bool) (expr : string) : result unit :=
  if cond then Ok tt else AssertionFailed expr.

(** [findBasisIndex]: [std::find] gives the first position that holds [g];
    the assertion fails when there is none. *)
Definition findBasisIndex {P : Type} `{EqDecision P} (m_bases : list P) (g : P)
    : result nat :=
  match list_find (fun b => b = g) m_bases with
  | Some (i, _) => Ok i
  | None => AssertionFailed "it != m_bases.end()"
  end.

(** [addBasis]; [dimOf g] is [g->dim()].  The last statement, [g = NULL],
    clears the variable of the caller and leaves the store alone. *)
Definition addBasis {P T : Type} `{BoxTopology T} (dimOf : P -> Z) (g : P)
    (s : basisStore P T) : result (basisStore P T) :=
  bind
    (if (top_dim (bs_topology s) =? -1)%Z
     then Ok (top_setDim (dimOf g) (bs_topology s))
     else
       bind (c_assert (dimOf g =? top_dim (bs_topology s))%Z
               "g->dim() == m_topology.dim()")
            (fun _ => Ok (bs_topology s)))
    (fun t => Ok {| bs_bases := bs_bases s ++ [g]; bs_topology := top_addBox t |}).

(** [addInterface] *)
Definition addInterface {P T : Type} `{EqDecision P} `{BoxTopology T}
    (g1 : P) (s1 : nat) (g2 : P) (s2 : nat) (s : basisStore P T)
    : result (basisStore P T) :=
  bind (findBasisIndex (bs_bases s) g1) (fun p1 =>
  bind (findBasisIndex (bs_bases s) g2) (fun p2 =>
  Ok {| bs_bases := bs_bases s;
        bs_topology := top_addInterface p1 s1 p2 s2 (bs_topology s) |})).

(** ** gsConjugateGradient::solve (gsConjugateGradient.h, lines 49-60) *)

(** The solver: the counters [m_numIter] and [m_maxIters], and the rest of
    its state together with the iterate [x] ([cg_data]). *)
Record cgSolver (D : Type) := {
  m_numIter : Z;
  m_maxIters : Z;
  cg_data : D
}.
Arguments m_numIter {D} _.
Arguments m_maxIters {D} _.
Arguments cg_data {D} _.

(** [initIteration] and [step] are defined outside the sources, and the
    final assignment to [m_error] is a computation on floating-point numbers:
    they are taken as they come. *)
Class CGIteration (D : Type) := {
  initIteration : cgSolver D -> cgSolver D;
  step : cgSolver D -> bool * cgSolver D;
  setError : cgSolver D -> cgSolver D
}.

(** The [while] loop, run for at most [fuel] turns; beside the solver it
    gives the results of the calls of [step], in order. *)
Fixpoint solveLoop {D : Type} `{CGIteration D} (fuel : nat) (s : cgSolver D)
    (steps : list bool) : cgSolver D * list bool :=
  match fuel with
  | 0 => (s, steps)
  | S fuel =>
      if (m_numIter s <? m_maxIters s)%Z then
        let '(converged, s) := step s in
        if converged then (s, steps ++ [true])
        else
          solveLoop fuel
            {| m_numIter := m_numIter s + 1; m_maxIters := m_maxIters s;
               cg_data := cg_data s |}
            (steps ++ [false])
      else (s, steps)
  end.

(** [solve]: the loop needs at most [m_maxIters - m_numIter] turns when
    [step] leaves the two counters alone (lemma [solveLoop_fuel]). *)
Definition solve {D : Type} `{CGIteration D} (s : cgSolver D) : cgSolver D * list bool :=
  let s := initIteration s in
  let '(s, steps) := solveLoop (Z.to_nat (m_maxIters s - m_numIter s)) s [] in
  (setError s, steps).

(** [step] leaves the counters [m_numIter] and [m_maxIters] alone. *)
Definition stepKeepsCounters {D : Type} `{CGIteration D} : Prop :=
  forall s, m_numIter (step s).2 = m_numIter s /\ m_maxIters (step s).2 = m_maxIters s.

(** ** Further statements about the interface repair *)

(** The end coordinates of a table grow from row to row. *)
Definition endsIncreasing (t : list (list Z)) : Prop :=
  forall i j, i < j -> j < rows t -> (mget t i 1 < mget t j 1)%Z.

(** The end coordinates of the merged segments. *)
Definition segmentEnds (intfcU : list (list Z)) : list Z :=
  map (fun seg => vget seg 0) intfcU.

(** A row [(start, end, level)] of the table of the second side, flipped. *)
Definition flipRow (upper : Z) (row : list Z) : list Z :=
  vset (vset row 1 (U32.sub upper (vget row 0))) 0 (U32.sub upper (vget row 1)).

(** The two levels of a merged segment of the general path differ. *)
Definition mismatched (seg : list Z) : Prop := vget seg 4 ≠ vget seg 5.

(** The two levels of a merged segment of [repairInterface2d] differ. *)
Definition mismatched2d (seg : list Z) : Prop := vget seg 1 ≠ vget seg 2.

(** What holds of the cursors and of the segments emitted so far, at every
    turn of the merging loop. *)
Definition mergeInvariant (intfc0 intfc1 : list (list Z)) (st : mergeState) : Prop :=
  let '(i0, i1, intfcU) := st in
  ((i0 < rows intfc0 /\ i1 < rows intfc1) \/ (i0 = rows intfc0 /\ i1 = rows intfc1)) /\
  Forall (fun x => (i0 < rows intfc0 -> (x < mget intfc0 i0 1)%Z) /\
                   (i1 < rows intfc1 -> (x < mget intfc1 i1 1)%Z))
         (segmentEnds intfcU) /\
  StronglySorted Z.lt (segmentEnds intfcU) /\
  (forall x, x ∈ segmentEnds intfcU <->
     (exists i, i < i0 /\ mget intfc0 i 1 = x) \/
     (exists i, i < i1 /\ mget intfc1 i 1 = x)).

(** The multi-bases that differ from [mb] on the patches [p0] and [p1] only. *)
Definition sameOutside {B : Type} (p0 p1 : nat) (mb mb' : gsMultiBasis B) : Prop :=
  dim mb' = dim mb /\
  length (m_bases mb') = length (m_bases mb) /\
  forall p, p <> p0 -> p <> p1 -> m_bases mb' !! p = m_bases mb !! p.

(** The interval [x] lies in [[0, upper]], its lower end first. *)
Definition inDomain (upper : Z) (x : Z * Z) : Prop := (0 <= x.1 <= x.2 /\ x.2 <= upper)%Z.

(** ** Instances for the examples *)

Module Example.
Local Open Scope Z_scope.

(** A tensor-product basis given by its degrees per direction. *)
Record tensorBasis := { degrees : list Z }.

#[global] Instance tensorBasis_BasisDegrees : BasisDegrees tensorBasis :=
  {| degree := fun b k => vget (degrees b) (Z.to_nat k);
     basisMaxDegree := fun b => foldr Z.max (vget (degrees b) 0) (degrees b);
     basisMinDegree := fun b => foldr Z.min (vget (degrees b) 0) (degrees b) |}.

(** Two patches of degrees (2,3) and (1,4). *)
Definition twoPatches : gsMultiBasis tensorBasis :=
  {| m_bases := [ {| degrees := [2; 3] |}; {| degrees := [1; 4] |} ];
     dim := 2%nat; refineCalls := [] |}.

(** A box topology that records what it is told: its dimension, its number
    of boxes and its interfaces. *)
Record topology := {
  t_dim : Z;
  t_boxes : nat;
  t_interfaces : list (nat * nat * nat * nat)
}.

#[global] Instance topology_BoxTopology : BoxTopology topology :=
  {| top_dim := t_dim;
     top_setDim := fun d t =>
       {| t_dim := d; t_boxes := t_boxes t; t_interfaces := t_interfaces t |};
     top_addBox := fun t =>
       {| t_dim := t_dim t; t_boxes := S (t_boxes t); t_interfaces := t_interfaces t |};
     top_addInterface := fun p1 s1 p2 s2 t =>
       {| t_dim := t_dim t; t_boxes := t_boxes t;
          t_interfaces := t_interfaces t ++ [(p1, s1, p2, s2)] |} |}.

(** A store without bases, as the default constructor leaves it, and the
    pointers as addresses; a basis at address [a] has dimension 2. *)
Definition emptyStore : basisStore nat topology :=
  {| bs_bases := []; bs_topology := {| t_dim := -1; t_boxes := 0; t_interfaces := [] |} |}.

Definition planar (a : nat) : Z := 2.

(** An iteration that converges at its [n]-th step: [cg_data] counts the
    steps that are left. *)
#[global] Instance countdown_CGIteration : CGIteration nat :=
  {| initIteration := fun s =>
       {| m_numIter := 0; m_maxIters := m_maxIters s; cg_data := cg_data s |};
     step := fun s =>
       match cg_data s with
       | O => (true, s)
       | S n => (false, {| m_numIter := m_numIter s; m_maxIters := m_maxIters s;
                           cg_data := n |})
       end;
     setError := fun s => s |}.
End Example.

(** * Properties *)

(** ** Arithmetic on [unsigned] *)

Module U32Facts.
Local Open Scope Z_scope.

Lemma wrap_in_range x : U32.in_range x -> U32.wrap x = x.
Proof. unfold U32.in_range, U32.wrap. intros Hx. by apply Z.mod_small. Qed.

Lemma shl_0_l n : U32.shl 0 n = 0.
Proof. unfold U32.shl. by rewrite Z.shiftl_0_l. Qed.

Lemma shl_0_r x : U32.in_range x -> U32.shl x 0 = x.
Proof. intros Hx. unfold U32.shl. rewrite Z.shiftl_0_r. by apply wrap_in_range. Qed.

Lemma sub_diag x : U32.sub x x = 0.
Proof. unfold U32.sub. by rewrite Z.sub_diag. Qed.

Lemma shr_0_r x : U32.shr x 0 = x.
Proof. apply Z.shiftr_0_r. Qed.

(** Reflecting twice about the same bound gives the value back. *)
Lemma sub_sub_cancel u x : U32.in_range x -> U32.sub u (U32.sub u x) = x.
Proof.
  intros Hx. unfold U32.sub, U32.wrap.
  rewrite Zminus_mod_idemp_r.
  replace (u - (u - x)) with x by lia.
  by apply Z.mod_small.
Qed.
End U32Facts.

(** ** Vectors and matrices *)

Lemma vget_vset_eq (v : vec) (i : nat) (x : Z) :
  i < length v -> vget (vset v i x) i = x.
Proof. intros Hi. unfold vget, vset. by rewrite list_lookup_insert_eq. Qed.

Lemma vget_vset_ne (v : vec) (i j : nat) (x : Z) :
  i ≠ j -> vget (vset v i x) j = vget v j.
Proof. intros Hij. unfold vget, vset. by rewrite list_lookup_insert_ne. Qed.

Lemma vget_ge (v : vec) (i : nat) : length v <= i -> vget v i = 0%Z.
Proof. intros Hi. unfold vget. by rewrite lookup_ge_None_2. Qed.

Lemma length_vset (v : vec) (i : nat) (x : Z) : length (vset v i x) = length v.
Proof. apply length_insert. Qed.

Lemma mat_dims_mset (n d : nat) (m : matrix) (i j : nat) (x : Z) :
  mat_dims n d m -> mat_dims n d (mset m i j x).
Proof.
  intros [Hn Hd]. split.
  - by rewrite <- Hn; apply length_alter.
  - unfold mset. apply Forall_alter; [done|].
    intros row _ Hrow. by rewrite length_vset.
Qed.

Lemma mat_dims_row (n d : nat) (m : matrix) (i : nat) :
  mat_dims n d m -> i < n -> exists row, m !! i = Some row /\ length row = d.
Proof.
  intros [Hn Hd] Hi.
  destruct (lookup_lt_is_Some_2 m i) as [row Hrow]; [lia|].
  exists row. split; [done|].
  by eapply (Forall_lookup_1 _ _ _ _ Hd Hrow).
Qed.

Lemma mget_mset_eq (n d : nat) (m : matrix) (i j : nat) (x : Z) :
  mat_dims n d m -> i < n -> j < d -> mget (mset m i j x) i j = x.
Proof.
  intros Hm Hi Hj.
  destruct (mat_dims_row n d m i Hm Hi) as (row & Hrow & Hlen).
  unfold mget, mset. rewrite list_lookup_alter_eq, Hrow. simpl.
  apply vget_vset_eq. lia.
Qed.

Lemma mget_mset_ne (m : matrix) (i j i' j' : nat) (x : Z) :
  (i, j) ≠ (i', j') -> mget (mset m i j x) i' j' = mget m i' j'.
Proof.
  intros Hne. unfold mget, mset.
  destruct (decide (i = i')) as [<-|Hi].
  - rewrite list_lookup_alter_eq.
    destruct (m !! i) as [row|]; simpl; [|done].
    apply vget_vset_ne. congruence.
  - by rewrite list_lookup_alter_ne.
Qed.

(** ** Loops that update one cell per turn *)

Lemma for_loop_nested {S : Type} (n d : nat) (body : nat -> nat -> S -> S) (s : S) :
  for_loop n (fun i s => for_loop d (fun j s => body i j s) s) s =
  fold_left (fun s p => body p.1 p.2 s) (seq 0 n ≫= fun i => pair i <$> seq 0 d) s.
Proof.
  unfold for_loop. generalize (seq 0 n) as l. generalize (seq 0 d) as k.
  intros k l. revert s. induction l as [|i l IH]; intros s; [done|].
  cbn [fold_left]. rewrite IH. cbn. rewrite fold_left_app. f_equal.
  clear IH. revert s. induction k as [|j k IH]; intros s; [done|].
  cbn. by rewrite IH.
Qed.

Section FoldPointwise.
Context {S T K X : Type}.
Variables (key : T -> K) (rd : K -> S -> X) (g : T -> X -> X) (body : T -> S -> S).
Variables (ok : S -> Prop) (okk : K -> Prop).

Hypothesis body_ok : forall t s, ok s -> ok (body t s).
Hypothesis body_other : forall t s k,
  ok s -> okk k -> okk (key t) -> k ≠ key t -> rd k (body t s) = rd k s.
Hypothesis body_same : forall t s,
  ok s -> okk (key t) -> rd (key t) (body t s) = g t (rd (key t) s).

Lemma fold_pointwise_ok (l : list T) (s : S) :
  ok s -> ok (fold_left (fun s t => body t s) l s).
Proof. revert s. induction l as [|t l IH]; intros s Hs; cbn; auto. Qed.

Lemma fold_pointwise_other (l : list T) (s : S) (k : K) :
  ok s -> okk k -> Forall (fun t => okk (key t)) l -> k ∉ key <$> l ->
  rd k (fold_left (fun s t => body t s) l s) = rd k s.
Proof.
  revert s. induction l as [|t l IH]; intros s Hs Hk Hl Hnot; [done|].
  apply Forall_cons in Hl as [Ht Hl].
  rewrite fmap_cons in Hnot. apply not_elem_of_cons in Hnot as [Hne Hnot].
  cbn. rewrite IH by auto. by apply body_other.
Qed.

Lemma fold_pointwise_same (l : list T) (s : S) (t : T) :
  ok s -> Forall (fun t => okk (key t)) l -> NoDup (key <$> l) -> t ∈ l ->
  rd (key t) (fold_left (fun s t => body t s) l s) = g t (rd (key t) s).
Proof.
  revert s. induction l as [|t0 l IH]; intros s Hs Hl Hnd Hin.
  { by apply elem_of_nil in Hin. }
  apply Forall_cons in Hl as [Ht0 Hl].
  rewrite fmap_cons in Hnd. apply NoDup_cons in Hnd as [Hnot Hnd].
  cbn. apply elem_of_cons in Hin as [->|Hin].
  - rewrite fold_pointwise_other by auto. by apply body_same.
  - rewrite IH by auto.
    assert (okk (key t)) as Ht by (by eapply (Forall_forall _ l) in Hl).
    rewrite body_other; auto.
    intros Heq. apply Hnot. rewrite <- Heq. by apply list_elem_of_fmap_2.
Qed.
End FoldPointwise.

(** ** Permutations of the directions *)

Lemma dmap_lookup (dm : list nat) (jj j : nat) : dm !! jj = Some j -> dmap dm jj = j.
Proof. unfold dmap. by intros ->. Qed.

Lemma is_permutation_lt (d : nat) (dm : list nat) (jj : nat) :
  is_permutation d dm -> jj < d -> dmap dm jj < d /\ dm !! jj = Some (dmap dm jj).
Proof.
  intros (Hlen & _ & Hall) Hjj.
  destruct (lookup_lt_is_Some_2 dm jj) as [j Hj]; [lia|].
  rewrite (dmap_lookup _ _ _ Hj). split; [|done].
  by apply (Forall_lookup_1 _ _ _ _ Hall Hj).
Qed.

Lemma is_permutation_inj (d : nat) (dm : list nat) (jj jj' : nat) :
  is_permutation d dm -> jj < d -> jj' < d -> dmap dm jj = dmap dm jj' -> jj = jj'.
Proof.
  intros Hp Hjj Hjj' Heq.
  destruct (is_permutation_lt d dm jj Hp Hjj) as [_ H1].
  destruct (is_permutation_lt d dm jj' Hp Hjj') as [_ H2].
  destruct Hp as (_ & Hnd & _).
  rewrite Heq in H1. by eapply NoDup_lookup.
Qed.

(** The cells [(i, dirMap[jj])] visited by a loop over the rows [i < n] and
    the directions [jj < d] are pairwise different. *)
Lemma cells_NoDup (n d : nat) (dm : list nat) :
  is_permutation d dm ->
  NoDup ((fun p : nat * nat => (p.1, dmap dm p.2)) <$>
         (seq 0 n ≫= fun i => pair i <$> seq 0 d)).
Proof.
  intros Hp. apply NoDup_fmap_2_strong.
  - intros [i jj] [i' jj'] Hin Hin' [= -> Heq]. simpl in *. f_equal.
    apply list_elem_of_bind in Hin as (? & Hin & _).
    apply list_elem_of_bind in Hin' as (? & Hin' & _).
    apply list_elem_of_fmap in Hin as (? & [= _ <-] & Hjj%elem_of_seq).
    apply list_elem_of_fmap in Hin' as (? & [= _ <-] & Hjj'%elem_of_seq).
    eapply is_permutation_inj; eauto; lia.
  - apply NoDup_bind.
    + intros i i' [? ?] _ _ Hin Hin'.
      apply list_elem_of_fmap in Hin as (? & [= -> _] & _).
      by apply list_elem_of_fmap in Hin' as (? & [= -> _] & _).
    + intros i _. apply NoDup_fmap_2; [|apply NoDup_seq].
      by intros ?? [= ->].
    + apply NoDup_seq.
Qed.

Lemma cells_elem_of (n d i jj : nat) :
  i < n -> jj < d -> (i, jj) ∈ (seq 0 n ≫= fun i => pair i <$> seq 0 d).
Proof.
  intros Hi Hjj. apply list_elem_of_bind. exists i. split.
  - apply list_elem_of_fmap_2, elem_of_seq. lia.
  - apply elem_of_seq. lia.
Qed.

Lemma cells_Forall (n d : nat) (P : nat * nat -> Prop) :
  (forall i jj, i < n -> jj < d -> P (i, jj)) ->
  Forall P (seq 0 n ≫= fun i => pair i <$> seq 0 d).
Proof.
  intros HP. apply Forall_forall. intros [i jj] Hin.
  apply list_elem_of_bind in Hin as (i' & Hin & Hi%elem_of_seq).
  apply list_elem_of_fmap in Hin as (? & [= -> ->] & Hjj%elem_of_seq).
  apply HP; lia.
Qed.

(** ** Level normalisation: what the loops compute *)

Lemma vget_vset_shl (v : vec) (i : nat) (e : Z) :
  vget (vset v i (U32.shl (vget v i) e)) i = U32.shl (vget v i) e.
Proof.
  destruct (decide (i < length v)) as [Hi|Hi].
  - by apply vget_vset_eq.
  - unfold vset. rewrite list_insert_ge by lia.
    rewrite vget_ge by lia. by rewrite U32Facts.shl_0_l.
Qed.

Lemma mget_mset_shl (m : matrix) (i j : nat) (e : Z) :
  mget (mset m i j (U32.shl (mget m i j) e)) i j = U32.shl (mget m i j) e.
Proof.
  unfold mget, mset. rewrite list_lookup_alter_eq.
  destruct (m !! i) as [row|]; simpl.
  - apply vget_vset_shl.
  - by rewrite U32Facts.shl_0_l.
Qed.

Lemma upperCornOnIndexLevel_spec (d : nat) (diff : Z) (v : vec) (i : nat) :
  vget (upperCornOnIndexLevel d diff v) i =
  if decide (i < d) then U32.shl (vget v i) diff else vget v i.
Proof.
  unfold upperCornOnIndexLevel, for_loop.
  destruct (decide (i < d)) as [Hi|Hi].
  - apply (fold_pointwise_same id (fun k v => vget v k) (fun _ x => U32.shl x diff)
             (fun i v => vset v i (U32.shl (vget v i) diff))
             (fun _ => True) (fun _ => True)); auto.
    + intros t s k _ _ _ Hne. by apply vget_vset_ne.
    + intros t s _ _. apply vget_vset_shl.
    + by apply Forall_true.
    + rewrite list_fmap_id. apply NoDup_seq.
    + apply elem_of_seq. lia.
  - apply (fold_pointwise_other id (fun k v => vget v k)
             (fun i v => vset v i (U32.shl (vget v i) diff))
             (fun _ => True) (fun _ => True)); auto.
    + intros t s k _ _ _ Hne. by apply vget_vset_ne.
    + by apply Forall_true.
    + rewrite list_fmap_id. rewrite elem_of_seq. lia.
Qed.

Lemma rows_NoDup (n d : nat) :
  NoDup (seq 0 n ≫= fun i => pair i <$> seq 0 d).
Proof.
  apply NoDup_bind.
  - intros i1 i2 [? ?] _ _ Hin Hin'.
    apply list_elem_of_fmap in Hin as (? & [= -> _] & _).
    by apply list_elem_of_fmap in Hin' as (? & [= -> _] & _).
  - intros i1 _. apply NoDup_fmap_2; [|apply NoDup_seq].
    by intros ?? [= ->].
  - apply NoDup_seq.
Qed.

Lemma shiftBody0_other (e : Z) (p k : nat * nat) (s : list (list Z) * list (list Z)) :
  k ≠ p -> cell k (shiftBody0 e p.1 p.2 s) = cell k s.
Proof.
  destruct p as [i j], k as [i' j'], s as [lo up]. intros Hne.
  unfold cell, shiftBody0. cbn [fst snd].
  by rewrite !mget_mset_ne by congruence.
Qed.

Lemma shiftBody0_same (e : Z) (p : nat * nat) (s : list (list Z) * list (list Z)) :
  cell p (shiftBody0 e p.1 p.2 s) = (U32.shl (cell p s).1 e, U32.shl (cell p s).2 e).
Proof.
  destruct p as [i j], s as [lo up].
  unfold cell, shiftBody0. cbn [fst snd].
  by rewrite !mget_mset_shl.
Qed.

Lemma shiftBoxes0_spec (d : nat) (e : Z) (lo0 up0 : matrix) (i j : nat) :
  i < rows lo0 -> j < d ->
  mget (shiftBoxes0 d e (lo0, up0)).1 i j = U32.shl (mget lo0 i j) e /\
  mget (shiftBoxes0 d e (lo0, up0)).2 i j = U32.shl (mget up0 i j) e.
Proof.
  intros Hi Hj. unfold shiftBoxes0. rewrite for_loop_nested. cbn [fst].
  assert (cell (i, j)
            (fold_left (fun s p => shiftBody0 e p.1 p.2 s)
               (seq 0 (rows lo0) ≫= fun i => pair i <$> seq 0 d) (lo0, up0)) =
          (U32.shl (mget lo0 i j) e, U32.shl (mget up0 i j) e)) as Heq.
  { apply (fold_pointwise_same (fun p : nat * nat => p) cell
             (fun _ x => (U32.shl x.1 e, U32.shl x.2 e))
             (fun p s => shiftBody0 e p.1 p.2 s)
             (fun _ => True) (fun _ => True)); auto.
    - intros t s k _ _ _ Hne. by apply shiftBody0_other.
    - intros t s _ _. apply shiftBody0_same.
    - by apply Forall_true.
    - rewrite list_fmap_id. apply rows_NoDup.
    - by apply cells_elem_of. }
  unfold cell in Heq. cbn [fst snd] in Heq. by injection Heq.
Qed.

(** ** Orientation mapping: what the loop computes *)

Lemma orientBody1_ok (n d : nat) (e : Z) (dm : list nat) (dor : list bool) (upper : vec)
    (p : nat * nat) (s : list (list Z) * list (list Z)) :
  mat_dims n d s.1 /\ mat_dims n d s.2 ->
  mat_dims n d (orientBody1 e dm dor upper p.1 p.2 s).1 /\
  mat_dims n d (orientBody1 e dm dor upper p.1 p.2 s).2.
Proof.
  destruct s as [lo up]. intros [Hlo Hup]. unfold orientBody1.
  destruct (dorient dor p.2); cbn [negb fst snd]; auto using mat_dims_mset.
Qed.

Lemma orientBody1_other (e : Z) (dm : list nat) (dor : list bool) (upper : vec)
    (p k : nat * nat) (s : list (list Z) * list (list Z)) :
  k ≠ (p.1, dmap dm p.2) ->
  cell k (orientBody1 e dm dor upper p.1 p.2 s) = cell k s.
Proof.
  destruct p as [i jj], k as [i' j'], s as [lo up]. intros Hne.
  unfold cell, orientBody1. cbn [fst snd] in *.
  destruct (dorient dor jj); cbn [negb fst snd];
    by rewrite !mget_mset_ne by congruence.
Qed.

Lemma orientBody1_same (n d : nat) (e : Z) (dm : list nat) (dor : list bool) (upper : vec)
    (p : nat * nat) (s : list (list Z) * list (list Z)) :
  mat_dims n d s.1 /\ mat_dims n d s.2 -> p.1 < n -> dmap dm p.2 < d ->
  cell (p.1, dmap dm p.2) (orientBody1 e dm dor upper p.1 p.2 s) =
  orientInterval (dorient dor p.2) (vget upper (dmap dm p.2))
    (U32.shl (cell (p.1, dmap dm p.2) s).1 e, U32.shl (cell (p.1, dmap dm p.2) s).2 e).
Proof.
  destruct p as [i jj], s as [lo up]. cbn [fst snd]. intros [Hlo Hup] Hi Hj.
  unfold cell, orientBody1, orientInterval. cbn [fst snd].
  destruct (dorient dor jj); cbn [negb fst snd].
  - by rewrite !(mget_mset_eq n d).
  - by rewrite !(mget_mset_eq n d) by auto using mat_dims_mset.
Qed.


Lemma orientBoxes1_spec (n d : nat) (e : Z) (dm : list nat) (dor : list bool) (upper : vec)
    (lo1 up1 : matrix) (i jj : nat) :
  is_permutation d dm -> mat_dims n d lo1 -> mat_dims n d up1 ->
  i < n -> jj < d ->
  cell (i, dmap dm jj) (orientBoxes1 d e dm dor upper (lo1, up1)) =
  orientInterval (dorient dor jj) (vget upper (dmap dm jj))
    (U32.shl (mget lo1 i (dmap dm jj)) e, U32.shl (mget up1 i (dmap dm jj)) e).
Proof.
  intros Hp Hlo Hup Hi Hjj. unfold orientBoxes1. rewrite for_loop_nested. cbn [fst].
  assert (rows lo1 = n) as -> by apply Hlo.
  apply (fold_pointwise_same (fun p : nat * nat => (p.1, dmap dm p.2)) cell
           (fun p x => orientInterval (dorient dor p.2) (vget upper (dmap dm p.2))
                         (U32.shl x.1 e, U32.shl x.2 e))
           (fun p s => orientBody1 e dm dor upper p.1 p.2 s)
           (fun s => mat_dims n d s.1 /\ mat_dims n d s.2)
           (fun k => k.1 < n /\ k.2 < d) ) with (t := (i, jj)).
  - intros t s. apply orientBody1_ok.
  - intros t s k _ _ _ Hne. by apply orientBody1_other.
  - intros t s Hs [Ht1 Ht2]. by apply (orientBody1_same n d).
  - done.
  - apply cells_Forall. intros i' jj' Hi' Hjj'. cbn.
    split; [done|]. by apply (is_permutation_lt d dm jj' Hp).
  - by apply cells_NoDup.
  - by apply cells_elem_of.
Qed.

(** ** The values held by repairInterfaceFindElements *)

Lemma mi_Lu_eq d bi t0 t1 : mi_Lu (mergeInterfaceBoxes d bi t0 t1) = indexLevelUse t0 t1.
Proof.
  unfold mergeInterfaceBoxes.
  destruct (shiftBoxes0 _ _ _), (orientBoxes1 _ _ _ _ _ _), (spanDirections _ _) as [[? ?] ?].
  done.
Qed.

Lemma mi_upperCorn0_eq d bi t0 t1 :
  mi_upperCorn0 (mergeInterfaceBoxes d bi t0 t1) =
  upperCornOnIndexLevel d (indexLevelDiff t0 t1 t0) (upperCorner t0).
Proof.
  unfold mergeInterfaceBoxes.
  destruct (shiftBoxes0 _ _ _), (orientBoxes1 _ _ _ _ _ _), (spanDirections _ _) as [[? ?] ?].
  done.
Qed.

Lemma mi_upperCorn1_eq d bi t0 t1 :
  mi_upperCorn1 (mergeInterfaceBoxes d bi t0 t1) =
  upperCornOnIndexLevel d (indexLevelDiff t0 t1 t1) (upperCorner t1).
Proof.
  unfold mergeInterfaceBoxes.
  destruct (shiftBoxes0 _ _ _), (orientBoxes1 _ _ _ _ _ _), (spanDirections _ _) as [[? ?] ?].
  done.
Qed.

Lemma mi_boxes0_eq d bi t0 t1 :
  mi_boxes0 (mergeInterfaceBoxes d bi t0 t1) =
  shiftBoxes0 d (idxExponent t0 t1 t0)
    (sb_lo (getBoxesOnSide t0 (side_index (first bi))),
     sb_up (getBoxesOnSide t0 (side_index (first bi)))).
Proof.
  unfold mergeInterfaceBoxes.
  destruct (shiftBoxes0 _ _ _), (orientBoxes1 _ _ _ _ _ _), (spanDirections _ _) as [[? ?] ?].
  done.
Qed.

Lemma mi_boxes1_eq d bi t0 t1 :
  mi_boxes1 (mergeInterfaceBoxes d bi t0 t1) =
  orientBoxes1 d (idxExponent t0 t1 t1) (dirMap bi) (dirOrientation bi)
    (upperCornOnIndexLevel d (indexLevelDiff t0 t1 t1) (upperCorner t1))
    (sb_lo (getBoxesOnSide t1 (side_index (second bi))),
     sb_up (getBoxesOnSide t1 (side_index (second bi)))).
Proof.
  unfold mergeInterfaceBoxes.
  destruct (shiftBoxes0 _ _ _), (orientBoxes1 _ _ _ _ _ _), (spanDirections _ _) as [[? ?] ?].
  done.
Qed.

Lemma mi_iU_eq d bi t0 t1 :
  mi_iU (mergeInterfaceBoxes d bi t0 t1) =
  let mi := mergeInterfaceBoxes d bi t0 t1 in
  findOverlaps (mi_boxes0 mi).1 (mi_boxes0 mi).2
    (sb_level (getBoxesOnSide t0 (side_index (first bi))))
    (mi_boxes1 mi).1 (mi_boxes1 mi).2
    (sb_level (getBoxesOnSide t1 (side_index (second bi))))
    (mi_axes0 mi).1.1 (mi_axes0 mi).1.2 (mi_axes1 mi).1.1 (mi_axes1 mi).1.2.
Proof.
  unfold mergeInterfaceBoxes.
  destruct (shiftBoxes0 _ _ _), (orientBoxes1 _ _ _ _ _ _), (spanDirections _ _) as [[? ?] ?].
  done.
Qed.

Lemma indexLevelUse_max (t0 t1 : gsHDomain) :
  indexLevelUse t0 t1 = Z.max (getIndexLevel t0) (getIndexLevel t1).
Proof.
  unfold indexLevelUse.
  destruct (Z.gtb_spec (getIndexLevel t0) (getIndexLevel t1)); lia.
Qed.

Lemma upperCornOnIndexLevel_length (d : nat) (diff : Z) (v : vec) :
  length (upperCornOnIndexLevel d diff v) = length v.
Proof.
  unfold upperCornOnIndexLevel, for_loop.
  apply (fold_pointwise_ok (fun i v => vset v i (U32.shl (vget v i) diff))
           (fun s => length s = length v)); [|done].
  intros t s Hs. by rewrite length_vset.
Qed.

Lemma vec_in_range_vget (v : vec) (i : nat) : vec_in_range v -> U32.in_range (vget v i).
Proof.
  intros Hv. unfold vget. destruct (v !! i) as [x|] eqn:Hx; simpl.
  - by apply (Forall_lookup_1 _ _ _ _ Hv Hx).
  - unfold U32.in_range, U32.modulus. lia.
Qed.

Lemma vec_ext (v w : vec) :
  length v = length w -> (forall i, vget v i = vget w i) -> v = w.
Proof.
  intros Hlen Hget. apply list_eq. intros i.
  specialize (Hget i). unfold vget in Hget.
  destruct (v !! i) as [x|] eqn:Hv, (w !! i) as [y|] eqn:Hw; simpl in *; try congruence.
  - apply lookup_lt_Some in Hv. apply lookup_ge_None in Hw. lia.
  - apply lookup_lt_Some in Hw. apply lookup_ge_None in Hv. lia.
Qed.

Lemma upperCornOnIndexLevel_0 (d : nat) (v : vec) :
  vec_in_range v -> upperCornOnIndexLevel d 0 v = v.
Proof.
  intros Hv. apply vec_ext; [apply upperCornOnIndexLevel_length|].
  intros i. rewrite upperCornOnIndexLevel_spec.
  destruct (decide (i < d)); [|done].
  apply U32Facts.shl_0_r. by apply vec_in_range_vget.
Qed.

Lemma vget_upperCorn2d (v : vec) (diff : Z) (i : nat) :
  i < 2 ->
  vget (vset (vset v 0 (U32.shl (vget v 0) diff)) 1
          (U32.shl (vget (vset v 0 (U32.shl (vget v 0) diff)) 1) diff)) i =
  U32.shl (vget v i) diff.
Proof.
  intros Hi. destruct i as [|[|i]]; [| |lia].
  - rewrite vget_vset_ne by done. apply vget_vset_shl.
  - rewrite vget_vset_shl. by rewrite vget_vset_ne.
Qed.

Lemma upperCorn2d_0 (v : vec) :
  vec_in_range v ->
  vset (vset v 0 (U32.shl (vget v 0) 0)) 1
    (U32.shl (vget (vset v 0 (U32.shl (vget v 0) 0)) 1) 0) = v.
Proof.
  intros Hv. apply vec_ext; [by rewrite !length_vset|].
  intros i. destruct (decide (i < 2)) as [Hi|Hi].
  - rewrite vget_upperCorn2d by done.
    apply U32Facts.shl_0_r. by apply vec_in_range_vget.
  - by rewrite !vget_vset_ne by lia.
Qed.

Lemma interfaceTable_lookup (sb : sideBoxes) (dir : nat) (e : Z) (i : nat) :
  i < rows (sb_lo sb) ->
  interfaceTable sb dir e !! i =
  Some [ U32.shl (mget (sb_lo sb) i dir) e; U32.shl (mget (sb_up sb) i dir) e;
         vget (sb_level sb) i ].
Proof.
  intros Hi. unfold interfaceTable.
  by rewrite list_lookup_fmap, lookup_seq_lt.
Qed.

(** C7. The reference level is the larger of the two index levels; the upper
    corner of tree [i] is shifted left by [Lu - Li], which changes nothing
    when [Lu = Li]; every coordinate of a boundary box of tree [i] is shifted
    left by [Lu - Mi], [Mi] the maximal insertion level (on the second side
    the shifted interval is then mapped by the orientation).  Both
    [repairInterfaceFindElements] and [repairInterface2d] do so. *)
Theorem level_normalisation (d n1 : nat) (bi : boundaryInterface) (t0 t1 : gsHDomain) :
  let sb0 := getBoxesOnSide t0 (side_index (first bi)) in
  let sb1 := getBoxesOnSide t1 (side_index (second bi)) in
  let mi := mergeInterfaceBoxes d bi t0 t1 in
  let it := interfaceTables2d bi t0 t1 in
  let Lu := Z.max (getIndexLevel t0) (getIndexLevel t1) in
  let e0 := U32.sub Lu (getMaxInsLevel t0) in
  let e1 := U32.sub Lu (getMaxInsLevel t1) in
  is_permutation d (dirMap bi) ->
  mat_dims n1 d (sb_lo sb1) -> mat_dims n1 d (sb_up sb1) ->
  vec_in_range (upperCorner t0) -> vec_in_range (upperCorner t1) ->
  (mi_Lu mi = Lu /\ it_Lu it = Lu) /\
  (forall i, i < d ->
     vget (mi_upperCorn0 mi) i =
       U32.shl (vget (upperCorner t0) i) (U32.sub Lu (getIndexLevel t0)) /\
     vget (mi_upperCorn1 mi) i =
       U32.shl (vget (upperCorner t1) i) (U32.sub Lu (getIndexLevel t1))) /\
  (forall i, i < 2 ->
     vget (it_upperCorn0 it) i =
       U32.shl (vget (upperCorner t0) i) (U32.sub Lu (getIndexLevel t0)) /\
     vget (it_upperCorn1 it) i =
       U32.shl (vget (upperCorner t1) i) (U32.sub Lu (getIndexLevel t1))) /\
  (Lu = getIndexLevel t0 ->
     mi_upperCorn0 mi = upperCorner t0 /\ it_upperCorn0 it = upperCorner t0) /\
  (Lu = getIndexLevel t1 ->
     mi_upperCorn1 mi = upperCorner t1 /\ it_upperCorn1 it = upperCorner t1) /\
  (forall i j, i < rows (sb_lo sb0) -> j < d ->
     cell (i, j) (mi_boxes0 mi) =
       (U32.shl (mget (sb_lo sb0) i j) e0, U32.shl (mget (sb_up sb0) i j) e0)) /\
  (forall i jj, i < n1 -> jj < d ->
     let j := dmap (dirMap bi) jj in
     cell (i, j) (mi_boxes1 mi) =
       orientInterval (dorient (dirOrientation bi) jj) (vget (mi_upperCorn1 mi) j)
         (U32.shl (mget (sb_lo sb1) i j) e1, U32.shl (mget (sb_up sb1) i j) e1)) /\
  (it_intfc0 it =
     sortByColumn 0
       (interfaceTable sb0 ((direction (first bi) + 1) mod 2) e0) /\
   it_intfc1 it =
     sortByColumn 0
       (let intfc1 := interfaceTable sb1 (it_dir1 it) e1 in
        if negb (it_orientPreserv it)
        then flipTable (vget (it_upperCorn1 it) (it_dir1 it)) intfc1 else intfc1)) /\
  (forall sb dir e i, i < rows (sb_lo sb) ->
     interfaceTable sb dir e !! i =
       Some [ U32.shl (mget (sb_lo sb) i dir) e; U32.shl (mget (sb_up sb) i dir) e;
              vget (sb_level sb) i ]).
Proof.
  intros sb0 sb1 mi it Lu e0 e1 Hp Hlo1 Hup1 Hr0 Hr1.
  assert (indexLevelUse t0 t1 = Lu) as HLu by apply indexLevelUse_max.
  subst mi. rewrite mi_Lu_eq, mi_upperCorn0_eq, mi_upperCorn1_eq, mi_boxes0_eq, mi_boxes1_eq.
  unfold indexLevelDiff, idxExponent. rewrite !HLu.
  fold sb0 sb1 e0 e1.
  split; [done|].
  split.
  { intros i Hi. rewrite !upperCornOnIndexLevel_spec.
    by destruct (decide (i < d)). }
  split.
  { intros i Hi. subst it. unfold interfaceTables2d. cbn [it_upperCorn0 it_upperCorn1].
    unfold indexLevelDiff. rewrite !HLu. by rewrite !vget_upperCorn2d. }
  split.
  { intros ->. rewrite U32Facts.sub_diag. split.
    - by apply upperCornOnIndexLevel_0.
    - subst it. unfold interfaceTables2d. cbn [it_upperCorn0].
      unfold indexLevelDiff. rewrite HLu, U32Facts.sub_diag.
      by apply upperCorn2d_0. }
  split.
  { intros ->. rewrite U32Facts.sub_diag. split.
    - by apply upperCornOnIndexLevel_0.
    - subst it. unfold interfaceTables2d. cbn [it_upperCorn1].
      unfold indexLevelDiff. rewrite HLu, U32Facts.sub_diag.
      by apply upperCorn2d_0. }
  split.
  { intros i j Hi Hj. unfold cell. cbn [fst snd].
    destruct (shiftBoxes0_spec d e0 (sb_lo sb0) (sb_up sb0) i j Hi Hj) as [-> ->].
    done. }
  split.
  { intros i jj Hi Hjj. cbv zeta. by apply (orientBoxes1_spec n1 d). }
  split.
  { subst it. unfold interfaceTables2d.
    cbn [it_intfc0 it_intfc1 it_dir1 it_orientPreserv it_upperCorn1].
    unfold idxExponent, indexLevelDiff. rewrite !HLu. done. }
  intros sb dir e i Hi. by apply interfaceTable_lookup.
Qed.

Lemma level_normalisation_witness :
  let bi := Scenario.east_west [true; true] in
  let mi := mergeInterfaceBoxes 2 bi Scenario.fine Scenario.coarse_low in
  is_permutation 2 (dirMap bi) /\
  mi_Lu mi = 3%Z /\
  mi_upperCorn1 mi = [4; 4]%Z /\
  cell (0, 1) (mi_boxes1 mi) = (0, 4)%Z.
Proof.
  intros bi mi.
  assert (is_permutation 2 (dirMap bi)) as Hp by by_evaluation.
  assert (mat_dims 1 2 [[0; 0]]%Z) as Hlo by by_evaluation.
  assert (mat_dims 1 2 [[1; 2]]%Z) as Hup by by_evaluation.
  assert (vec_in_range [4; 4]%Z) as Hr0 by by_evaluation.
  assert (vec_in_range [2; 2]%Z) as Hr1 by by_evaluation.
  pose proof (level_normalisation 2 1 bi Scenario.fine Scenario.coarse_low
                Hp Hlo Hup Hr0 Hr1) as ((HLu & _) & _ & _ & _ & _ & _ & Hb1 & _).
  split; [exact Hp|]. split; [exact HLu|]. split; [reflexivity|].
  exact (Hb1 0 1 ltac:(lia) ltac:(lia)).
Defined.

(** ** The merged interface mesh of the general path *)

Lemma fold_left_append {A T : Type} (f : T -> list A) (body : T -> list A -> list A)
    (l : list T) (acc : list A) :
  (forall t acc, body t acc = acc ++ f t) ->
  fold_left (fun acc t => body t acc) l acc = acc ++ (l ≫= f).
Proof.
  intros Hbody. revert acc. induction l as [|t l IH]; intros acc; cbn.
  - by rewrite app_nil_r.
  - rewrite IH, Hbody. by rewrite <- app_assoc.
Qed.

Lemma overlapBody_append lo0 up0 level0 lo1 up1 level1 a0 b0 a1 b1 i0 i1 iU :
  overlapBody lo0 up0 level0 lo1 up1 level1 a0 b0 a1 b1 i0 i1 iU =
  iU ++ (if decide (pairOverlaps lo0 up0 lo1 up1 a0 b0 a1 b1 i0 i1)
         then [pairSegment lo0 up0 level0 lo1 up1 level1 a0 b0 a1 b1 i0 i1] else []).
Proof.
  unfold overlapBody, pairOverlaps, strictOverlap, pairSegment.
  destruct (Z.ltb_spec (mget lo0 i0 a0) (mget up1 i1 a1)),
           (Z.ltb_spec (mget lo0 i0 b0) (mget up1 i1 b1)),
           (Z.ltb_spec (mget lo1 i1 a1) (mget up0 i0 a0)),
           (Z.ltb_spec (mget lo1 i1 b1) (mget up0 i0 b0));
    cbn [andb]; case_decide; try done; try (by rewrite app_nil_r); lia.
Qed.

Lemma findOverlaps_eq lo0 up0 level0 lo1 up1 level1 a0 b0 a1 b1 :
  findOverlaps lo0 up0 level0 lo1 up1 level1 a0 b0 a1 b1 =
  seq 0 (rows lo0) ≫= fun i0 =>
  seq 0 (rows lo1) ≫= fun i1 =>
    if decide (pairOverlaps lo0 up0 lo1 up1 a0 b0 a1 b1 i0 i1)
    then [pairSegment lo0 up0 level0 lo1 up1 level1 a0 b0 a1 b1 i0 i1] else [].
Proof.
  unfold findOverlaps, for_loop.
  rewrite (fold_left_append
    (fun i0 => seq 0 (rows lo1) ≫= fun i1 =>
       if decide (pairOverlaps lo0 up0 lo1 up1 a0 b0 a1 b1 i0 i1)
       then [pairSegment lo0 up0 level0 lo1 up1 level1 a0 b0 a1 b1 i0 i1] else [])); [done|].
  intros i0 acc.
  apply (fold_left_append
    (fun i1 =>
       if decide (pairOverlaps lo0 up0 lo1 up1 a0 b0 a1 b1 i0 i1)
       then [pairSegment lo0 up0 level0 lo1 up1 level1 a0 b0 a1 b1 i0 i1] else [])
    (fun i1 iU => overlapBody lo0 up0 level0 lo1 up1 level1 a0 b0 a1 b1 i0 i1 iU)).
  intros i1 iU. apply overlapBody_append.
Qed.

(** C2. In the general path the merged mesh is, pair by pair in the order of
    the two loops, one segment for a pair of boxes that overlap with strict
    inequalities on both axes spanning the interface, and nothing for any
    other pair; the segment is the intersection [max lo .. min up] on each
    axis with both levels.  A pair that only touches on an axis gives no
    segment.  The boxes compared are those of the two sides after the change
    of level and the orientation mapping. *)
Theorem general_overlap_merge (lo0 up0 : matrix) (level0 : vec) (lo1 up1 : matrix)
    (level1 : vec) (a0 b0 a1 b1 : nat) :
  let iU := findOverlaps lo0 up0 level0 lo1 up1 level1 a0 b0 a1 b1 in
  let overlaps := pairOverlaps lo0 up0 lo1 up1 a0 b0 a1 b1 in
  let segment := pairSegment lo0 up0 level0 lo1 up1 level1 a0 b0 a1 b1 in
  iU = (seq 0 (rows lo0) ≫= fun i0 =>
        seq 0 (rows lo1) ≫= fun i1 =>
          if decide (overlaps i0 i1) then [segment i0 i1] else []) /\
  (forall seg, seg ∈ iU <->
     exists i0 i1, i0 < rows lo0 /\ i1 < rows lo1 /\
       (mget lo0 i0 a0 < mget up1 i1 a1 /\ mget lo1 i1 a1 < mget up0 i0 a0)%Z /\
       (mget lo0 i0 b0 < mget up1 i1 b1 /\ mget lo1 i1 b1 < mget up0 i0 b0)%Z /\
       seg = [ Z.max (mget lo0 i0 a0) (mget lo1 i1 a1);
               Z.max (mget lo0 i0 b0) (mget lo1 i1 b1);
               Z.min (mget up0 i0 a0) (mget up1 i1 a1);
               Z.min (mget up0 i0 b0) (mget up1 i1 b1);
               vget level0 i0; vget level1 i1 ]) /\
  (forall i0 i1,
     (mget up0 i0 a0 = mget lo1 i1 a1 \/ mget up1 i1 a1 = mget lo0 i0 a0 \/
      mget up0 i0 b0 = mget lo1 i1 b1 \/ mget up1 i1 b1 = mget lo0 i0 b0) ->
     (if decide (overlaps i0 i1) then [segment i0 i1] else []) = []) /\
  (forall d bi t0 t1,
     let mi := mergeInterfaceBoxes d bi t0 t1 in
     mi_iU mi =
       findOverlaps (mi_boxes0 mi).1 (mi_boxes0 mi).2
         (sb_level (getBoxesOnSide t0 (side_index (first bi))))
         (mi_boxes1 mi).1 (mi_boxes1 mi).2
         (sb_level (getBoxesOnSide t1 (side_index (second bi))))
         (mi_axes0 mi).1.1 (mi_axes0 mi).1.2 (mi_axes1 mi).1.1 (mi_axes1 mi).1.2).
Proof.
  intros iU overlaps segment. subst iU. rewrite findOverlaps_eq. fold overlaps segment.
  split; [done|]. split; [|split; [|intros; apply mi_iU_eq]].
  - intros seg. rewrite list_elem_of_bind. split.
    + intros (i0 & Hin & Hi0%elem_of_seq).
      apply list_elem_of_bind in Hin as (i1 & Hin & Hi1%elem_of_seq).
      case_decide as Hov; [|by apply elem_of_nil in Hin].
      apply list_elem_of_singleton in Hin as ->.
      destruct Hov as [[? ?] [? ?]].
      exists i0, i1. repeat split; [lia|lia|done..].
    + intros (i0 & i1 & Hi0 & Hi1 & [? ?] & [? ?] & ->).
      exists i0. split; [|apply elem_of_seq; lia].
      apply list_elem_of_bind. exists i1. split; [|apply elem_of_seq; lia].
      rewrite decide_True by (by repeat split).
      by apply list_elem_of_singleton.
  - intros i0 i1 Htouch. apply decide_False.
    intros [[? ?] [? ?]]. lia.
Qed.

(** Scenario C of the specification. *)
Example scenario_C_overlap :
  findOverlaps (sb_lo Scenario.boxA) (sb_up Scenario.boxA) (sb_level Scenario.boxA)
    (sb_lo Scenario.boxB) (sb_up Scenario.boxB) (sb_level Scenario.boxB) 1 2 1 2
  = [[1; 1; 2; 2; 1; 2]%Z] /\
  findOverlaps (sb_lo Scenario.boxA) (sb_up Scenario.boxA) (sb_level Scenario.boxA)
    (sb_lo Scenario.boxB_touching) (sb_up Scenario.boxB_touching)
    (sb_level Scenario.boxB_touching) 1 2 1 2
  = [].
Proof. split; reflexivity. Qed.

(** ** The sorted merge of repairInterface2d *)

Lemma insertRow_Permutation (j : nat) (r : list Z) (m : matrix) :
  insertRow j r m ≡ₚ r :: m.
Proof.
  induction m as [|r' m IH]; cbn; [done|].
  destruct (vget r j <=? vget r' j)%Z; [done|].
  rewrite IH. apply Permutation_swap.
Qed.

Lemma insertRow_Sorted (j : nat) (r : list Z) (m : matrix) :
  Sorted (colLe j) m -> Sorted (colLe j) (insertRow j r m).
Proof.
  induction m as [|r' m IH]; intros Hs; cbn.
  - by repeat constructor.
  - destruct (Z.leb_spec (vget r j) (vget r' j)) as [Hle|Hgt].
    + constructor; [done|]. by constructor.
    + apply Sorted_inv in Hs as [Hs Hhd].
      constructor; [by apply IH|].
      destruct m as [|r'' m]; cbn.
      * constructor. unfold colLe. lia.
      * apply HdRel_inv in Hhd.
        destruct (vget r j <=? vget r'' j)%Z; constructor; [unfold colLe; lia|done].
Qed.

Lemma sortByColumn_Permutation (j : nat) (m : matrix) : sortByColumn j m ≡ₚ m.
Proof.
  unfold sortByColumn. induction m as [|r m IH]; cbn; [done|].
  by rewrite insertRow_Permutation, IH.
Qed.

Lemma sortByColumn_Sorted (j : nat) (m : matrix) : Sorted (colLe j) (sortByColumn j m).
Proof.
  unfold sortByColumn. induction m as [|r m IH]; cbn; [constructor|].
  by apply insertRow_Sorted.
Qed.

Lemma mergeStep_spec (intfc0 intfc1 : matrix) (i0 i1 : nat) (intfcU : list (list Z)) :
  let end0 := mget intfc0 i0 1 in
  let end1 := mget intfc1 i1 1 in
  mergeStep intfc0 intfc1 (i0, i1, intfcU) =
  (if (end0 <=? end1)%Z then S i0 else i0,
   if (end1 <=? end0)%Z then S i1 else i1,
   intfcU ++ [[Z.min end0 end1; mget intfc0 i0 2; mget intfc1 i1 2]]).
Proof.
  intros end0 end1. unfold mergeStep. fold end0 end1.
  destruct (Z.eqb_spec end0 end1) as [Heq|Hne].
  - rewrite Heq, Z.leb_refl, Z.min_id. done.
  - destruct (Z.gtb_spec end0 end1) as [Hgt|Hle].
    + rewrite (proj2 (Z.leb_gt _ _)) by lia.
      rewrite (proj2 (Z.leb_le _ _)) by lia.
      by rewrite Z.min_r by lia.
    + rewrite (proj2 (Z.leb_le end0 end1)) by lia.
      rewrite (proj2 (Z.leb_gt end1 end0)) by lia.
      by rewrite Z.min_l by lia.
Qed.

Lemma mergeStep_measure (intfc0 intfc1 : matrix) (st : mergeState) :
  mergeGuard intfc0 intfc1 st = true ->
  mergeMeasure intfc0 intfc1 (mergeStep intfc0 intfc1 st) < mergeMeasure intfc0 intfc1 st.
Proof.
  destruct st as [[i0 i1] intfcU]. unfold mergeGuard.
  intros [H0%Nat.ltb_lt H1%Nat.ltb_lt]%andb_true_iff.
  rewrite mergeStep_spec. unfold mergeMeasure.
  destruct (Z.leb_spec (mget intfc0 i0 1) (mget intfc1 i1 1)),
           (Z.leb_spec (mget intfc1 i1 1) (mget intfc0 i0 1)); lia.
Qed.

Lemma mergeGuard_measure_0 (intfc0 intfc1 : matrix) (st : mergeState) :
  mergeMeasure intfc0 intfc1 st = 0 -> mergeGuard intfc0 intfc1 st = false.
Proof.
  destruct st as [[i0 i1] intfcU]. unfold mergeMeasure, mergeGuard. intros Hm.
  apply andb_false_iff. left. apply Nat.ltb_ge. lia.
Qed.

(** With enough fuel the loop ends because its guard fails. *)
Lemma mergeLoop_exits (fuel : nat) (intfc0 intfc1 : matrix) (st : mergeState) :
  mergeMeasure intfc0 intfc1 st <= fuel ->
  mergeGuard intfc0 intfc1 (mergeLoop fuel intfc0 intfc1 st) = false.
Proof.
  revert st. induction fuel as [|fuel IH]; intros st Hm; cbn.
  - apply mergeGuard_measure_0. lia.
  - destruct (mergeGuard intfc0 intfc1 st) eqn:Hg; [|done].
    apply IH. pose proof (mergeStep_measure intfc0 intfc1 st Hg). lia.
Qed.

(** More fuel than needed changes nothing. *)
Lemma mergeLoop_fuel (fuel fuel' : nat) (intfc0 intfc1 : matrix) (st : mergeState) :
  mergeMeasure intfc0 intfc1 st <= fuel -> fuel <= fuel' ->
  mergeLoop fuel' intfc0 intfc1 st = mergeLoop fuel intfc0 intfc1 st.
Proof.
  revert fuel' st. induction fuel as [|fuel IH]; intros fuel' st Hm Hle.
  - cbn. destruct fuel'; [done|]. cbn.
    by rewrite mergeGuard_measure_0 by lia.
  - destruct fuel' as [|fuel']; [lia|]. cbn.
    destruct (mergeGuard intfc0 intfc1 st) eqn:Hg; [|done].
    apply IH; [|lia]. pose proof (mergeStep_measure intfc0 intfc1 st Hg). lia.
Qed.

Lemma mergeGuard_spec (intfc0 intfc1 : matrix) (i0 i1 : nat) (intfcU : list (list Z)) :
  mergeGuard intfc0 intfc1 (i0, i1, intfcU) = true <->
  i0 < rows intfc0 /\ i1 < rows intfc1.
Proof. unfold mergeGuard. rewrite andb_true_iff, !Nat.ltb_lt. done. Qed.

(** The loop is its body iterated: [n] turns with the guard true before each
    of them, and the guard false after the last. *)
Lemma mergeLoop_iter (fuel : nat) (intfc0 intfc1 : matrix) (st : mergeState) :
  mergeMeasure intfc0 intfc1 st <= fuel ->
  exists n,
    mergeLoop fuel intfc0 intfc1 st = Nat.iter n (mergeStep intfc0 intfc1) st /\
    (forall k, k < n ->
       mergeGuard intfc0 intfc1 (Nat.iter k (mergeStep intfc0 intfc1) st) = true) /\
    mergeGuard intfc0 intfc1 (Nat.iter n (mergeStep intfc0 intfc1) st) = false.
Proof.
  revert st. induction fuel as [|fuel IH]; intros st Hm.
  - exists 0. cbn. split; [done|]. split; [lia|]. apply mergeGuard_measure_0. lia.
  - cbn [mergeLoop]. destruct (mergeGuard intfc0 intfc1 st) eqn:Hg.
    + destruct (IH (mergeStep intfc0 intfc1 st)) as (n & Hrun & Hturns & Hexit).
      { pose proof (mergeStep_measure intfc0 intfc1 st Hg). lia. }
      exists (S n). rewrite Nat.iter_succ_r. split; [done|]. split; [|done].
      intros [|k] Hk; [done|]. rewrite Nat.iter_succ_r. apply Hturns. lia.
    + exists 0. cbn. split; [done|]. split; [lia|done].
Qed.

(** Every turn emits one segment: that of the rows under the two cursors. *)
Lemma mergeIter_segments (intfc0 intfc1 : matrix) (m k : nat) :
  k < m ->
  let st := Nat.iter k (mergeStep intfc0 intfc1) (0, 0, []) in
  length (Nat.iter m (mergeStep intfc0 intfc1) (0, 0, [])).2 = m /\
  (Nat.iter m (mergeStep intfc0 intfc1) (0, 0, [])).2 !! k =
    Some [Z.min (mget intfc0 st.1.1 1) (mget intfc1 st.1.2 1);
          mget intfc0 st.1.1 2; mget intfc1 st.1.2 2].
Proof.
  assert (forall m, length (Nat.iter m (mergeStep intfc0 intfc1) (0, 0, [])).2 = m) as Hlen.
  { clear. intros m. induction m as [|m IH]; [done|]. rewrite Nat.iter_succ.
    destruct (Nat.iter m (mergeStep intfc0 intfc1) (0, 0, [])) as [[i0 i1] U] eqn:Hst.
    rewrite mergeStep_spec. cbn [snd] in *. rewrite length_app. cbn. lia. }
  intros Hk st. split; [apply Hlen|]. subst st.
  induction m as [|m IH]; [lia|]. rewrite Nat.iter_succ.
  pose proof (Hlen m) as Hm.
  destruct (Nat.iter m (mergeStep intfc0 intfc1) (0, 0, [])) as [[i0 i1] U] eqn:Hst.
  rewrite mergeStep_spec. cbn [snd] in *.
  destruct (decide (k = m)) as [->|Hne].
  - rewrite Hst. cbn [fst snd]. rewrite <- Hm at 1. by rewrite list_lookup_middle.
  - rewrite lookup_app_l by lia. apply IH. lia.
Qed.

(** The cursors stay in step with the number of turns taken. *)
Lemma mergeIter_cursors (intfc0 intfc1 : matrix) (k : nat) :
  (forall j, j < k ->
     mergeGuard intfc0 intfc1 (Nat.iter j (mergeStep intfc0 intfc1) (0, 0, [])) = true) ->
  let st := Nat.iter k (mergeStep intfc0 intfc1) (0, 0, []) in
  st.1.1 <= rows intfc0 /\ st.1.2 <= rows intfc1 /\
  st.1.1 <= k /\ st.1.2 <= k /\ k <= st.1.1 + st.1.2.
Proof.
  induction k as [|k IH]; intros Hturns; [cbn; lia|].
  cbv zeta in *. rewrite Nat.iter_succ.
  specialize (IH ltac:(intros j Hj; apply Hturns; lia)).
  pose proof (Hturns k ltac:(lia)) as Hg.
  destruct (Nat.iter k (mergeStep intfc0 intfc1) (0, 0, [])) as [[i0 i1] U].
  apply mergeGuard_spec in Hg. rewrite mergeStep_spec. cbn [fst snd] in *.
  destruct (Z.leb_spec (mget intfc0 i0 1) (mget intfc1 i1 1)),
           (Z.leb_spec (mget intfc1 i1 1) (mget intfc0 i0 1)); lia.
Qed.

(** C3. Both tables are sorted by their start coordinate.  The merging loop
    goes on exactly while both cursors are inside their tables; a turn emits
    one segment that ends at the smaller of the two current end coordinates
    and carries both current levels, and advances the cursor of the side
    whose current row ends there, both cursors on a tie.  The run from the
    cursors (0, 0) and no segment is such turns, [n] of them, one after the
    other: the guard holds before each, fails after the last, one segment is
    emitted per turn (the one of the rows then under the cursors), and [n]
    lies between the smaller number of rows and the sum of both. *)
Theorem sorted_merge_walk (bi : boundaryInterface) (t0 t1 : gsHDomain) :
  let intfc0 := it_intfc0 (interfaceTables2d bi t0 t1) in
  let intfc1 := it_intfc1 (interfaceTables2d bi t0 t1) in
  let turn k := Nat.iter k (mergeStep intfc0 intfc1) (0, 0, []) in
  (Sorted (colLe 0) intfc0 /\ Sorted (colLe 0) intfc1) /\
  (forall i0 i1 intfcU,
     mergeGuard intfc0 intfc1 (i0, i1, intfcU) = true <->
     i0 < rows intfc0 /\ i1 < rows intfc1) /\
  (forall i0 i1 intfcU,
     let end0 := mget intfc0 i0 1 in
     let end1 := mget intfc1 i1 1 in
     mergeStep intfc0 intfc1 (i0, i1, intfcU) =
     (if (end0 <=? end1)%Z then S i0 else i0,
      if (end1 <=? end0)%Z then S i1 else i1,
      intfcU ++ [[Z.min end0 end1; mget intfc0 i0 2; mget intfc1 i1 2]])) /\
  (forall fuel st,
     mergeLoop (S fuel) intfc0 intfc1 st =
     if mergeGuard intfc0 intfc1 st
     then mergeLoop fuel intfc0 intfc1 (mergeStep intfc0 intfc1 st) else st) /\
  (exists n,
     mergeInterfaces intfc0 intfc1 = turn n /\
     (forall k, k < n -> (turn k).1.1 < rows intfc0 /\ (turn k).1.2 < rows intfc1) /\
     ((turn n).1.1 = rows intfc0 \/ (turn n).1.2 = rows intfc1) /\
     (turn n).1.1 <= rows intfc0 /\ (turn n).1.2 <= rows intfc1 /\
     length (mergeInterfaces intfc0 intfc1).2 = n /\
     Nat.min (rows intfc0) (rows intfc1) <= n <= rows intfc0 + rows intfc1 /\
     (forall k, k < n ->
        (mergeInterfaces intfc0 intfc1).2 !! k =
          Some [Z.min (mget intfc0 (turn k).1.1 1) (mget intfc1 (turn k).1.2 1);
                mget intfc0 (turn k).1.1 2; mget intfc1 (turn k).1.2 2])) /\
  mergeGuard intfc0 intfc1 (mergeInterfaces intfc0 intfc1) = false /\
  (forall fuel, rows intfc0 + rows intfc1 <= fuel ->
     mergeLoop fuel intfc0 intfc1 (0, 0, []) = mergeInterfaces intfc0 intfc1).
Proof.
  intros intfc0 intfc1 turn.
  split.
  { subst intfc0 intfc1. unfold interfaceTables2d. cbn [it_intfc0 it_intfc1].
    split; apply sortByColumn_Sorted. }
  split; [intros; apply mergeGuard_spec|].
  split; [intros; apply mergeStep_spec|].
  split; [done|].
  split; [|split].
  - destruct (mergeLoop_iter (rows intfc0 + rows intfc1) intfc0 intfc1 (0, 0, []))
      as (n & Hrun & Hturns & Hexit); [cbn; lia|].
    fold (mergeInterfaces intfc0 intfc1) in Hrun. fold (turn n) in Hrun, Hexit.
    pose proof (mergeIter_cursors intfc0 intfc1 n Hturns) as Hcur.
    cbv zeta in Hcur. fold (turn n) in Hcur.
    assert ((turn n).1.1 = rows intfc0 \/ (turn n).1.2 = rows intfc1) as Hend.
    { destruct (turn n) as [[i0 i1] U]. cbn [fst snd] in *.
      unfold mergeGuard in Hexit. apply andb_false_iff in Hexit.
      rewrite !Nat.ltb_ge in Hexit. lia. }
    exists n. split; [done|]. split.
    { intros k Hk. specialize (Hturns k Hk). fold (turn k) in Hturns.
      destruct (turn k) as [[i0 i1] U]. by apply mergeGuard_spec in Hturns. }
    split; [done|]. split; [lia|]. split; [lia|].
    rewrite Hrun. split.
    { destruct n as [|n]; [done|].
      by destruct (mergeIter_segments intfc0 intfc1 (S n) 0 ltac:(lia)). }
    split; [lia|].
    intros k Hk. by destruct (mergeIter_segments intfc0 intfc1 n k Hk).
  - unfold mergeInterfaces. apply mergeLoop_exits. cbn. lia.
  - intros fuel Hfuel. unfold mergeInterfaces. apply mergeLoop_fuel; [cbn; lia|done].
Qed.

(** Scenario A of the specification: the merged segments end at 2 and at 4,
    both with the levels (2, 3). *)
Example scenario_A_merge :
  let it := interfaceTables2d (Scenario.east_west [true; true]) Scenario.coarse Scenario.fine in
  mergeInterfaces (it_intfc0 it) (it_intfc1 it) = (1, 2, [[2; 2; 3]; [4; 2; 3]]%Z).
Proof. reflexivity. Qed.

(** ** The flip of a refinement box of the second patch *)

Lemma unorientBody_length d dm dor upper shift c jj (v : vec) :
  length (unorientBody d dm dor upper shift c jj v) = length v.
Proof.
  unfold unorientBody.
  destruct (negb (dmap dm jj =? c) && negb (dorient dor jj)); [|done].
  by rewrite !length_vset.
Qed.

Lemma unorientBody_level d dm dor upper shift c jj (v : vec) :
  vget (unorientBody d dm dor upper shift c jj v) 0 = vget v 0.
Proof.
  unfold unorientBody.
  destruct (negb (dmap dm jj =? c) && negb (dorient dor jj)); [|done].
  by rewrite !vget_vset_ne by lia.
Qed.

Lemma unorientBody_other d dm dor upper shift c jj k (v : vec) :
  k < d -> dmap dm jj < d -> k ≠ dmap dm jj ->
  boxAxis d k (unorientBody d dm dor upper shift c jj v) = boxAxis d k v.
Proof.
  intros Hk Hj Hne. unfold boxAxis, unorientBody.
  destruct (negb (dmap dm jj =? c) && negb (dorient dor jj)); [|done].
  by rewrite !vget_vset_ne by lia.
Qed.

Lemma unorientBody_same d dm dor upper shift c jj (v : vec) :
  length v = 1 + 2 * d -> dmap dm jj < d ->
  boxAxis d (dmap dm jj) (unorientBody d dm dor upper shift c jj v) =
  orientInterval ((dmap dm jj =? c) || dorient dor jj)
    (U32.shr (vget upper (dmap dm jj)) shift) (boxAxis d (dmap dm jj) v).
Proof.
  intros Hlen Hj. unfold boxAxis, unorientBody, orientInterval.
  destruct (dmap dm jj =? c), (dorient dor jj); cbn [negb andb orb fst snd]; try done.
  rewrite vget_vset_eq by (rewrite length_vset; lia).
  rewrite vget_vset_ne by lia.
  by rewrite vget_vset_eq by lia.
Qed.

Lemma unorientBox_length d dm dor upper shift c (v : vec) :
  length (unorientBox d dm dor upper shift c v) = length v.
Proof.
  unfold unorientBox, for_loop.
  apply (fold_pointwise_ok (fun jj v => unorientBody d dm dor upper shift c jj v)
           (fun s => length s = length v)); [|done].
  intros t s Hs. by rewrite unorientBody_length.
Qed.

Lemma unorientBox_level d dm dor upper shift c (v : vec) :
  vget (unorientBox d dm dor upper shift c v) 0 = vget v 0.
Proof.
  unfold unorientBox, for_loop.
  apply (fold_pointwise_ok (fun jj v => unorientBody d dm dor upper shift c jj v)
           (fun s => vget s 0 = vget v 0)); [|done].
  intros t s Hs. by rewrite unorientBody_level.
Qed.

Lemma unorientBox_spec d dm dor upper shift c (v : vec) (jj : nat) :
  is_permutation d dm -> length v = 1 + 2 * d -> jj < d ->
  boxAxis d (dmap dm jj) (unorientBox d dm dor upper shift c v) =
  orientInterval ((dmap dm jj =? c) || dorient dor jj)
    (U32.shr (vget upper (dmap dm jj)) shift) (boxAxis d (dmap dm jj) v).
Proof.
  intros Hp Hlen Hjj. unfold unorientBox, for_loop.
  apply (fold_pointwise_same (dmap dm) (boxAxis d)
           (fun jj x => orientInterval ((dmap dm jj =? c) || dorient dor jj)
                          (U32.shr (vget upper (dmap dm jj)) shift) x)
           (fun jj v => unorientBody d dm dor upper shift c jj v)
           (fun s => length s = 1 + 2 * d) (fun k => k < d)).
  - intros t s Hs. by rewrite unorientBody_length.
  - intros t s k _ Hk Ht Hne. by apply unorientBody_other.
  - intros t s Hs Ht. by apply unorientBody_same.
  - done.
  - apply Forall_seq. intros j' Hj'. apply (is_permutation_lt d dm j' Hp). lia.
  - apply NoDup_fmap_2_strong; [|apply NoDup_seq].
    intros x y Hx%elem_of_seq Hy%elem_of_seq. apply (is_permutation_inj d dm); auto; lia.
  - apply elem_of_seq. lia.
Qed.

(** Every direction is the image of one direction under a permutation. *)
Lemma is_permutation_surj (d : nat) (dm : list nat) (j : nat) :
  is_permutation d dm -> j < d -> exists jj, jj < d /\ dmap dm jj = j.
Proof.
  intros (Hlen & Hnd & Hall) Hj.
  assert (dm ≡ₚ seq 0 d) as Hperm.
  { apply submseteq_length_Permutation; [|rewrite length_seq; lia].
    apply NoDup_submseteq; [done|].
    intros x Hx. apply elem_of_seq.
    eapply (Forall_forall _ dm) in Hall; [|done]. lia. }
  assert (j ∈ dm) as Hin by (rewrite Hperm; apply elem_of_seq; lia).
  apply list_elem_of_lookup in Hin as [jj Hjj].
  exists jj. split.
  - apply lookup_lt_Some in Hjj. lia.
  - by apply dmap_lookup.
Qed.

(** ** The refinement boxes of the general path *)

Lemma map_vget_seq (v : vec) : map (vget v) (seq 0 (length v)) = v.
Proof.
  induction v as [|x v IH]; [done|].
  cbn [length seq map]. f_equal.
  rewrite <- seq_shift, map_map.
  rewrite <- IH at 2. by apply map_ext.
Qed.

Lemma pushAll_spec (n : nat) (tmpvec : vec) (ref : list Z) :
  n = length tmpvec -> pushAll n tmpvec ref = ref ++ tmpvec.
Proof.
  intros ->. unfold pushAll, for_loop.
  rewrite (fold_left_append (fun j => [vget tmpvec j])) by done.
  f_equal. rewrite <- (map_vget_seq tmpvec) at 2.
  generalize (seq 0 (length tmpvec)). intros l.
  induction l as [|j l IH]; [done|]. cbn. by rewrite <- IH.
Qed.

Lemma is_permutation_2 (dm : list nat) :
  is_permutation 2 dm -> dm = [0; 1] \/ dm = [1; 0].
Proof.
  intros (Hlen & Hnd & Hall).
  destruct dm as [|x [|y [|? ?]]]; try done.
  apply Forall_cons in Hall as [Hx Hall]. apply Forall_cons in Hall as [Hy _].
  apply NoDup_cons in Hnd as [Hxy _]. rewrite list_elem_of_singleton in Hxy.
  destruct x as [|[|x]], y as [|[|y]]; try lia; auto; done.
Qed.

Lemma is_permutation_3 (dm : list nat) :
  is_permutation 3 dm ->
  dm = [0; 1; 2] \/ dm = [0; 2; 1] \/ dm = [1; 0; 2] \/
  dm = [1; 2; 0] \/ dm = [2; 0; 1] \/ dm = [2; 1; 0].
Proof.
  intros (Hlen & Hnd & Hall).
  destruct dm as [|x [|y [|z [|? ?]]]]; try done.
  apply Forall_cons in Hall as [Hx Hall]. apply Forall_cons in Hall as [Hy Hall].
  apply Forall_cons in Hall as [Hz _].
  apply NoDup_cons in Hnd as [Hx' Hnd]. apply NoDup_cons in Hnd as [Hy' _].
  rewrite !elem_of_cons, elem_of_nil in Hx'. rewrite list_elem_of_singleton in Hy'.
  destruct x as [|[|[|x]]], y as [|[|[|y]]], z as [|[|[|z]]]; try lia;
    try (exfalso; apply Hx'; auto; fail); try (exfalso; apply Hy'; auto; fail);
    auto 10.
Qed.

Lemma refinementBox_length d level extent :
  length (refinementBox d level extent) = 1 + 2 * d.
Proof. unfold refinementBox. cbn. rewrite length_app, !length_map, !length_seq. lia. Qed.

Lemma refinementBox_axis d level extent j :
  j < d -> boxAxis d j (refinementBox d level extent) = extent j.
Proof.
  intros Hj. unfold boxAxis, refinementBox, vget. cbn [Nat.add]. rewrite !lookup_cons.
  rewrite lookup_app_l by (rewrite length_map, length_seq; lia).
  rewrite lookup_app_r by (rewrite length_map, length_seq; lia).
  rewrite length_map, length_seq.
  replace (d + j - d) with j by lia.
  change (map ?f ?l) with (f <$> l).
  rewrite !list_lookup_fmap, !lookup_seq_lt by done. cbn.
  by destruct (extent j).
Qed.

(** One turn of the loop over [iU]: nothing for a segment with equal levels,
    one box [requestFirst] for the first patch when its level is the lower
    one, one box [requestSecond] for the second patch otherwise.  What
    [tmpvec] held before the turn does not show in the box. *)
Lemma emitBody_spec d bi Lu U0 U1 (seg : list Z) (tmpvec : list Z) (rF rS : list Z) :
  wellFormed d bi -> length tmpvec = 1 + 2 * d ->
  let a0 := (spanDirections d (direction (first bi))).1.1 in
  let b0 := (spanDirections d (direction (first bi))).1.2 in
  let c0 := (spanDirections d (direction (first bi))).2 in
  let a1 := dmap (dirMap bi) a0 in
  let b1 := dmap (dirMap bi) b0 in
  let c1 := dmap (dirMap bi) c0 in
  emitBody d bi Lu U0 U1 a0 b0 c0 a1 b1 c1 seg (tmpvec, rF, rS) =
    if (vget seg 4 =? vget seg 5)%Z then (tmpvec, rF, rS)
    else if (vget seg 4 <? vget seg 5)%Z
         then let r := requestFirst d bi Lu U0 a0 c0 seg in (r, rF ++ r, rS)
         else let r := requestSecond d bi Lu U1 a0 b0 a1 c1 seg in (r, rF, rS ++ r).
Proof.
  intros (Hd & Hdir & Hp) Hlen a0 b0 c0 a1 b1 c1.
  unfold emitBody.
  set (L0 := vget seg 4) in *. set (L1 := vget seg 5) in *.
  destruct (Z.eqb_spec L0 L1) as [Heq|Hne]; cbn [negb]; [done|].
  destruct (Z.ltb_spec L0 L1) as [Hlt|Hge].
  - rewrite Z.eqb_refl. rewrite pushAll_spec by done. cbv zeta.
    match goal with
    | |- (?tv, _, _) = _ => assert (tv = requestFirst d bi Lu U0 a0 c0 seg) as ->
    end; [|done].
    unfold requestFirst, refinementBox, slab, segmentExtent. fold L1.
    set (shift := U32.sub Lu L1).
    subst a0 b0 c0.
    destruct (side_index (first bi) mod 2 =? 1); destruct Hd as [-> | ->].
    + destruct tmpvec as [|t0 [|t1 [|t2 [|t3 [|t4 [|? ?]]]]]]; try done.
      destruct (direction (first bi)) as [|[|?]]; [| |lia]; reflexivity.
    + destruct tmpvec as [|t0 [|t1 [|t2 [|t3 [|t4 [|t5 [|t6 [|? ?]]]]]]]]; try done.
      destruct (direction (first bi)) as [|[|[|?]]]; [| | |lia]; reflexivity.
    + destruct tmpvec as [|t0 [|t1 [|t2 [|t3 [|t4 [|? ?]]]]]]; try done.
      destruct (direction (first bi)) as [|[|?]]; [| |lia]; reflexivity.
    + destruct tmpvec as [|t0 [|t1 [|t2 [|t3 [|t4 [|t5 [|t6 [|? ?]]]]]]]]; try done.
      destruct (direction (first bi)) as [|[|[|?]]]; [| | |lia]; reflexivity.
  - rewrite (proj2 (Z.eqb_neq L0 L1)) by done. cbv zeta.
    match goal with
    | |- (?tv, _, pushAll _ _ _) = _ =>
        assert (tv = requestSecond d bi Lu U1 a0 b0 a1 c1 seg) as ->
    end.
    2:{ rewrite pushAll_spec; [done|]. unfold requestSecond.
        by rewrite refinementBox_length. }
    unfold requestSecond, refinementBox, slab, segmentExtent, orientInterval,
      unorientBox, for_loop, unorientBody. fold L0.
    set (shift := U32.sub Lu L0).
    subst a1 b1 c1 a0 b0 c0.
    destruct (side_index (second bi) mod 2 =? 1); destruct Hd as [-> | ->].
    + destruct tmpvec as [|t0 [|t1 [|t2 [|t3 [|t4 [|? ?]]]]]]; try done.
      destruct (is_permutation_2 _ Hp) as [-> | ->];
        (destruct (direction (first bi)) as [|[|?]]; [| |lia]);
        cbn;
        repeat (match goal with
                | |- context [dorient ?a ?b] => destruct (dorient a b)
                end);
        reflexivity.
    + destruct tmpvec as [|t0 [|t1 [|t2 [|t3 [|t4 [|t5 [|t6 [|? ?]]]]]]]]; try done.
      destruct (is_permutation_3 _ Hp) as [-> | [-> | [-> | [-> | [-> | ->]]]]];
        (destruct (direction (first bi)) as [|[|[|?]]]; [| | |lia]);
        cbn;
        repeat (match goal with
                | |- context [dorient ?a ?b] => destruct (dorient a b)
                end);
        reflexivity.
    + destruct tmpvec as [|t0 [|t1 [|t2 [|t3 [|t4 [|? ?]]]]]]; try done.
      destruct (is_permutation_2 _ Hp) as [-> | ->];
        (destruct (direction (first bi)) as [|[|?]]; [| |lia]);
        cbn;
        repeat (match goal with
                | |- context [dorient ?a ?b] => destruct (dorient a b)
                end);
        reflexivity.
    + destruct tmpvec as [|t0 [|t1 [|t2 [|t3 [|t4 [|t5 [|t6 [|? ?]]]]]]]]; try done.
      destruct (is_permutation_3 _ Hp) as [-> | [-> | [-> | [-> | [-> | ->]]]]];
        (destruct (direction (first bi)) as [|[|[|?]]]; [| | |lia]);
        cbn;
        repeat (match goal with
                | |- context [dorient ?a ?b] => destruct (dorient a b)
                end);
        reflexivity.
Qed.

Lemma emitBody_length d bi Lu U0 U1 (seg : list Z) (tmpvec : list Z) (rF rS : list Z) :
  wellFormed d bi -> length tmpvec = 1 + 2 * d ->
  let a0 := (spanDirections d (direction (first bi))).1.1 in
  let b0 := (spanDirections d (direction (first bi))).1.2 in
  let c0 := (spanDirections d (direction (first bi))).2 in
  let a1 := dmap (dirMap bi) a0 in
  let b1 := dmap (dirMap bi) b0 in
  let c1 := dmap (dirMap bi) c0 in
  length (emitBody d bi Lu U0 U1 a0 b0 c0 a1 b1 c1 seg (tmpvec, rF, rS)).1.1 = 1 + 2 * d.
Proof.
  intros Hwf Hlen a0 b0 c0 a1 b1 c1.
  subst a0 b0 c0 a1 b1 c1. rewrite emitBody_spec by done.
  destruct (vget seg 4 =? vget seg 5)%Z; [done|].
  destruct (vget seg 4 <? vget seg 5)%Z; cbn [fst];
    unfold requestFirst, requestSecond; apply refinementBox_length.
Qed.

(** The whole loop: the boxes of the first patch are those of the segments
    on which its level is the lower one, in the order of the segments, and
    likewise for the second patch. *)
Lemma emitRefinements_spec d bi Lu U0 U1 (iU : list (list Z)) :
  wellFormed d bi ->
  let a0 := (spanDirections d (direction (first bi))).1.1 in
  let b0 := (spanDirections d (direction (first bi))).1.2 in
  let c0 := (spanDirections d (direction (first bi))).2 in
  let a1 := dmap (dirMap bi) a0 in
  let b1 := dmap (dirMap bi) b0 in
  let c1 := dmap (dirMap bi) c0 in
  let out := emitRefinements d bi Lu U0 U1 a0 b0 c0 a1 b1 c1 iU in
  out.1.2 = (iU ≫= requestsFirst d bi Lu U0 a0 c0) /\
  out.2 = (iU ≫= requestsSecond d bi Lu U1 a0 b0 a1 c1).
Proof.
  intros Hwf a0 b0 c0 a1 b1 c1 out. subst out. unfold emitRefinements.
  assert (forall st : list Z * list Z * list Z,
            length st.1.1 = 1 + 2 * d ->
            let out := fold_left
              (fun st seg => emitBody d bi Lu U0 U1 a0 b0 c0 a1 b1 c1 seg st) iU st in
            out.1.2 = st.1.2 ++ (iU ≫= requestsFirst d bi Lu U0 a0 c0) /\
            out.2 = st.2 ++ (iU ≫= requestsSecond d bi Lu U1 a0 b0 a1 c1)) as Hgen.
  { induction iU as [|seg iU IH]; intros [[tv rF] rS] Hlen; cbn [fst snd] in *.
    - cbn. by rewrite !app_nil_r.
    - cbn [fold_left]. cbv zeta.
      pose proof (emitBody_length d bi Lu U0 U1 seg tv rF rS Hwf Hlen) as Hlen'.
      cbv zeta in Hlen'. fold a0 b0 c0 a1 b1 c1 in Hlen'.
      destruct (IH _ Hlen') as [-> ->].
      pose proof (emitBody_spec d bi Lu U0 U1 seg tv rF rS Hwf Hlen) as Hstep.
      cbv zeta in Hstep. fold a0 b0 c0 a1 b1 c1 in Hstep. rewrite Hstep.
      cbn [mbind list_bind]. unfold requestsFirst at 2, requestsSecond at 2.
      destruct (Z.eqb_spec (vget seg 4) (vget seg 5)) as [Heq|Hne].
      + rewrite Heq, Z.ltb_irrefl. done.
      + destruct (Z.ltb_spec (vget seg 4) (vget seg 5)) as [Hlt|Hge]; cbn [fst snd].
        * rewrite (proj2 (Z.ltb_ge (vget seg 5) (vget seg 4))) by lia.
          by rewrite <- app_assoc.
        * rewrite (proj2 (Z.ltb_lt (vget seg 5) (vget seg 4))) by lia.
          by rewrite <- app_assoc. }
  apply (Hgen (replicate (1 + 2 * d) 0%Z, [], [])).
  cbn [fst]. by rewrite length_replicate.
Qed.

Lemma spanDirections_wf (d dir : nat) :
  (d = 2 \/ d = 3) -> dir < d ->
  let a0 := (spanDirections d dir).1.1 in
  let b0 := (spanDirections d dir).1.2 in
  let c0 := (spanDirections d dir).2 in
  a0 < d /\ b0 < d /\ c0 < d /\ a0 ≠ c0 /\ b0 ≠ c0 /\
  (d = 2 -> b0 = a0) /\ (d = 3 -> b0 ≠ a0).
Proof.
  intros [-> | ->] Hdir.
  - destruct dir as [|[|?]]; [| |lia]; cbn; repeat split; lia.
  - destruct dir as [|[|[|?]]]; [| | |lia]; cbn; repeat split; lia.
Qed.

Lemma requestFirst_axes d bi Lu U0 (seg : list Z) :
  wellFormed d bi ->
  let a0 := (spanDirections d (direction (first bi))).1.1 in
  let b0 := (spanDirections d (direction (first bi))).1.2 in
  let c0 := (spanDirections d (direction (first bi))).2 in
  let shift := U32.sub Lu (vget seg 5) in
  let req := requestFirst d bi Lu U0 a0 c0 seg in
  length req = 1 + 2 * d /\
  vget req 0 = vget seg 5 /\
  boxAxis d c0 req = slab (side_index (first bi)) (U32.shr (vget U0 c0) shift) /\
  boxAxis d a0 req = (U32.shr (vget seg 0) shift, U32.shr (vget seg 2) shift) /\
  (d = 3 -> boxAxis d b0 req = (U32.shr (vget seg 1) shift, U32.shr (vget seg 3) shift)).
Proof.
  intros (Hd & Hdir & Hp) a0 b0 c0 shift req.
  destruct (spanDirections_wf d (direction (first bi)) Hd Hdir)
    as (Ha & Hb & Hc & Hac & Hbc & Hb2 & Hb3).
  fold a0 b0 c0 in Ha, Hb, Hc, Hac, Hbc, Hb2, Hb3.
  subst req. unfold requestFirst. fold shift.
  split; [apply refinementBox_length|]. split; [done|].
  rewrite !refinementBox_axis by done.
  rewrite Nat.eqb_refl.
  rewrite (proj2 (Nat.eqb_neq a0 c0)) by done.
  rewrite (proj2 (Nat.eqb_neq b0 c0)) by done.
  rewrite Nat.eqb_refl. unfold segmentExtent. cbn [negb].
  split; [done|]. split; [done|].
  intros Hd3. by rewrite (proj2 (Nat.eqb_neq b0 a0)) by auto.
Qed.

Lemma requestSecond_axes d bi Lu U1 (seg : list Z) :
  wellFormed d bi ->
  let a0 := (spanDirections d (direction (first bi))).1.1 in
  let b0 := (spanDirections d (direction (first bi))).1.2 in
  let c0 := (spanDirections d (direction (first bi))).2 in
  let a1 := dmap (dirMap bi) a0 in
  let b1 := dmap (dirMap bi) b0 in
  let c1 := dmap (dirMap bi) c0 in
  let shift := U32.sub Lu (vget seg 4) in
  let req := requestSecond d bi Lu U1 a0 b0 a1 c1 seg in
  length req = 1 + 2 * d /\
  vget req 0 = vget seg 4 /\
  boxAxis d c1 req = slab (side_index (second bi)) (U32.shr (vget U1 c1) shift) /\
  boxAxis d a1 req =
    orientInterval (dorient (dirOrientation bi) a0) (U32.shr (vget U1 a1) shift)
      (U32.shr (vget seg 0) shift, U32.shr (vget seg 2) shift) /\
  (d = 3 ->
   boxAxis d b1 req =
     orientInterval (dorient (dirOrientation bi) b0) (U32.shr (vget U1 b1) shift)
       (U32.shr (vget seg 1) shift, U32.shr (vget seg 3) shift)).
Proof.
  intros (Hd & Hdir & Hp) a0 b0 c0 a1 b1 c1 shift req.
  destruct (spanDirections_wf d (direction (first bi)) Hd Hdir)
    as (Ha & Hb & Hc & Hac & Hbc & Hb2 & Hb3).
  fold a0 b0 c0 in Ha, Hb, Hc, Hac, Hbc, Hb2, Hb3.
  assert (a1 < d) as Ha1 by apply (is_permutation_lt d _ a0 Hp Ha).
  assert (b1 < d) as Hb1 by apply (is_permutation_lt d _ b0 Hp Hb).
  assert (c1 < d) as Hc1 by apply (is_permutation_lt d _ c0 Hp Hc).
  assert (a1 ≠ c1) as Hac1
    by (intros Heq; apply Hac; by apply (is_permutation_inj d (dirMap bi))).
  assert (b1 ≠ c1) as Hbc1
    by (intros Heq; apply Hbc; by apply (is_permutation_inj d (dirMap bi))).
  subst req. unfold requestSecond. fold shift.
  split; [apply refinementBox_length|]. split; [done|].
  rewrite !refinementBox_axis by done.
  rewrite Nat.eqb_refl.
  rewrite (proj2 (Nat.eqb_neq a1 c1)) by done.
  rewrite (proj2 (Nat.eqb_neq b1 c1)) by done.
  rewrite Nat.eqb_refl. unfold segmentExtent. cbn [negb].
  split; [done|]. split; [done|].
  intros Hd3.
  assert (b1 ≠ a1) as Hba1.
  { intros Heq. apply (Hb3 Hd3). by apply (is_permutation_inj d (dirMap bi)). }
  by rewrite (proj2 (Nat.eqb_neq b1 a1)) by done.
Qed.

(** ** The refinement boxes of repairInterface2d *)

Lemma emitBody2d_spec bi Lu U0 U1 orientPreserv dir1 (seg : list Z) (knot0 : Z)
    (r0 r1 : list Z) :
  planarSide (side_index (first bi)) -> planarSide (side_index (second bi)) ->
  emitBody2d bi Lu U0 U1 orientPreserv dir1 seg (knot0, r0, r1) =
  Ok (vget seg 0,
      r0 ++ requests2dFirst bi Lu U0 knot0 seg,
      r1 ++ requests2dSecond bi Lu U1 orientPreserv dir1 knot0 seg).
Proof.
  intros Hs0 Hs1. unfold planarSide in *.
  unfold emitBody2d, requests2dFirst, requests2dSecond, request2d, refinementBox, slab,
    orientInterval.
  destruct (Z.ltb_spec (vget seg 1) (vget seg 2)) as [Hlt|Hge].
  - rewrite (proj2 (Z.ltb_ge (vget seg 2) (vget seg 1))) by lia.
    rewrite app_nil_r.
    destruct (side_index (first bi)) as [|[|[|[|[|?]]]]]; try lia; cbv zeta;
      rewrite <- app_assoc; reflexivity.
  - destruct (Z.gtb_spec (vget seg 1) (vget seg 2)) as [Hgt|Hle].
    + rewrite (proj2 (Z.ltb_lt (vget seg 2) (vget seg 1))) by lia.
      rewrite app_nil_r.
      destruct (side_index (second bi)) as [|[|[|[|[|?]]]]]; try lia;
        destruct orientPreserv; cbn [negb]; cbv beta iota zeta;
        rewrite <- app_assoc; reflexivity.
    + rewrite (proj2 (Z.ltb_ge (vget seg 2) (vget seg 1))) by lia.
      by rewrite !app_nil_r.
Qed.

Lemma emitRefinements2d_spec bi Lu U0 U1 orientPreserv dir1 (intfcU : list (list Z)) :
  planarSide (side_index (first bi)) -> planarSide (side_index (second bi)) ->
  exists knot1,
    emitRefinements2d bi Lu U0 U1 orientPreserv dir1 intfcU =
    Ok (knot1,
        requestsAlong (requests2dFirst bi Lu U0) 0 intfcU,
        requestsAlong (requests2dSecond bi Lu U1 orientPreserv dir1) 0 intfcU).
Proof.
  intros Hs0 Hs1. unfold emitRefinements2d.
  assert (forall knot0 r0 r1,
            exists knot1,
              fold_left
                (fun r seg => bind r (emitBody2d bi Lu U0 U1 orientPreserv dir1 seg))
                intfcU (Ok (knot0, r0, r1)) =
              Ok (knot1,
                  r0 ++ requestsAlong (requests2dFirst bi Lu U0) knot0 intfcU,
                  r1 ++ requestsAlong (requests2dSecond bi Lu U1 orientPreserv dir1)
                          knot0 intfcU)) as Hgen.
  { induction intfcU as [|seg intfcU IH]; intros knot0 r0 r1.
    - exists knot0. cbn. by rewrite !app_nil_r.
    - cbn [fold_left bind requestsAlong]. rewrite emitBody2d_spec by done.
      destruct (IH (vget seg 0) (r0 ++ requests2dFirst bi Lu U0 knot0 seg)
                  (r1 ++ requests2dSecond bi Lu U1 orientPreserv dir1 knot0 seg))
        as [knot1 ->].
      exists knot1. by rewrite <- !app_assoc. }
  apply (Hgen 0%Z [] []).
Qed.

Lemma request2d_axes (sideIndex : nat) (Luse : Z) (upperCorn : vec) (shift : Z)
    (extent : Z * Z) :
  planarSide sideIndex ->
  let c := (sideIndex - 1) / 2 in
  let req := request2d sideIndex Luse upperCorn shift extent in
  length req = 5 /\ vget req 0 = Luse /\
  boxAxis 2 c req = slab sideIndex (U32.shr (vget upperCorn c) shift) /\
  boxAxis 2 (1 - c) req = extent.
Proof.
  intros Hs c req. unfold planarSide in Hs. subst c req. unfold request2d.
  split; [apply refinementBox_length|]. split; [done|].
  destruct sideIndex as [|[|[|[|[|?]]]]]; try lia;
    (split; [by rewrite refinementBox_axis by (cbn; lia)|]);
    by rewrite refinementBox_axis by (cbn; lia).
Qed.

(** C1, as the code has it.  A merged segment whose levels [L0] and [L1]
    differ gives exactly one refinement box, appended to the list of the patch
    whose level is the lower one; its level is [Luse = max L0 L1]; along the
    normal direction it is the cell [[0,1]] for a side of odd index and
    [[upperCornOnLevel - 1, upperCornOnLevel]] for a side of even index, with
    [upperCornOnLevel] the upper corner of that patch shifted down to [Luse];
    along a spanning direction it is the extent of the segment shifted down
    to [Luse] when the box is for the first patch, and for the second patch
    that extent mapped by the orientation of the direction: kept where the
    orientation is preserved, reflected where it is not (in the general path
    the shifted extent about the upper corner on level [Luse], in
    [repairInterface2d] the extent about the upper corner on the reference
    level, before the shift).  Over the whole loop the boxes of a patch are
    those of the segments on which its level is the lower one, one per
    segment and in the order of the segments. *)
Theorem refinement_requests :
  (forall d bi Lu U0 U1 (seg tmpvec rF rS : list Z),
     wellFormed d bi -> length tmpvec = 1 + 2 * d -> vget seg 4 ≠ vget seg 5 ->
     let a0 := (spanDirections d (direction (first bi))).1.1 in
     let b0 := (spanDirections d (direction (first bi))).1.2 in
     let c0 := (spanDirections d (direction (first bi))).2 in
     let a1 := dmap (dirMap bi) a0 in
     let b1 := dmap (dirMap bi) b0 in
     let c1 := dmap (dirMap bi) c0 in
     let L0 := vget seg 4 in
     let L1 := vget seg 5 in
     let Luse := Z.max L0 L1 in
     let shift := U32.sub Lu Luse in
     let lo_a := U32.shr (vget seg 0) shift in
     let lo_b := U32.shr (vget seg 1) shift in
     let up_a := U32.shr (vget seg 2) shift in
     let up_b := U32.shr (vget seg 3) shift in
     let out := emitBody d bi Lu U0 U1 a0 b0 c0 a1 b1 c1 seg (tmpvec, rF, rS) in
     exists req,
       length req = 1 + 2 * d /\ vget req 0 = Luse /\
       (((L0 < L1)%Z /\ out = (req, rF ++ req, rS) /\
         boxAxis d c0 req = slab (side_index (first bi)) (U32.shr (vget U0 c0) shift) /\
         boxAxis d a0 req = (lo_a, up_a) /\
         (d = 3 -> boxAxis d b0 req = (lo_b, up_b)))
        \/
        ((L1 < L0)%Z /\ out = (req, rF, rS ++ req) /\
         boxAxis d c1 req = slab (side_index (second bi)) (U32.shr (vget U1 c1) shift) /\
         boxAxis d a1 req =
           orientInterval (dorient (dirOrientation bi) a0)
             (U32.shr (vget U1 a1) shift) (lo_a, up_a) /\
         (d = 3 ->
          boxAxis d b1 req =
            orientInterval (dorient (dirOrientation bi) b0)
              (U32.shr (vget U1 b1) shift) (lo_b, up_b))))) /\
  (forall bi Lu U0 U1 orientPreserv dir1 (seg : list Z) knot0 (r0 r1 : list Z),
     planarSide (side_index (first bi)) -> planarSide (side_index (second bi)) ->
     vget seg 1 ≠ vget seg 2 ->
     let c0 := (side_index (first bi) - 1) / 2 in
     let c1 := (side_index (second bi) - 1) / 2 in
     let knot1 := vget seg 0 in
     let L0 := vget seg 1 in
     let L1 := vget seg 2 in
     let Luse := Z.max L0 L1 in
     let shift := U32.sub Lu Luse in
     let out := emitBody2d bi Lu U0 U1 orientPreserv dir1 seg (knot0, r0, r1) in
     exists req,
       length req = 5 /\ vget req 0 = Luse /\
       (((L0 < L1)%Z /\ out = Ok (knot1, r0 ++ req, r1) /\
         boxAxis 2 c0 req = slab (side_index (first bi)) (U32.shr (vget U0 c0) shift) /\
         boxAxis 2 (1 - c0) req = (U32.shr knot0 shift, U32.shr knot1 shift))
        \/
        ((L1 < L0)%Z /\ out = Ok (knot1, r0, r1 ++ req) /\
         boxAxis 2 c1 req = slab (side_index (second bi)) (U32.shr (vget U1 c1) shift) /\
         boxAxis 2 (1 - c1) req =
           let x := orientInterval orientPreserv (vget U1 dir1) (knot0, knot1) in
           (U32.shr x.1 shift, U32.shr x.2 shift)))) /\
  (forall d bi Lu U0 U1 (iU : list (list Z)),
     wellFormed d bi ->
     let a0 := (spanDirections d (direction (first bi))).1.1 in
     let b0 := (spanDirections d (direction (first bi))).1.2 in
     let c0 := (spanDirections d (direction (first bi))).2 in
     let a1 := dmap (dirMap bi) a0 in
     let b1 := dmap (dirMap bi) b0 in
     let c1 := dmap (dirMap bi) c0 in
     let out := emitRefinements d bi Lu U0 U1 a0 b0 c0 a1 b1 c1 iU in
     out.1.2 = (iU ≫= requestsFirst d bi Lu U0 a0 c0) /\
     out.2 = (iU ≫= requestsSecond d bi Lu U1 a0 b0 a1 c1)) /\
  (forall bi Lu U0 U1 orientPreserv dir1 (intfcU : list (list Z)),
     planarSide (side_index (first bi)) -> planarSide (side_index (second bi)) ->
     exists knot1,
       emitRefinements2d bi Lu U0 U1 orientPreserv dir1 intfcU =
       Ok (knot1,
           requestsAlong (requests2dFirst bi Lu U0) 0 intfcU,
           requestsAlong (requests2dSecond bi Lu U1 orientPreserv dir1) 0 intfcU)).
Proof.
  split; [|split; [|split; [intros; by apply emitRefinements_spec
                           |intros; by apply emitRefinements2d_spec]]].
  - intros d bi Lu U0 U1 seg tmpvec rF rS Hwf Hlen Hne
      a0 b0 c0 a1 b1 c1 L0 L1 Luse shift lo_a lo_b up_a up_b out.
    pose proof (emitBody_spec d bi Lu U0 U1 seg tmpvec rF rS Hwf Hlen) as Hstep.
    cbv zeta in Hstep. fold a0 b0 c0 a1 b1 c1 L0 L1 out in Hstep.
    rewrite (proj2 (Z.eqb_neq L0 L1)) in Hstep by done.
    destruct (Z.ltb_spec L0 L1) as [Hlt|Hge].
    + exists (requestFirst d bi Lu U0 a0 c0 seg).
      destruct (requestFirst_axes d bi Lu U0 seg Hwf) as (Hl & Hlev & Hc & Ha & Hb).
      fold a0 b0 c0 L1 in Hl, Hlev, Hc, Ha, Hb.
      assert (Luse = L1) as HLuse by (subst Luse; lia).
      subst shift lo_a lo_b up_a up_b. rewrite HLuse.
      split; [done|]. split; [done|]. left. done.
    + exists (requestSecond d bi Lu U1 a0 b0 a1 c1 seg).
      destruct (requestSecond_axes d bi Lu U1 seg Hwf) as (Hl & Hlev & Hc & Ha & Hb).
      fold a0 b0 c0 a1 b1 c1 L0 in Hl, Hlev, Hc, Ha, Hb.
      assert (Luse = L0) as HLuse by (subst Luse; lia).
      subst shift lo_a lo_b up_a up_b. rewrite HLuse.
      split; [done|]. split; [done|]. right.
      split; [subst L0 L1; lia|]. done.
  - intros bi Lu U0 U1 orientPreserv dir1 seg knot0 r0 r1 Hs0 Hs1 Hne
      c0 c1 knot1 L0 L1 Luse shift out.
    subst out. rewrite emitBody2d_spec by done.
    unfold requests2dFirst, requests2dSecond. fold L0 L1 knot1.
    destruct (Z.ltb_spec L0 L1) as [Hlt|Hge].
    + rewrite (proj2 (Z.ltb_ge L1 L0)) by lia. rewrite app_nil_r.
      assert (Luse = L1) as HLuse by (subst Luse; lia).
      subst shift. rewrite HLuse.
      eexists. 
      destruct (request2d_axes (side_index (first bi)) L1 U0 (U32.sub Lu L1)
                  (U32.shr knot0 (U32.sub Lu L1), U32.shr knot1 (U32.sub Lu L1)) Hs0)
        as (Hl & Hlev & Hc & Ha).
      split; [exact Hl|]. split; [exact Hlev|]. left. done.
    + rewrite (proj2 (Z.ltb_lt L1 L0)) by (subst L0 L1; lia). rewrite app_nil_r.
      assert (Luse = L0) as HLuse by (subst Luse; lia).
      subst shift. rewrite HLuse.
      eexists.
      match goal with
      | |- context [request2d ?s ?l ?u ?sh ?e] =>
          destruct (request2d_axes s l u sh e Hs1) as (Hl & Hlev & Hc & Ha)
      end.
      split; [exact Hl|]. split; [exact Hlev|]. right.
      split; [subst L0 L1; lia|]. done.
Qed.

(** Scenario A: the segment [[0,2]] with levels (2, 3) gives one box of
    level 3. *)
Lemma refinement_requests_witness :
  let bi := Scenario.east_west [true; true] in
  let seg := [0; 0; 2; 2; 2; 3]%Z in
  wellFormed 2 bi /\ vget seg 4 ≠ vget seg 5 /\
  exists req, length req = 5 /\ vget req 0 = 3%Z.
Proof.
  intros bi seg.
  assert (wellFormed 2 bi) as Hwf by by_evaluation.
  assert (vget seg 4 ≠ vget seg 5) as Hne by (vm_compute; discriminate).
  split; [exact Hwf|]. split; [exact Hne|].
  destruct (proj1 refinement_requests 2 bi 3%Z [4; 4]%Z [4; 4]%Z seg
              (replicate 5 0%Z) [] [] Hwf eq_refl Hne) as (req & Hlen & Hlev & _).
  exists req. split; [exact Hlen|exact Hlev].
Defined.

(** C1 as the specification states it fails on the second patch when the orientation of
    the interface is not preserved: the segment [[0,1]] with levels (3, 2)
    gives the second patch a box over [[3,4]], not over [[0,1]]. *)
Lemma refinement_requests_counterexample :
  let bi := Scenario.east_west [true; false] in
  let mi := mergeInterfaceBoxes 2 bi Scenario.uneven Scenario.coarse in
  let seg := [0; 0; 1; 1; 3; 2]%Z in
  let shift := U32.sub (mi_Lu mi) (Z.max (vget seg 4) (vget seg 5)) in
  wellFormed 2 bi /\
  mi_iU mi = [seg; [1; 1; 4; 4; 1; 2]%Z] /\
  (findElements 2 bi Scenario.uneven Scenario.coarse).2 = [3; 0; 3; 1; 4]%Z /\
  boxAxis 2 1 [3; 0; 3; 1; 4]%Z ≠
    (U32.shr (vget seg 0) shift, U32.shr (vget seg 2) shift).
Proof.
  intros bi mi seg shift.
  split; [by_evaluation|]. split; [reflexivity|]. split; [reflexivity|].
  vm_compute. discriminate.
Qed.

(** ** The reflection of the second side *)

(** C4. On a direction whose orientation is not preserved, the interval
    [[lo, up]] of a boundary box of the second side (at the reference level)
    becomes [[upperCorn1 - up, upperCorn1 - lo]], with [upperCorn1] the upper
    corner of the second patch at the reference level; and a refinement box
    for the second patch is reflected the same way on its spanning directions,
    about the upper corner shifted down to the level of the box, while a
    direction whose orientation is preserved keeps its extent. *)
Theorem orientation_reflection :
  (forall d n1 bi t0 t1 i jj,
     let sb1 := getBoxesOnSide t1 (side_index (second bi)) in
     let mi := mergeInterfaceBoxes d bi t0 t1 in
     let j := dmap (dirMap bi) jj in
     let e1 := idxExponent t0 t1 t1 in
     let lo := U32.shl (mget (sb_lo sb1) i j) e1 in
     let up := U32.shl (mget (sb_up sb1) i j) e1 in
     let upperCorn1 := vget (mi_upperCorn1 mi) j in
     is_permutation d (dirMap bi) ->
     mat_dims n1 d (sb_lo sb1) -> mat_dims n1 d (sb_up sb1) ->
     i < n1 -> jj < d ->
     upperCorn1 = U32.shl (vget (upperCorner t1) j) (indexLevelDiff t0 t1 t1) /\
     (dorient (dirOrientation bi) jj = false ->
      cell (i, j) (mi_boxes1 mi) = (U32.sub upperCorn1 up, U32.sub upperCorn1 lo)) /\
     (dorient (dirOrientation bi) jj = true ->
      cell (i, j) (mi_boxes1 mi) = (lo, up))) /\
  (forall d bi Lu U0 U1 (seg tmpvec rF rS : list Z),
     let a0 := (spanDirections d (direction (first bi))).1.1 in
     let b0 := (spanDirections d (direction (first bi))).1.2 in
     let c0 := (spanDirections d (direction (first bi))).2 in
     let a1 := dmap (dirMap bi) a0 in
     let b1 := dmap (dirMap bi) b0 in
     let c1 := dmap (dirMap bi) c0 in
     let shift := U32.sub Lu (vget seg 4) in
     let upperCornOnLevel := fun j => U32.shr (vget U1 j) shift in
     let lo_a := U32.shr (vget seg 0) shift in
     let lo_b := U32.shr (vget seg 1) shift in
     let up_a := U32.shr (vget seg 2) shift in
     let up_b := U32.shr (vget seg 3) shift in
     wellFormed d bi -> length tmpvec = 1 + 2 * d -> (vget seg 5 < vget seg 4)%Z ->
     exists req,
       emitBody d bi Lu U0 U1 a0 b0 c0 a1 b1 c1 seg (tmpvec, rF, rS) =
         (req, rF, rS ++ req) /\
       (dorient (dirOrientation bi) a0 = false ->
        boxAxis d a1 req =
          (U32.sub (upperCornOnLevel a1) up_a, U32.sub (upperCornOnLevel a1) lo_a)) /\
       (dorient (dirOrientation bi) a0 = true -> boxAxis d a1 req = (lo_a, up_a)) /\
       (d = 3 -> dorient (dirOrientation bi) b0 = false ->
        boxAxis d b1 req =
          (U32.sub (upperCornOnLevel b1) up_b, U32.sub (upperCornOnLevel b1) lo_b)) /\
       (d = 3 -> dorient (dirOrientation bi) b0 = true -> boxAxis d b1 req = (lo_b, up_b))).
Proof.
  split.
  - intros d n1 bi t0 t1 i jj sb1 mi j e1 lo up upperCorn1 Hp Hlo Hup Hi Hjj.
    assert (j < d) as Hj by apply (is_permutation_lt d _ jj Hp Hjj).
    subst upperCorn1 mi. rewrite mi_upperCorn1_eq, mi_boxes1_eq.
    split.
    { rewrite upperCornOnIndexLevel_spec. by rewrite decide_True by done. }
    pose proof (orientBoxes1_spec n1 d e1 (dirMap bi) (dirOrientation bi)
      (upperCornOnIndexLevel d (indexLevelDiff t0 t1 t1) (upperCorner t1))
      (sb_lo sb1) (sb_up sb1) i jj Hp Hlo Hup Hi Hjj) as Hspec.
    fold j in Hspec. fold sb1 e1. rewrite Hspec. fold lo up.
    split; intros ->; done.
  - intros d bi Lu U0 U1 seg tmpvec rF rS a0 b0 c0 a1 b1 c1 shift upperCornOnLevel
      lo_a lo_b up_a up_b Hwf Hlen Hlt.
    exists (requestSecond d bi Lu U1 a0 b0 a1 c1 seg).
    pose proof (emitBody_spec d bi Lu U0 U1 seg tmpvec rF rS Hwf Hlen) as Hstep.
    cbv zeta in Hstep. fold a0 b0 c0 a1 b1 c1 in Hstep.
    rewrite (proj2 (Z.eqb_neq (vget seg 4) (vget seg 5))) in Hstep by lia.
    rewrite (proj2 (Z.ltb_ge (vget seg 4) (vget seg 5))) in Hstep by lia.
    split; [exact Hstep|].
    destruct (requestSecond_axes d bi Lu U1 seg Hwf) as (_ & _ & _ & Ha & Hb).
    fold a0 b0 c0 a1 b1 c1 shift lo_a lo_b up_a up_b in Ha, Hb.
    split; [intros Hor; by rewrite Ha, Hor|].
    split; [intros Hor; by rewrite Ha, Hor|].
    split; intros Hd3 Hor; by rewrite (Hb Hd3), Hor.
Qed.

(** Scenario B: the segment [[0,1]] of the interface [[0,4]] gives the second
    patch, whose spanning direction runs the other way, a box over [[3,4]]. *)
Lemma orientation_reflection_witness :
  let bi := Scenario.east_west [true; false] in
  let seg := [0; 0; 1; 1; 3; 2]%Z in
  wellFormed 2 bi /\ (vget seg 5 < vget seg 4)%Z /\
  exists req,
    emitBody 2 bi 3 [4; 4]%Z [4; 4]%Z 1 1 0 1 1 0 seg (replicate 5 0%Z, [], []) =
      (req, [], req) /\
    boxAxis 2 1 req = (3, 4)%Z.
Proof.
  intros bi seg.
  assert (wellFormed 2 bi) as Hwf by by_evaluation.
  assert (vget seg 5 < vget seg 4)%Z as Hlt by reflexivity.
  split; [exact Hwf|]. split; [exact Hlt|].
  destruct (proj2 orientation_reflection 2 bi 3%Z [4; 4]%Z [4; 4]%Z seg
              (replicate 5 0%Z) [] [] Hwf eq_refl Hlt) as (req & Hout & Hflip & _).
  exists req. split; [exact Hout|]. exact (Hflip eq_refl).
Defined.

Example scenario_B_reflection : orientInterval false 4 (1, 3)%Z = (1, 3)%Z.
Proof. reflexivity. Qed.

(** ** An interface that is conforming already *)

Lemma emitRefinements_conforming d bi Lu U0 U1 a0 b0 c0 a1 b1 c1 (iU : list (list Z)) :
  (forall seg, seg ∈ iU -> vget seg 4 = vget seg 5) ->
  emitRefinements d bi Lu U0 U1 a0 b0 c0 a1 b1 c1 iU = (replicate (1 + 2 * d) 0%Z, [], []).
Proof.
  unfold emitRefinements. generalize (replicate (1 + 2 * d) 0%Z, @nil Z, @nil Z).
  induction iU as [|seg iU IH]; intros st Hall; [done|].
  cbn [fold_left].
  assert (emitBody d bi Lu U0 U1 a0 b0 c0 a1 b1 c1 seg st = st) as ->.
  { destruct st as [[tv rF] rS]. unfold emitBody.
    rewrite (Hall seg) by apply list_elem_of_here. by rewrite Z.eqb_refl. }
  apply IH. intros seg' Hin. apply Hall. by apply list_elem_of_further.
Qed.

Lemma emitRefinements2d_conforming bi Lu U0 U1 orientPreserv dir1
    (intfcU : list (list Z)) :
  (forall seg, seg ∈ intfcU -> vget seg 1 = vget seg 2) ->
  exists knot1,
    emitRefinements2d bi Lu U0 U1 orientPreserv dir1 intfcU = Ok (knot1, [], []).
Proof.
  unfold emitRefinements2d. generalize 0%Z.
  induction intfcU as [|seg intfcU IH]; intros knot Hall; [by exists knot|].
  cbn [fold_left bind].
  assert (emitBody2d bi Lu U0 U1 orientPreserv dir1 seg (knot, [], []) =
          Ok (vget seg 0, [], [])) as ->.
  { unfold emitBody2d. rewrite (Hall seg) by apply list_elem_of_here.
    by rewrite Z.ltb_irrefl, Z.gtb_ltb, Z.ltb_irrefl. }
  apply IH. intros seg' Hin. apply Hall. by apply list_elem_of_further.
Qed.

Lemma findElements_conforming d bi t0 t1 :
  (forall seg, seg ∈ mi_iU (mergeInterfaceBoxes d bi t0 t1) -> vget seg 4 = vget seg 5) ->
  findElements d bi t0 t1 = (false, [], []).
Proof.
  intros Hall. unfold findElements.
  destruct (mi_axes0 _) as [[a0 b0] c0], (mi_axes1 _) as [[a1 b1] c1].
  by rewrite emitRefinements_conforming.
Qed.

Lemma findElements2d_conforming bi t0 t1 :
  let it := interfaceTables2d bi t0 t1 in
  mget (it_intfc0 it) (rows (it_intfc0 it) - 1) 1 =
    mget (it_intfc1 it) (rows (it_intfc1 it) - 1) 1 ->
  (forall seg, seg ∈ (mergeInterfaces (it_intfc0 it) (it_intfc1 it)).2 ->
     vget seg 1 = vget seg 2) ->
  findElements2d bi t0 t1 = Ok ([], []).
Proof.
  intros it Hend Hall. unfold findElements2d. fold it.
  rewrite Hend, Z.eqb_refl. cbn [GISMO_ASSERT bind].
  destruct (mergeInterfaces _ _) as [[i0 i1] intfcU]. cbn [snd] in Hall.
  destruct (emitRefinements2d_conforming bi (it_Lu it) (it_upperCorn0 it)
              (it_upperCorn1 it) (it_orientPreserv it) (it_dir1 it) intfcU Hall)
    as [knot1 ->].
  done.
Qed.

(** C6. On an interface whose merged segments all carry equal levels, no
    refinement box is emitted for either patch, the flag returned is [false]
    and the bases are left as they were; a second run does the same.  Empty
    lists of boxes are a normal result, not a failure. *)
Theorem conforming_interface {B : Type} `{PatchBasis B} (bi : boundaryInterface)
    (mb : gsMultiBasis B) (t0 t1 : gsHDomain) :
  castBases bi mb = Ok (t0, t1) ->
  ((dim mb = 2 \/ dim mb = 3) ->
   (forall seg, seg ∈ mi_iU (mergeInterfaceBoxes (dim mb) bi t0 t1) ->
      vget seg 4 = vget seg 5) ->
   repairInterfaceFindElements (dim mb) bi mb = Ok (false, [], []) /\
   repairInterface bi mb = Ok (false, mb) /\
   bind (repairInterface bi mb) (fun r => repairInterface bi r.2) = Ok (false, mb)) /\
  (let it := interfaceTables2d bi t0 t1 in
   mget (it_intfc0 it) (rows (it_intfc0 it) - 1) 1 =
     mget (it_intfc1 it) (rows (it_intfc1 it) - 1) 1 ->
   (forall seg, seg ∈ (mergeInterfaces (it_intfc0 it) (it_intfc1 it)).2 ->
      vget seg 1 = vget seg 2) ->
   findElements2d bi t0 t1 = Ok ([], []) /\
   repairInterface2d bi mb = Ok (false, mb) /\
   bind (repairInterface2d bi mb) (fun r => repairInterface2d bi r.2) = Ok (false, mb)).
Proof.
  intros Hcast. split.
  - intros Hdim Hall.
    assert (repairInterfaceFindElements (dim mb) bi mb = Ok (false, [], [])) as Hfind.
    { unfold repairInterfaceFindElements.
      destruct Hdim as [Hd | Hd]; rewrite Hd in *; cbn [GISMO_ASSERT Nat.eqb orb bind];
        rewrite Hcast; cbn [bind]; by rewrite findElements_conforming. }
    assert (repairInterface bi mb = Ok (false, mb)) as Hrepair.
    { unfold repairInterface.
      destruct Hdim as [Hd | Hd]; rewrite Hd in *; by rewrite Hfind. }
    split; [done|]. split; [done|].
    rewrite Hrepair. cbn [bind snd]. exact Hrepair.
  - intros it Hend Hall.
    assert (findElements2d bi t0 t1 = Ok ([], [])) as Hfind
      by by apply findElements2d_conforming.
    assert (repairInterface2d bi mb = Ok (false, mb)) as Hrepair.
    { unfold repairInterface2d. rewrite Hcast. cbn [bind]. by rewrite Hfind. }
    split; [done|]. split; [done|].
    rewrite Hrepair. cbn [bind snd]. exact Hrepair.
Qed.

(** Two patches with the same boundary elements: nothing to repair. *)
Lemma conforming_interface_witness :
  let bi := Scenario.east_west [true; true] in
  let mb := Scenario.patches 2 Scenario.fine Scenario.fine in
  castBases bi mb = Ok (Scenario.fine, Scenario.fine) /\
  repairInterface bi mb = Ok (false, mb) /\
  repairInterface2d bi mb = Ok (false, mb).
Proof.
  intros bi mb.
  assert (castBases bi mb = Ok (Scenario.fine, Scenario.fine)) as Hcast by reflexivity.
  destruct (conforming_interface bi mb Scenario.fine Scenario.fine Hcast)
    as [Hgen H2d].
  split; [exact Hcast|]. split.
  - apply Hgen; [by left|].
    intros seg Hin. change (seg ∈ [[0; 0; 2; 2; 3; 3]; [2; 2; 4; 4; 3; 3]]%Z) in Hin.
    apply elem_of_cons in Hin as [->|Hin]; [reflexivity|].
    apply list_elem_of_singleton in Hin as ->. reflexivity.
  - apply H2d; [reflexivity|].
    intros seg Hin. change (seg ∈ [[2; 3; 3]; [4; 3; 3]]%Z) in Hin.
    apply elem_of_cons in Hin as [->|Hin]; [reflexivity|].
    apply list_elem_of_singleton in Hin as ->. reflexivity.
Defined.

(** ** Assertions *)

Lemma mget_last (m : list (list Z)) (r : list Z) (j : nat) :
  last m = Some r -> mget m (rows m - 1) j = vget r j.
Proof.
  intros Hlast. unfold mget, rows.
  rewrite last_lookup in Hlast.
  replace (length m - 1) with (pred (length m)) by lia.
  by rewrite Hlast.
Qed.

(** C8, as the code has it.  [repairInterface2d] asserts that the last rows
    of the two sorted tables end at the same coordinate: when they do not, it
    fails with that assertion and refines nothing; when it returns, they do.
    ([repairInterfaceFindElements] makes no such check: the assertions on the
    matching of the two meshes are commented out there.) *)
Theorem final_extent_assertion (bi : boundaryInterface) (t0 t1 : gsHDomain)
    (row0 row1 : list Z) :
  let it := interfaceTables2d bi t0 t1 in
  last (it_intfc0 it) = Some row0 -> last (it_intfc1 it) = Some row1 ->
  (vget row0 1 ≠ vget row1 1 ->
   findElements2d bi t0 t1 =
     AssertionFailed " Something wrong with interfaces! Mark 264" /\
   forall (B : Type) (HB : PatchBasis B) (mb : gsMultiBasis B),
     castBases bi mb = Ok (t0, t1) ->
     repairInterface2d bi mb =
       AssertionFailed " Something wrong with interfaces! Mark 264") /\
  (forall out, findElements2d bi t0 t1 = Ok out -> vget row0 1 = vget row1 1) /\
  (forall (B : Type) (HB : PatchBasis B) (mb : gsMultiBasis B) out,
     castBases bi mb = Ok (t0, t1) ->
     repairInterface2d bi mb = Ok out -> vget row0 1 = vget row1 1).
Proof.
  intros it Hl0 Hl1.
  assert (vget row0 1 ≠ vget row1 1 ->
          findElements2d bi t0 t1 =
            AssertionFailed " Something wrong with interfaces! Mark 264") as Hfail.
  { intros Hne. unfold findElements2d. fold it.
    rewrite (mget_last _ _ 1 Hl0), (mget_last _ _ 1 Hl1).
    by rewrite (proj2 (Z.eqb_neq _ _) Hne). }
  split; [|split].
  - intros Hne. split; [by apply Hfail|].
    intros B HB mb Hcast. unfold repairInterface2d. rewrite Hcast. cbn [bind].
    by rewrite Hfail.
  - intros out Hout.
    destruct (decide (vget row0 1 = vget row1 1)) as [|Hne]; [done|].
    rewrite (Hfail Hne) in Hout. discriminate Hout.
  - intros B HB mb out Hcast Hout.
    destruct (decide (vget row0 1 = vget row1 1)) as [|Hne]; [done|].
    unfold repairInterface2d in Hout. rewrite Hcast in Hout. cbn [bind] in Hout.
    rewrite (Hfail Hne) in Hout. discriminate Hout.
Qed.

(** Scenario A passes the assertion: both tables end at 4. *)
Lemma final_extent_assertion_witness :
  let bi := Scenario.east_west [true; true] in
  let it := interfaceTables2d bi Scenario.coarse Scenario.fine in
  last (it_intfc0 it) = Some [0; 4; 2]%Z /\ last (it_intfc1 it) = Some [2; 4; 3]%Z /\
  findElements2d bi Scenario.coarse Scenario.fine =
    Ok ([3; 3; 0; 4; 2; 3; 3; 2; 4; 4]%Z, []) /\
  vget [0; 4; 2]%Z 1 = vget [2; 4; 3]%Z 1.
Proof.
  intros bi it.
  assert (last (it_intfc0 it) = Some [0; 4; 2]%Z) as Hl0 by reflexivity.
  assert (last (it_intfc1 it) = Some [2; 4; 3]%Z) as Hl1 by reflexivity.
  assert (findElements2d bi Scenario.coarse Scenario.fine =
            Ok ([3; 3; 0; 4; 2; 3; 3; 2; 4; 4]%Z, [])) as Hout by reflexivity.
  split; [exact Hl0|]. split; [exact Hl1|]. split; [exact Hout|].
  exact (proj1 (proj2 (final_extent_assertion bi Scenario.coarse Scenario.fine
                         _ _ Hl0 Hl1)) _ Hout).
Defined.

(** C8 as the specification states it fails on the general path: the boundary elements
    of the first side end at 4, those of the second at 2, and
    [repairInterface] returns and refines the first patch, where
    [repairInterface2d] fails its assertion. *)
Lemma final_extent_assertion_counterexample :
  let bi := Scenario.east_west [true; true] in
  let it := interfaceTables2d bi Scenario.coarse Scenario.short in
  let mb := Scenario.patches 2 Scenario.coarse Scenario.short in
  last (it_intfc0 it) = Some [0; 4; 2]%Z /\ last (it_intfc1 it) = Some [0; 2; 3]%Z /\
  repairInterfaceFindElements 2 bi mb = Ok (true, [3; 3; 0; 4; 2]%Z, []) /\
  (exists mb', repairInterface bi mb = Ok (true, mb') /\
               refineCalls mb' = [(0, [3; 3; 0; 4; 2]%Z)]) /\
  repairInterface2d bi mb =
    AssertionFailed " Something wrong with interfaces! Mark 264".
Proof.
  intros bi it mb.
  split; [reflexivity|]. split; [reflexivity|]. split; [reflexivity|].
  split; [|reflexivity].
  eexists. split; reflexivity.
Qed.

(** C9. [repairInterface] dispatches on the dimension [dim()]: for 2 and 3
    it runs [repairInterfaceFindElements<2>] and [<3>], which go past their
    assertion on the dimension; for any other dimension it fails with the
    assertion "wrong dimension", with no box emitted and no basis refined.
    [repairInterfaceFindElements<d>] itself asserts that [d] is 2 or 3. *)
Theorem dimension_dispatch {B : Type} `{PatchBasis B} (bi : boundaryInterface)
    (mb : gsMultiBasis B) :
  (dim mb ≠ 2 -> dim mb ≠ 3 -> repairInterface bi mb = AssertionFailed "wrong dimension") /\
  (dim mb = 2 \/ dim mb = 3 ->
   repairInterfaceFindElements (dim mb) bi mb =
     bind (castBases bi mb) (fun '(t0, t1) => Ok (findElements (dim mb) bi t0 t1)) /\
   forall t0 t1, castBases bi mb = Ok (t0, t1) ->
     exists out, repairInterface bi mb = Ok out) /\
  (forall d, d ≠ 2 -> d ≠ 3 ->
     repairInterfaceFindElements d bi mb = AssertionFailed "Dimension must be 2 or 3.").
Proof.
  split; [|split].
  - intros H2 H3. unfold repairInterface.
    destruct (dim mb) as [|[|[|[|?]]]]; done.
  - intros Hdim.
    assert (repairInterfaceFindElements (dim mb) bi mb =
            bind (castBases bi mb) (fun '(t0, t1) => Ok (findElements (dim mb) bi t0 t1)))
      as Hfind.
    { unfold repairInterfaceFindElements. by destruct Hdim as [-> | ->]. }
    split; [exact Hfind|].
    intros t0 t1 Hcast. rewrite Hcast in Hfind. cbn [bind] in Hfind.
    unfold repairInterface.
    destruct Hdim as [Hd | Hd]; rewrite Hd in *; rewrite Hfind; cbn [bind];
      destruct (findElements _ bi t0 t1) as [[changed rF] rS]; by eexists.
  - intros d H2 H3. unfold repairInterfaceFindElements.
    destruct d as [|[|[|[|?]]]]; done.
Qed.

(** A basis of dimension 4 is refused, one of dimension 2 is handled. *)
Lemma dimension_dispatch_witness :
  let bi := Scenario.east_west [true; true] in
  repairInterface bi (Scenario.patches 4 Scenario.coarse Scenario.fine) =
    AssertionFailed "wrong dimension" /\
  exists out, repairInterface bi (Scenario.patches 2 Scenario.coarse Scenario.fine) = Ok out.
Proof.
  intros bi. split.
  - apply (proj1 (dimension_dispatch bi (Scenario.patches 4 Scenario.coarse Scenario.fine)));
      cbn; lia.
  - apply (proj2 (proj1 (proj2
      (dimension_dispatch bi (Scenario.patches 2 Scenario.coarse Scenario.fine)))
      (or_introl eq_refl)) Scenario.coarse Scenario.fine).
    reflexivity.
Defined.

(** ** What is refined *)

Lemma nonempty_true {A : Type} (v : list A) : nonempty v = true <-> v ≠ [].
Proof. destruct v; cbn; split; done. Qed.

Lemma nonempty_or {A : Type} (v w : list A) :
  nonempty v || nonempty w = true <-> v ≠ [] \/ w ≠ [].
Proof. rewrite orb_true_iff, !nonempty_true. done. Qed.

Lemma repairInterfaceFindElements_changed {B : Type} `{PatchBasis B} d bi
    (mb : gsMultiBasis B) changed rF rS :
  repairInterfaceFindElements d bi mb = Ok (changed, rF, rS) ->
  changed = nonempty rF || nonempty rS.
Proof.
  unfold repairInterfaceFindElements.
  destruct (GISMO_ASSERT _ _); [|done]. cbn [bind].
  destruct (castBases bi mb) as [[t0 t1]|]; [|done]. cbn [bind].
  unfold findElements.
  destruct (mi_axes0 _) as [[a0 b0] c0], (mi_axes1 _) as [[a1 b1] c1].
  destruct (emitRefinements _ _ _ _ _ _ _ _ _ _ _ _) as [[tv rF'] rS'].
  by intros [= <- <- <-].
Qed.

(** The calls of [refineElements] made for the lists [r0] and [r1]: one for
    each list that is not empty. *)
Lemma refineAt_calls {B : Type} `{PatchBasis B} (bi : boundaryInterface)
    (mb : gsMultiBasis B) (r0 r1 : list Z) :
  let mb0 := if nonempty r0 then refineAt (patch (first bi)) r0 mb else mb in
  let mb1 := if nonempty r1 then refineAt (patch (second bi)) r1 mb0 else mb0 in
  refineCalls mb1 =
    refineCalls mb ++ (if nonempty r0 then [(patch (first bi), r0)] else [])
                   ++ (if nonempty r1 then [(patch (second bi), r1)] else []) /\
  (nonempty r0 || nonempty r1 = false -> mb1 = mb).
Proof.
  destruct (nonempty r0), (nonempty r1); cbn; rewrite ?app_nil_r, <- ?app_assoc; done.
Qed.

(** C10. When [repairInterface] or [repairInterface2d] returns, the flag it
    returns is [true] exactly when a box was emitted for one of the two
    patches; [refineElements] was called for a patch exactly when the list of
    boxes of that patch is not empty, with that list; and when the flag is
    [false] the bases are as they were before the call. *)
Theorem no_refinement_without_request {B : Type} `{PatchBasis B} (bi : boundaryInterface)
    (mb mb' : gsMultiBasis B) (changed : bool) :
  (repairInterface bi mb = Ok (changed, mb') ->
   exists refEltsFirst refEltsSecond,
     repairInterfaceFindElements (dim mb) bi mb = Ok (changed, refEltsFirst, refEltsSecond) /\
     (changed = true <-> refEltsFirst ≠ [] \/ refEltsSecond ≠ []) /\
     refineCalls mb' =
       refineCalls mb
       ++ (if nonempty refEltsFirst then [(patch (first bi), refEltsFirst)] else [])
       ++ (if nonempty refEltsSecond then [(patch (second bi), refEltsSecond)] else []) /\
     (changed = false -> mb' = mb)) /\
  (repairInterface2d bi mb = Ok (changed, mb') ->
   exists t0 t1 refElts0 refElts1,
     castBases bi mb = Ok (t0, t1) /\
     findElements2d bi t0 t1 = Ok (refElts0, refElts1) /\
     (changed = true <-> refElts0 ≠ [] \/ refElts1 ≠ []) /\
     refineCalls mb' =
       refineCalls mb
       ++ (if nonempty refElts0 then [(patch (first bi), refElts0)] else [])
       ++ (if nonempty refElts1 then [(patch (second bi), refElts1)] else []) /\
     (changed = false -> mb' = mb)).
Proof.
  split.
  - unfold repairInterface. intros Hrun.
    assert (exists r, repairInterfaceFindElements (dim mb) bi mb = Ok r /\
                      bind (Ok r)
                        (fun '(changed, refEltsFirst, refEltsSecond) =>
                           let mb :=
                             if changed then
                               let mb :=
                                 if nonempty refEltsFirst
                                 then refineAt (patch (first bi)) refEltsFirst mb else mb in
                               if nonempty refEltsSecond
                               then refineAt (patch (second bi)) refEltsSecond mb else mb
                             else mb in
                           Ok (changed, mb)) = Ok (changed, mb')) as (r & Hfind & Hrest).
    { destruct (dim mb) as [|[|[|[|?]]]]; try discriminate Hrun.
      - destruct (repairInterfaceFindElements 2 bi mb) as [r|]; [|discriminate Hrun].
        by exists r.
      - destruct (repairInterfaceFindElements 3 bi mb) as [r|]; [|discriminate Hrun].
        by exists r. }
    destruct r as [[ch rF] rS]. cbn [bind] in Hrest.
    pose proof (repairInterfaceFindElements_changed _ _ _ _ _ _ Hfind) as Hch.
    injection Hrest as <- <-.
    exists rF, rS. split; [done|].
    split; [rewrite Hch; apply nonempty_or|].
    destruct (refineAt_calls bi mb rF rS) as [Hcalls Hsame]. cbv zeta in Hcalls, Hsame.
    destruct ch.
    + split; [exact Hcalls|]. done.
    + symmetry in Hch. apply orb_false_iff in Hch as [-> ->].
      split; [by rewrite !app_nil_r|]. done.
  - unfold repairInterface2d. intros Hrun.
    destruct (castBases bi mb) as [[t0 t1]|]; [|discriminate Hrun]. cbn [bind] in Hrun.
    destruct (findElements2d bi t0 t1) as [[r0 r1]|] eqn:Hfind; [|discriminate Hrun].
    cbn [bind] in Hrun. injection Hrun as <- <-.
    exists t0, t1, r0, r1. split; [done|]. split; [done|].
    split; [apply nonempty_or|].
    destruct (refineAt_calls bi mb r0 r1) as [Hcalls Hsame]. cbv zeta in Hcalls, Hsame.
    split; [exact Hcalls|exact Hsame].
Qed.

(** Scenario A: the first patch is refined, the second is not called. *)
Lemma no_refinement_without_request_witness :
  let bi := Scenario.east_west [true; true] in
  let mb := Scenario.patches 2 Scenario.coarse Scenario.fine in
  let mb' := refineAt 0 [3; 3; 0; 4; 2; 3; 3; 2; 4; 4]%Z mb in
  repairInterface bi mb = Ok (true, mb') /\
  exists refEltsFirst refEltsSecond,
    repairInterfaceFindElements 2 bi mb = Ok (true, refEltsFirst, refEltsSecond) /\
    (refEltsFirst ≠ [] \/ refEltsSecond ≠ []) /\
    refineCalls mb' =
      (if nonempty refEltsFirst then [(0, refEltsFirst)] else [])
      ++ (if nonempty refEltsSecond then [(1, refEltsSecond)] else []).
Proof.
  intros bi mb mb'.
  assert (repairInterface bi mb = Ok (true, mb')) as Hrun by (vm_compute; reflexivity).
  split; [exact Hrun|].
  destruct (proj1 (no_refinement_without_request bi mb mb' true) Hrun)
    as (rF & rS & Hfind & Hiff & Hcalls & _).
  exists rF, rS. split; [exact Hfind|]. split; [by apply Hiff|exact Hcalls].
Defined.

(** ** Subtraction on [unsigned] that does not wrap around *)

Lemma sub_no_wrap (u x : Z) :
  U32.in_range u -> (0 <= x <= u)%Z -> U32.sub u x = (u - x)%Z.
Proof.
  unfold U32.in_range, U32.sub, U32.wrap. intros Hu Hx.
  apply Z.mod_small. lia.
Qed.

(** * Further properties *)

(** ** Merged segments of the general path *)

(** X1. When the boundary boxes of both sides have a positive extent along
    the two spanning directions, every merged segment of the general path is
    the segment of two boxes, has a positive extent along both directions, and
    lies inside both boxes. *)
Theorem overlap_segment_inside (lo0 up0 : matrix) (level0 : vec) (lo1 up1 : matrix)
    (level1 : vec) (a0 b0 a1 b1 : nat) (seg : list Z) :
  (forall i0, i0 < rows lo0 ->
     (mget lo0 i0 a0 < mget up0 i0 a0 /\ mget lo0 i0 b0 < mget up0 i0 b0)%Z) ->
  (forall i1, i1 < rows lo1 ->
     (mget lo1 i1 a1 < mget up1 i1 a1 /\ mget lo1 i1 b1 < mget up1 i1 b1)%Z) ->
  seg ∈ findOverlaps lo0 up0 level0 lo1 up1 level1 a0 b0 a1 b1 ->
  exists i0 i1,
    i0 < rows lo0 /\ i1 < rows lo1 /\
    seg = pairSegment lo0 up0 level0 lo1 up1 level1 a0 b0 a1 b1 i0 i1 /\
    (vget seg 0 < vget seg 2 /\ vget seg 1 < vget seg 3)%Z /\
    (mget lo0 i0 a0 <= vget seg 0 /\ vget seg 2 <= mget up0 i0 a0 /\
     mget lo0 i0 b0 <= vget seg 1 /\ vget seg 3 <= mget up0 i0 b0)%Z /\
    (mget lo1 i1 a1 <= vget seg 0 /\ vget seg 2 <= mget up1 i1 a1 /\
     mget lo1 i1 b1 <= vget seg 1 /\ vget seg 3 <= mget up1 i1 b1)%Z.
Proof.
  intros Hbox0 Hbox1. rewrite findOverlaps_eq.
  intros (i0 & Hin & Hi0%elem_of_seq)%list_elem_of_bind.
  apply list_elem_of_bind in Hin as (i1 & Hin & Hi1%elem_of_seq).
  case_decide as Hov; [|by apply elem_of_nil in Hin].
  apply list_elem_of_singleton in Hin as ->.
  destruct Hov as [[? ?] [? ?]].
  destruct (Hbox0 i0 ltac:(lia)) as [? ?], (Hbox1 i1 ltac:(lia)) as [? ?].
  exists i0, i1. split; [lia|]. split; [lia|]. split; [done|].
  unfold pairSegment, vget. cbn [lookup list_lookup default from_option id].
  repeat split; lia.
Qed.

Lemma overlap_segment_inside_witness :
  exists i0 i1,
    i0 < 1 /\ i1 < 1 /\
    [1; 1; 2; 2; 1; 2]%Z =
      pairSegment (sb_lo Scenario.boxA) (sb_up Scenario.boxA) (sb_level Scenario.boxA)
        (sb_lo Scenario.boxB) (sb_up Scenario.boxB) (sb_level Scenario.boxB) 1 2 1 2 i0 i1.
Proof.
  destruct (overlap_segment_inside
              (sb_lo Scenario.boxA) (sb_up Scenario.boxA) (sb_level Scenario.boxA)
              (sb_lo Scenario.boxB) (sb_up Scenario.boxB) (sb_level Scenario.boxB)
              1 2 1 2 [1; 1; 2; 2; 1; 2]%Z)
    as (i0 & i1 & H0 & H1 & Hseg & _).
  - intros [|i0] Hi0; [|cbn in Hi0; lia]. split; reflexivity.
  - intros [|i1] Hi1; [|cbn in Hi1; lia]. split; reflexivity.
  - apply list_elem_of_here.
  - exists i0, i1. split; [exact H0|]. split; [exact H1|exact Hseg].
Defined.

(** X2. The orientation mapping keeps a boundary box of the second side in
    the domain: when the interval of the box along a direction (at the
    reference level) lies in [[0, upperCorn1]], so does the mapped interval,
    with the same length and its lower end first; nothing wraps around. *)
Theorem orientation_keeps_domain (n1 d : nat) (e : Z) (dm : list nat) (dor : list bool)
    (upper : vec) (lo1 up1 : matrix) (i jj : nat) :
  let j := dmap dm jj in
  let lo := U32.shl (mget lo1 i j) e in
  let up := U32.shl (mget up1 i j) e in
  let c := cell (i, j) (orientBoxes1 d e dm dor upper (lo1, up1)) in
  is_permutation d dm -> mat_dims n1 d lo1 -> mat_dims n1 d up1 ->
  i < n1 -> jj < d ->
  U32.in_range (vget upper j) -> (0 <= lo <= up)%Z -> (up <= vget upper j)%Z ->
  (0 <= c.1 <= c.2)%Z /\ (c.2 <= vget upper j)%Z /\ (c.2 - c.1 = up - lo)%Z.
Proof.
  cbv zeta. intros Hp Hlo Hup Hi Hjj Hu Hord Hdom.
  rewrite (orientBoxes1_spec n1 d) by done.
  unfold orientInterval. destruct (dorient dor jj); cbn [fst snd].
  - lia.
  - rewrite !sub_no_wrap by (done || lia). lia.
Qed.

Lemma orientation_keeps_domain_witness :
  let s := orientBoxes1 2 0 [0; 1] [true; false] [4; 4]%Z ([[0; 1]]%Z, [[1; 2]]%Z) in
  let c := cell (0, 1) s in
  c = (2, 3)%Z /\ (0 <= c.1 <= c.2)%Z /\ (c.2 <= 4)%Z /\ (c.2 - c.1 = 2 - 1)%Z.
Proof.
  intros s c. split; [reflexivity|].
  apply (orientation_keeps_domain 1 2 0 [0; 1] [true; false] [4; 4]%Z
           [[0; 1]]%Z [[1; 2]]%Z 0 1); try by_evaluation; lia.
Defined.

(** ** The sorted merge: order and coverage *)

Lemma mergeLoop_invariant (P : mergeState -> Prop) (intfc0 intfc1 : list (list Z))
    (fuel : nat) (st : mergeState) :
  (forall st, mergeGuard intfc0 intfc1 st = true -> P st ->
              P (mergeStep intfc0 intfc1 st)) ->
  P st -> P (mergeLoop fuel intfc0 intfc1 st).
Proof.
  intros Hstep. revert st. induction fuel as [|fuel IH]; intros st Hst; cbn; [done|].
  destruct (mergeGuard intfc0 intfc1 st) eqn:Hg; [|done].
  apply IH. by apply Hstep.
Qed.

Lemma StronglySorted_snoc (l : list Z) (y : Z) :
  StronglySorted Z.lt l -> Forall (fun x => (x < y)%Z) l ->
  StronglySorted Z.lt (l ++ [y]).
Proof.
  induction l as [|x l IH]; intros Hs Hall; cbn.
  - by repeat constructor.
  - apply StronglySorted_inv in Hs as [Hs Hx].
    apply Forall_cons in Hall as [Hxy Hall].
    constructor; [by apply IH|].
    apply Forall_app. split; [done|]. by constructor.
Qed.

Lemma StronglySorted_last_max (l : list Z) (x y : Z) :
  StronglySorted Z.lt l -> x ∈ l -> last l = Some y -> (x <= y)%Z.
Proof.
  induction l as [|z l IH]; intros Hs Hin Hlast; [by apply elem_of_nil in Hin|].
  apply StronglySorted_inv in Hs as [Hs Hz].
  destruct l as [|z' l].
  - apply list_elem_of_singleton in Hin as ->. cbn in Hlast. injection Hlast as ->. lia.
  - change (last (z' :: l) = Some y) in Hlast.
    apply elem_of_cons in Hin as [->|Hin].
    + assert (y ∈ z' :: l) as Hy.
      { rewrite last_lookup in Hlast. by eapply list_elem_of_lookup_2. }
      eapply (Forall_forall _ (z' :: l)) in Hz; [|exact Hy]. lia.
    + by apply IH.
Qed.

Lemma endsIncreasing_le (t : list (list Z)) (i j : nat) :
  endsIncreasing t -> i <= j -> j < rows t -> (mget t i 1 <= mget t j 1)%Z.
Proof.
  intros Hinc Hij Hj. destruct (decide (i = j)) as [->|Hne]; [lia|].
  apply Z.lt_le_incl, Hinc; lia.
Qed.

Lemma mergeStep_invariant (intfc0 intfc1 : list (list Z)) (st : mergeState) :
  endsIncreasing intfc0 -> endsIncreasing intfc1 ->
  mget intfc0 (rows intfc0 - 1) 1 = mget intfc1 (rows intfc1 - 1) 1 ->
  mergeGuard intfc0 intfc1 st = true ->
  mergeInvariant intfc0 intfc1 st ->
  mergeInvariant intfc0 intfc1 (mergeStep intfc0 intfc1 st).
Proof.
  intros Hinc0 Hinc1 Hfinal Hguard. destruct st as [[i0 i1] intfcU].
  unfold mergeGuard in Hguard.
  apply andb_true_iff in Hguard as [Hi0%Nat.ltb_lt Hi1%Nat.ltb_lt].
  intros (_ & Hbelow & Hsorted & Hcover).
  rewrite mergeStep_spec. cbv zeta.
  set (end0 := mget intfc0 i0 1) in *. set (end1 := mget intfc1 i1 1) in *.
  pose proof (endsIncreasing_le intfc0 i0 (rows intfc0 - 1) Hinc0 ltac:(lia) ltac:(lia))
    as Hlast0.
  pose proof (endsIncreasing_le intfc1 i1 (rows intfc1 - 1) Hinc1 ltac:(lia) ltac:(lia))
    as Hlast1.
  fold end0 in Hlast0. fold end1 in Hlast1.
  assert (forall i, i0 < i -> i < rows intfc0 -> (end0 < mget intfc0 i 1)%Z) as Hnext0
    by (intros; by apply Hinc0).
  assert (forall i, i1 < i -> i < rows intfc1 -> (end1 < mget intfc1 i 1)%Z) as Hnext1
    by (intros; by apply Hinc1).
  assert (Forall (fun x => (x < Z.min end0 end1)%Z) (segmentEnds intfcU)) as Hlt.
  { eapply Forall_impl; [exact Hbelow|]. cbn. intros x [H0 H1].
    specialize (H0 Hi0). specialize (H1 Hi1). lia. }
  unfold mergeInvariant, segmentEnds. rewrite map_app. cbn [map].
  change (vget [Z.min end0 end1; mget intfc0 i0 2; mget intfc1 i1 2] 0)
    with (Z.min end0 end1).
  fold (segmentEnds intfcU).
  assert (i0 = rows intfc0 - 1 -> (end1 <= end0)%Z) as Hend0.
  { intros Heq. rewrite <- Heq in Hfinal. fold end0 in Hfinal. lia. }
  assert (i1 = rows intfc1 - 1 -> (end0 <= end1)%Z) as Hend1.
  { intros Heq. rewrite <- Heq in Hfinal. fold end1 in Hfinal. lia. }
  destruct (Z.leb_spec end0 end1) as [Hle01|Hgt01];
    destruct (Z.leb_spec end1 end0) as [Hle10|Hgt10]; try lia.
  - (* a tie: both cursors advance *)
    split.
    { destruct (decide (S i0 < rows intfc0)) as [Hs0|Hs0].
      - left. split; [done|].
        destruct (decide (S i1 < rows intfc1)); [done|].
        assert (i1 = rows intfc1 - 1) as Heq by lia.
        specialize (Hnext0 (rows intfc0 - 1) ltac:(lia) ltac:(lia)).
        rewrite <- Heq in Hfinal. fold end1 in Hfinal. lia.
      - right. split; [lia|].
        destruct (decide (S i1 < rows intfc1)) as [Hs1|Hs1]; [|lia].
        assert (i0 = rows intfc0 - 1) as Heq by lia.
        specialize (Hnext1 (rows intfc1 - 1) ltac:(lia) ltac:(lia)).
        rewrite <- Heq in Hfinal. fold end0 in Hfinal. lia. }
    split.
    { apply Forall_app. split.
      - eapply Forall_impl; [exact Hlt|]. cbn. intros x Hx. split; intros Hs.
        + specialize (Hnext0 (S i0) ltac:(lia) Hs). lia.
        + specialize (Hnext1 (S i1) ltac:(lia) Hs). lia.
      - constructor; [|constructor]. split; intros Hs.
        + specialize (Hnext0 (S i0) ltac:(lia) Hs). lia.
        + specialize (Hnext1 (S i1) ltac:(lia) Hs). lia. }
    split; [by apply StronglySorted_snoc|].
    intros x. rewrite elem_of_app, list_elem_of_singleton, Hcover. split.
    + intros [[(i & Hi & Hx)|(i & Hi & Hx)]| ->].
      * left. exists i. split; [lia|done].
      * right. exists i. split; [lia|done].
      * left. exists i0. split; [lia|]. fold end0. lia.
    + intros [(i & Hi & Hx)|(i & Hi & Hx)].
      * destruct (decide (i = i0)) as [->|Hne].
        -- right. fold end0 in Hx. lia.
        -- left. left. exists i. split; [lia|done].
      * destruct (decide (i = i1)) as [->|Hne].
        -- right. fold end1 in Hx. lia.
        -- left. right. exists i. split; [lia|done].
  - (* the first side ends first *)
    split.
    { left. split; [|done].
      destruct (decide (S i0 < rows intfc0)); [done|].
      assert (i0 = rows intfc0 - 1) as Heq by lia. specialize (Hend0 Heq). lia. }
    split.
    { apply Forall_app. split.
      - eapply Forall_impl; [exact Hlt|]. cbn. intros x Hx. split; intros Hs.
        + specialize (Hnext0 (S i0) ltac:(lia) Hs). lia.
        + fold end1. lia.
      - constructor; [|constructor]. split; intros Hs.
        + specialize (Hnext0 (S i0) ltac:(lia) Hs). lia.
        + fold end1. lia. }
    split; [by apply StronglySorted_snoc|].
    intros x. rewrite elem_of_app, list_elem_of_singleton, Hcover. split.
    + intros [[(i & Hi & Hx)|(i & Hi & Hx)]| ->].
      * left. exists i. split; [lia|done].
      * right. exists i. split; [lia|done].
      * left. exists i0. split; [lia|]. fold end0. lia.
    + intros [(i & Hi & Hx)|(i & Hi & Hx)].
      * destruct (decide (i = i0)) as [->|Hne].
        -- right. fold end0 in Hx. lia.
        -- left. left. exists i. split; [lia|done].
      * left. right. exists i. split; [lia|done].
  - (* the second side ends first *)
    split.
    { left. split; [done|].
      destruct (decide (S i1 < rows intfc1)); [done|].
      assert (i1 = rows intfc1 - 1) as Heq by lia. specialize (Hend1 Heq). lia. }
    split.
    { apply Forall_app. split.
      - eapply Forall_impl; [exact Hlt|]. cbn. intros x Hx. split; intros Hs.
        + fold end0. lia.
        + specialize (Hnext1 (S i1) ltac:(lia) Hs). lia.
      - constructor; [|constructor]. split; intros Hs.
        + fold end0. lia.
        + specialize (Hnext1 (S i1) ltac:(lia) Hs). lia. }
    split; [by apply StronglySorted_snoc|].
    intros x. rewrite elem_of_app, list_elem_of_singleton, Hcover. split.
    + intros [[(i & Hi & Hx)|(i & Hi & Hx)]| ->].
      * left. exists i. split; [lia|done].
      * right. exists i. split; [lia|done].
      * right. exists i1. split; [lia|]. fold end1. lia.
    + intros [(i & Hi & Hx)|(i & Hi & Hx)].
      * left. left. exists i. split; [lia|done].
      * destruct (decide (i = i1)) as [->|Hne].
        -- right. fold end1 in Hx. lia.
        -- left. right. exists i. split; [lia|done].
Qed.

(** X3. When both tables are not empty, their end coordinates grow from row
    to row and their last rows end at the same coordinate (what
    [repairInterface2d] asserts), the merging loop passes every row of both
    tables; the merged segments end at growing coordinates, which are exactly
    the end coordinates of the rows of the two tables, the last one being the
    common final coordinate. *)
Theorem merge_covers_both_sides (intfc0 intfc1 : list (list Z)) :
  0 < rows intfc0 -> 0 < rows intfc1 ->
  endsIncreasing intfc0 -> endsIncreasing intfc1 ->
  mget intfc0 (rows intfc0 - 1) 1 = mget intfc1 (rows intfc1 - 1) 1 ->
  exists intfcU,
    mergeInterfaces intfc0 intfc1 = (rows intfc0, rows intfc1, intfcU) /\
    StronglySorted Z.lt (segmentEnds intfcU) /\
    (forall x, x ∈ segmentEnds intfcU <->
       (exists i, i < rows intfc0 /\ mget intfc0 i 1 = x) \/
       (exists i, i < rows intfc1 /\ mget intfc1 i 1 = x)) /\
    last (segmentEnds intfcU) = Some (mget intfc0 (rows intfc0 - 1) 1).
Proof.
  intros Hn0 Hn1 Hinc0 Hinc1 Hfinal.
  assert (mergeInvariant intfc0 intfc1 (mergeInterfaces intfc0 intfc1)) as Hinv.
  { unfold mergeInterfaces. apply mergeLoop_invariant.
    - intros st. by apply mergeStep_invariant.
    - cbn. split; [left; lia|]. split; [constructor|]. split; [constructor|].
      intros x. split.
      + intros Hin. by apply elem_of_nil in Hin.
      + intros [(i & Hi & _)|(i & Hi & _)]; lia. }
  assert (mergeGuard intfc0 intfc1 (mergeInterfaces intfc0 intfc1) = false) as Hexit.
  { unfold mergeInterfaces. apply mergeLoop_exits. cbn. lia. }
  destruct (mergeInterfaces intfc0 intfc1) as [[i0 i1] intfcU].
  destruct Hinv as (Hcursors & _ & Hsorted & Hcover).
  unfold mergeGuard in Hexit. apply andb_false_iff in Hexit.
  assert (i0 = rows intfc0 /\ i1 = rows intfc1) as [-> ->].
  { destruct Hcursors as [[H0 H1]|?]; [|done].
    destruct Hexit as [Hexit|Hexit]; apply Nat.ltb_ge in Hexit; lia. }
  exists intfcU. split; [done|]. split; [done|]. split; [done|].
  assert (mget intfc0 (rows intfc0 - 1) 1 ∈ segmentEnds intfcU) as Hin.
  { apply Hcover. left. exists (rows intfc0 - 1). split; [lia|done]. }
  destruct (last (segmentEnds intfcU)) as [y|] eqn:Hlast.
  - f_equal. apply Z.le_antisymm.
    + assert (y ∈ segmentEnds intfcU) as Hy.
      { rewrite last_lookup in Hlast. by eapply list_elem_of_lookup_2. }
      apply Hcover in Hy as [(i & Hi & <-)|(i & Hi & <-)].
      * apply endsIncreasing_le; [done|lia|lia].
      * rewrite Hfinal. apply endsIncreasing_le; [done|lia|lia].
    + by apply (StronglySorted_last_max (segmentEnds intfcU)).
  - apply last_None in Hlast. rewrite Hlast in Hin. by apply elem_of_nil in Hin.
Qed.

(** Scenario A: one row on the first side, two on the second. *)
Lemma merge_covers_both_sides_witness :
  let it := interfaceTables2d (Scenario.east_west [true; true])
              Scenario.coarse Scenario.fine in
  exists intfcU,
    mergeInterfaces (it_intfc0 it) (it_intfc1 it) = (1, 2, intfcU) /\
    last (segmentEnds intfcU) = Some 4%Z.
Proof.
  intros it.
  destruct (merge_covers_both_sides (it_intfc0 it) (it_intfc1 it))
    as (intfcU & Hrun & _ & _ & Hlast).
  - vm_compute. lia.
  - vm_compute. lia.
  - intros i j Hij Hj. vm_compute in Hj. lia.
  - intros i j Hij Hj. vm_compute in Hj.
    destruct i as [|i], j as [|[|j]]; try lia. reflexivity.
  - reflexivity.
  - exists intfcU. split; [exact Hrun|exact Hlast].
Defined.

(** ** The lists of refinement boxes as a whole *)

Lemma mi_axes_eq d bi t0 t1 :
  mi_axes0 (mergeInterfaceBoxes d bi t0 t1) = spanDirections d (direction (first bi)) /\
  mi_axes1 (mergeInterfaceBoxes d bi t0 t1) =
    (dmap (dirMap bi) (spanDirections d (direction (first bi))).1.1,
     dmap (dirMap bi) (spanDirections d (direction (first bi))).1.2,
     dmap (dirMap bi) (spanDirections d (direction (first bi))).2).
Proof.
  unfold mergeInterfaceBoxes.
  destruct (shiftBoxes0 _ _ _), (orientBoxes1 _ _ _ _ _ _), (spanDirections _ _) as [[? ?] ?].
  done.
Qed.

(** [repairInterfaceFindElements<d>] on a well-formed interface, in one
    equation. *)
Lemma findElements_eq d bi t0 t1 :
  wellFormed d bi ->
  let mi := mergeInterfaceBoxes d bi t0 t1 in
  let a0 := (spanDirections d (direction (first bi))).1.1 in
  let b0 := (spanDirections d (direction (first bi))).1.2 in
  let c0 := (spanDirections d (direction (first bi))).2 in
  let rF := mi_iU mi ≫= requestsFirst d bi (mi_Lu mi) (mi_upperCorn0 mi) a0 c0 in
  let rS := mi_iU mi ≫=
            requestsSecond d bi (mi_Lu mi) (mi_upperCorn1 mi) a0 b0
              (dmap (dirMap bi) a0) (dmap (dirMap bi) c0) in
  findElements d bi t0 t1 = (nonempty rF || nonempty rS, rF, rS).
Proof.
  intros Hwf mi a0 b0 c0 rF rS. unfold findElements. fold mi.
  destruct (mi_axes_eq d bi t0 t1) as [Hax0 Hax1]. fold mi in Hax0, Hax1.
  rewrite Hax0, Hax1.
  destruct (spanDirections d (direction (first bi))) as [[a b] c] eqn:Hspan.
  cbn [fst snd] in *.
  pose proof (emitRefinements_spec d bi (mi_Lu mi) (mi_upperCorn0 mi) (mi_upperCorn1 mi)
                (mi_iU mi) Hwf) as Hspec.
  cbv zeta in Hspec. rewrite Hspan in Hspec. cbn [fst snd] in Hspec.
  destruct (emitRefinements _ _ _ _ _ _ _ _ _ _ _ _) as [[tv rF'] rS'].
  cbn [fst snd] in Hspec. destruct Hspec as [-> ->]. done.
Qed.

(** [repairInterface2d] up to its two lists, when both sides are sides of a
    patch of the plane and the assertion on the final coordinates holds. *)
Lemma findElements2d_eq bi t0 t1 :
  planarSide (side_index (first bi)) -> planarSide (side_index (second bi)) ->
  let it := interfaceTables2d bi t0 t1 in
  let intfcU := (mergeInterfaces (it_intfc0 it) (it_intfc1 it)).2 in
  mget (it_intfc0 it) (rows (it_intfc0 it) - 1) 1 =
    mget (it_intfc1 it) (rows (it_intfc1 it) - 1) 1 ->
  findElements2d bi t0 t1 =
    Ok (requestsAlong (requests2dFirst bi (it_Lu it) (it_upperCorn0 it)) 0 intfcU,
        requestsAlong
          (requests2dSecond bi (it_Lu it) (it_upperCorn1 it) (it_orientPreserv it)
             (it_dir1 it)) 0 intfcU).
Proof.
  intros Hs0 Hs1 it intfcU Hend. unfold findElements2d. fold it.
  rewrite Hend, Z.eqb_refl. cbn [GISMO_ASSERT bind].
  subst intfcU. destruct (mergeInterfaces _ _) as [[i0 i1] intfcU]. cbn [snd].
  destruct (emitRefinements2d_spec bi (it_Lu it) (it_upperCorn0 it) (it_upperCorn1 it)
              (it_orientPreserv it) (it_dir1 it) intfcU Hs0 Hs1) as [knot1 ->].
  done.
Qed.

Lemma nonempty_bind {A : Type} (f : A -> list Z) (l : list A) :
  nonempty (l ≫= f) = true <-> exists x, x ∈ l /\ f x ≠ [].
Proof.
  rewrite nonempty_true. induction l as [|x l IH]; cbn.
  - split; [done|]. intros (x & Hin & _). by apply elem_of_nil in Hin.
  - split.
    + intros Hne. destruct (decide (f x = [])) as [Heq|Hfx].
      * rewrite Heq in Hne. cbn in Hne. apply IH in Hne as (y & Hy & Hfy).
        exists y. split; [by apply list_elem_of_further|done].
      * exists x. split; [apply list_elem_of_here|done].
    + intros (y & Hy & Hfy). apply elem_of_cons in Hy as [->|Hy].
      * intros Happ. by apply app_eq_nil in Happ as [? _].
      * intros Happ. apply app_eq_nil in Happ as [_ Hnil].
        apply IH; [|done]. by exists y.
Qed.

Lemma length_bind_blocks {A : Type} (f : A -> list Z) (P : A -> Prop)
    `{forall x, Decision (P x)} (n : nat) (l : list A) :
  (forall x, P x -> length (f x) = n) -> (forall x, ~ P x -> f x = []) ->
  length (l ≫= f) = n * length (filter P l).
Proof.
  intros Hyes Hno. induction l as [|x l IH]; [cbn; lia|].
  change ((x :: l) ≫= f) with (f x ++ (l ≫= f)).
  rewrite length_app, IH, filter_cons. destruct (decide (P x)) as [HP|HP].
  - rewrite (Hyes x HP). cbn [length]. lia.
  - rewrite (Hno x HP). cbn [length]. lia.
Qed.

Lemma requestsFirst_nil d bi Lu U0 a0 c0 seg :
  requestsFirst d bi Lu U0 a0 c0 seg ≠ [] <-> (vget seg 4 < vget seg 5)%Z.
Proof.
  unfold requestsFirst, requestFirst, refinementBox.
  destruct (Z.ltb_spec (vget seg 4) (vget seg 5)); split; try done; lia.
Qed.

Lemma requestsSecond_nil d bi Lu U1 a0 b0 a1 c1 seg :
  requestsSecond d bi Lu U1 a0 b0 a1 c1 seg ≠ [] <-> (vget seg 5 < vget seg 4)%Z.
Proof.
  unfold requestsSecond, requestSecond, refinementBox.
  destruct (Z.ltb_spec (vget seg 5) (vget seg 4)); split; try done; lia.
Qed.

Lemma requestsAlong_nonempty (request : Z -> list Z -> list Z) (P : list Z -> Prop)
    (knot0 : Z) (intfcU : list (list Z)) :
  (forall k seg, request k seg ≠ [] <-> P seg) ->
  requestsAlong request knot0 intfcU ≠ [] <-> exists seg, seg ∈ intfcU /\ P seg.
Proof.
  intros Hreq. revert knot0. induction intfcU as [|seg intfcU IH]; intros knot0; cbn.
  - split; [done|]. intros (x & Hin & _). by apply elem_of_nil in Hin.
  - split.
    + intros Hne. destruct (decide (request knot0 seg = [])) as [Heq|Hfx].
      * rewrite Heq in Hne. cbn in Hne. apply IH in Hne as (y & Hy & Hfy).
        exists y. split; [by apply list_elem_of_further|done].
      * exists seg. split; [apply list_elem_of_here|by apply (Hreq knot0)].
    + intros (y & Hy & Hfy). apply elem_of_cons in Hy as [->|Hy].
      * intros Happ. apply app_eq_nil in Happ as [Hnil _].
        by apply (Hreq knot0 seg).
      * intros Happ. apply app_eq_nil in Happ as [_ Hnil].
        apply (IH (vget seg 0)); [|done]. by exists y.
Qed.

Lemma requests2dFirst_nil bi Lu U0 knot0 seg :
  requests2dFirst bi Lu U0 knot0 seg ≠ [] <-> (vget seg 1 < vget seg 2)%Z.
Proof.
  unfold requests2dFirst, request2d, refinementBox.
  destruct (Z.ltb_spec (vget seg 1) (vget seg 2)); split; try done; lia.
Qed.

Lemma requests2dSecond_nil bi Lu U1 orientPreserv dir1 knot0 seg :
  requests2dSecond bi Lu U1 orientPreserv dir1 knot0 seg ≠ [] <->
  (vget seg 2 < vget seg 1)%Z.
Proof.
  unfold requests2dSecond, request2d, refinementBox.
  destruct (Z.ltb_spec (vget seg 2) (vget seg 1)); split; try done; lia.
Qed.

(** X4. On a well-formed interface [repairInterfaceFindElements<d>] returns
    [true] exactly when some merged segment carries two different levels;
    likewise [repairInterface2d], once past its assertion, emits a box exactly
    when some merged segment does. *)
Theorem changed_iff_mismatch :
  (forall d bi t0 t1,
     wellFormed d bi ->
     (findElements d bi t0 t1).1.1 = true <->
     exists seg, seg ∈ mi_iU (mergeInterfaceBoxes d bi t0 t1) /\ mismatched seg) /\
  (forall bi t0 t1,
     let it := interfaceTables2d bi t0 t1 in
     planarSide (side_index (first bi)) -> planarSide (side_index (second bi)) ->
     mget (it_intfc0 it) (rows (it_intfc0 it) - 1) 1 =
       mget (it_intfc1 it) (rows (it_intfc1 it) - 1) 1 ->
     exists refElts0 refElts1,
       findElements2d bi t0 t1 = Ok (refElts0, refElts1) /\
       (nonempty refElts0 || nonempty refElts1 = true <->
        exists seg, seg ∈ (mergeInterfaces (it_intfc0 it) (it_intfc1 it)).2 /\
                    mismatched2d seg)).
Proof.
  split.
  - intros d bi t0 t1 Hwf. rewrite findElements_eq by done. cbn [fst].
    rewrite orb_true_iff, !nonempty_bind. unfold mismatched. split.
    + intros [(seg & Hin & Hreq)|(seg & Hin & Hreq)]; exists seg; (split; [done|]).
      * apply requestsFirst_nil in Hreq. lia.
      * apply requestsSecond_nil in Hreq. lia.
    + intros (seg & Hin & Hne).
      destruct (Z.lt_ge_cases (vget seg 4) (vget seg 5)) as [Hlt|Hge].
      * left. exists seg. split; [done|]. by apply requestsFirst_nil.
      * right. exists seg. split; [done|]. apply requestsSecond_nil. lia.
  - intros bi t0 t1 it Hs0 Hs1 Hend.
    eexists _, _. split; [by apply findElements2d_eq|].
    rewrite nonempty_or.
    rewrite (requestsAlong_nonempty _ (fun seg => (vget seg 1 < vget seg 2)%Z))
      by (intros; apply requests2dFirst_nil).
    rewrite (requestsAlong_nonempty _ (fun seg => (vget seg 2 < vget seg 1)%Z))
      by (intros; apply requests2dSecond_nil).
    unfold mismatched2d. split.
    + intros [(seg & Hin & Hlt)|(seg & Hin & Hlt)]; exists seg; (split; [done|lia]).
    + intros (seg & Hin & Hne).
      destruct (Z.lt_ge_cases (vget seg 1) (vget seg 2)) as [Hlt|Hge].
      * left. by exists seg.
      * right. exists seg. split; [done|lia].
Qed.

(** Scenario A: both segments carry the levels (2, 3). *)
Lemma changed_iff_mismatch_witness :
  let bi := Scenario.east_west [true; true] in
  wellFormed 2 bi /\
  (findElements 2 bi Scenario.coarse Scenario.fine).1.1 = true.
Proof.
  intros bi.
  assert (wellFormed 2 bi) as Hwf by by_evaluation.
  split; [exact Hwf|].
  apply (proj1 changed_iff_mismatch 2 bi Scenario.coarse Scenario.fine Hwf).
  exists [0; 0; 2; 2; 2; 3]%Z. split; [apply list_elem_of_here|].
  vm_compute. discriminate.
Defined.

Lemma length_requestsAlong (request : Z -> list Z -> list Z) (P : list Z -> Prop)
    `{forall seg, Decision (P seg)} (n : nat) (knot0 : Z) (intfcU : list (list Z)) :
  (forall k seg, P seg -> length (request k seg) = n) ->
  (forall k seg, ~ P seg -> request k seg = []) ->
  length (requestsAlong request knot0 intfcU) = n * length (filter P intfcU).
Proof.
  intros Hyes Hno. revert knot0.
  induction intfcU as [|seg intfcU IH]; intros knot0; [cbn; lia|].
  cbn [requestsAlong]. rewrite length_app, IH, filter_cons.
  destruct (decide (P seg)) as [HP|HP].
  - rewrite (Hyes knot0 seg HP). cbn [length]. lia.
  - rewrite (Hno knot0 seg HP). cbn [length]. lia.
Qed.

(** X5. The list of boxes that [repairInterfaceFindElements<d>] fills for a
    patch holds [1 + 2d] numbers for each merged segment on which the level of
    that patch is the lower one, and nothing else; the lists of
    [repairInterface2d] hold 5 numbers for each such segment. *)
Theorem request_lists_in_boxes :
  (forall d bi t0 t1,
     wellFormed d bi ->
     let iU := mi_iU (mergeInterfaceBoxes d bi t0 t1) in
     let out := findElements d bi t0 t1 in
     length out.1.2 =
       (1 + 2 * d) * length (filter (fun seg => (vget seg 4 < vget seg 5)%Z) iU) /\
     length out.2 =
       (1 + 2 * d) * length (filter (fun seg => (vget seg 5 < vget seg 4)%Z) iU)) /\
  (forall bi t0 t1,
     let it := interfaceTables2d bi t0 t1 in
     let intfcU := (mergeInterfaces (it_intfc0 it) (it_intfc1 it)).2 in
     planarSide (side_index (first bi)) -> planarSide (side_index (second bi)) ->
     mget (it_intfc0 it) (rows (it_intfc0 it) - 1) 1 =
       mget (it_intfc1 it) (rows (it_intfc1 it) - 1) 1 ->
     exists refElts0 refElts1,
       findElements2d bi t0 t1 = Ok (refElts0, refElts1) /\
       length refElts0 =
         5 * length (filter (fun seg => (vget seg 1 < vget seg 2)%Z) intfcU) /\
       length refElts1 =
         5 * length (filter (fun seg => (vget seg 2 < vget seg 1)%Z) intfcU)).
Proof.
  split.
  - intros d bi t0 t1 Hwf iU out. subst out. rewrite findElements_eq by done.
    cbn [fst snd]. fold iU. split.
    + apply length_bind_blocks.
      * intros seg Hlt. unfold requestsFirst, requestFirst.
        rewrite (proj2 (Z.ltb_lt _ _) Hlt). apply refinementBox_length.
      * intros seg Hge. unfold requestsFirst.
        by rewrite (proj2 (Z.ltb_ge _ _)) by lia.
    + apply length_bind_blocks.
      * intros seg Hlt. unfold requestsSecond, requestSecond.
        rewrite (proj2 (Z.ltb_lt _ _) Hlt). apply refinementBox_length.
      * intros seg Hge. unfold requestsSecond.
        by rewrite (proj2 (Z.ltb_ge _ _)) by lia.
  - intros bi t0 t1 it intfcU Hs0 Hs1 Hend.
    eexists _, _. split; [by apply findElements2d_eq|]. fold it intfcU. split.
    + apply length_requestsAlong.
      * intros k seg Hlt. unfold requests2dFirst, request2d.
        rewrite (proj2 (Z.ltb_lt _ _) Hlt). apply refinementBox_length.
      * intros k seg Hge. unfold requests2dFirst.
        by rewrite (proj2 (Z.ltb_ge _ _)) by lia.
    + apply length_requestsAlong.
      * intros k seg Hlt. unfold requests2dSecond, request2d.
        rewrite (proj2 (Z.ltb_lt _ _) Hlt). apply refinementBox_length.
      * intros k seg Hge. unfold requests2dSecond.
        by rewrite (proj2 (Z.ltb_ge _ _)) by lia.
Qed.

(** Scenario A: two segments ask the first patch for a box of 5 numbers
    each. *)
Lemma request_lists_in_boxes_witness :
  let bi := Scenario.east_west [true; true] in
  wellFormed 2 bi /\
  length (findElements 2 bi Scenario.coarse Scenario.fine).1.2 = 10.
Proof.
  intros bi.
  assert (wellFormed 2 bi) as Hwf by by_evaluation.
  split; [exact Hwf|].
  exact (proj1 (proj1 request_lists_in_boxes 2 bi Scenario.coarse Scenario.fine Hwf)).
Defined.

(** ** Failures of repairInterface2d and of the casts *)

Lemma fold_bind_failed {A S : Type} (f : A -> S -> result S) (l : list A) (msg : string) :
  fold_left (fun r x => bind r (f x)) l (AssertionFailed msg) = AssertionFailed msg.
Proof. induction l as [|x l IH]; [done|]. cbn. exact IH. Qed.

Lemma emitBody2d_outcome bi Lu U0 U1 orientPreserv dir1 seg st :
  (exists st', emitBody2d bi Lu U0 U1 orientPreserv dir1 seg st = Ok st') \/
  emitBody2d bi Lu U0 U1 orientPreserv dir1 seg st =
    AssertionFailed "3D not implemented yet. You can do it, if you want.".
Proof.
  destruct st as [[knot1 r0] r1]. unfold emitBody2d.
  destruct (vget seg 1 <? vget seg 2)%Z.
  - destruct (side_index (first bi)) as [|[|[|[|[|?]]]]]; eauto.
  - destruct (vget seg 1 >? vget seg 2)%Z; [|eauto].
    destruct (negb orientPreserv);
      destruct (side_index (second bi)) as [|[|[|[|[|?]]]]]; eauto.
Qed.

Lemma emitBody2d_unmapped bi Lu U0 U1 orientPreserv dir1 seg st :
  ((vget seg 1 < vget seg 2)%Z /\ ~ planarSide (side_index (first bi))) \/
  ((vget seg 2 < vget seg 1)%Z /\ ~ planarSide (side_index (second bi))) ->
  emitBody2d bi Lu U0 U1 orientPreserv dir1 seg st =
    AssertionFailed "3D not implemented yet. You can do it, if you want.".
Proof.
  destruct st as [[knot1 r0] r1]. unfold emitBody2d, planarSide.
  intros [[Hlt Hside]|[Hlt Hside]].
  - rewrite (proj2 (Z.ltb_lt _ _) Hlt).
    destruct (side_index (first bi)) as [|[|[|[|[|?]]]]]; try done; lia.
  - rewrite (proj2 (Z.ltb_ge _ _)) by lia.
    rewrite Z.gtb_ltb, (proj2 (Z.ltb_lt _ _) Hlt).
    destruct (negb orientPreserv);
      destruct (side_index (second bi)) as [|[|[|[|[|?]]]]]; try done; lia.
Qed.

(** X6. [repairInterface2d] knows the four sides of a patch of the plane
    only: when a merged segment asks for a box on a patch whose side has
    another index, the function fails with the assertion of its [default]
    case, whatever the other segments are, and no basis is refined. *)
Theorem unmapped_side_fails (bi : boundaryInterface) (t0 t1 : gsHDomain) (seg : list Z) :
  let it := interfaceTables2d bi t0 t1 in
  mget (it_intfc0 it) (rows (it_intfc0 it) - 1) 1 =
    mget (it_intfc1 it) (rows (it_intfc1 it) - 1) 1 ->
  seg ∈ (mergeInterfaces (it_intfc0 it) (it_intfc1 it)).2 ->
  ((vget seg 1 < vget seg 2)%Z /\ ~ planarSide (side_index (first bi))) \/
  ((vget seg 2 < vget seg 1)%Z /\ ~ planarSide (side_index (second bi))) ->
  findElements2d bi t0 t1 =
    AssertionFailed "3D not implemented yet. You can do it, if you want." /\
  forall (B : Type) (HB : PatchBasis B) (mb : gsMultiBasis B),
    castBases bi mb = Ok (t0, t1) ->
    repairInterface2d bi mb =
      AssertionFailed "3D not implemented yet. You can do it, if you want.".
Proof.
  intros it Hend Hin Hbad.
  assert (findElements2d bi t0 t1 =
          AssertionFailed "3D not implemented yet. You can do it, if you want.") as Hfail.
  { unfold findElements2d. fold it. rewrite Hend, Z.eqb_refl. cbn [GISMO_ASSERT bind].
    destruct (mergeInterfaces _ _) as [[i0 i1] intfcU]. cbn [snd] in Hin.
    assert (emitRefinements2d bi (it_Lu it) (it_upperCorn0 it) (it_upperCorn1 it)
              (it_orientPreserv it) (it_dir1 it) intfcU =
            AssertionFailed "3D not implemented yet. You can do it, if you want.") as ->;
      [|done].
    unfold emitRefinements2d. generalize (0%Z, @nil Z, @nil Z). clear Hend.
    induction intfcU as [|seg' intfcU IH]; intros st; [by apply elem_of_nil in Hin|].
    cbn [fold_left bind].
    apply elem_of_cons in Hin as [<-|Hin].
    - rewrite emitBody2d_unmapped by done. apply fold_bind_failed.
    - destruct (emitBody2d_outcome bi (it_Lu it) (it_upperCorn0 it) (it_upperCorn1 it)
                  (it_orientPreserv it) (it_dir1 it) seg' st) as [[st' ->]| ->].
      + by apply IH.
      + apply fold_bind_failed. }
  split; [exact Hfail|].
  intros B HB mb Hcast. unfold repairInterface2d. rewrite Hcast. cbn [bind].
  by rewrite Hfail.
Qed.

(** The scenario A between the back side (6) of the first patch and the west
    side of the second. *)
Lemma unmapped_side_fails_witness :
  let bi := {| first := {| patch := 0; side_index := 6; direction := 0 |};
               second := {| patch := 1; side_index := 1; direction := 0 |};
               dirMap := [0; 1]; dirOrientation := [true; true] |} in
  findElements2d bi Scenario.coarse Scenario.fine =
    AssertionFailed "3D not implemented yet. You can do it, if you want.".
Proof.
  intros bi.
  apply (unmapped_side_fails bi Scenario.coarse Scenario.fine [2; 2; 3]%Z).
  - reflexivity.
  - apply list_elem_of_here.
  - left. split; [reflexivity|]. unfold planarSide. cbn. lia.
Defined.

(** X7. When both patches of the interface are stored and the basis of one
    of them is not a hierarchical one (the [dynamic_cast] gives null), both
    functions fail: [repairInterface2d] with the assertion on the casts,
    [repairInterface] with that assertion when [dim()] is 2 or 3 and with a
    failure in every case. *)
Theorem non_hierarchical_basis_fails {B : Type} `{PatchBasis B} (bi : boundaryInterface)
    (mb : gsMultiBasis B) (b0 b1 : B) :
  m_bases mb !! patch (first bi) = Some b0 ->
  m_bases mb !! patch (second bi) = Some b1 ->
  hdomain b0 = None \/ hdomain b1 = None ->
  repairInterface2d bi mb = AssertionFailed "Cannot cast basis as needed." /\
  (dim mb = 2 \/ dim mb = 3 ->
   repairInterface bi mb = AssertionFailed "Cannot cast basis as needed.") /\
  (forall r, repairInterface bi mb <> Ok r).
Proof.
  intros Hb0 Hb1 Hnone.
  assert (castBases bi mb = AssertionFailed "Cannot cast basis as needed.") as Hcast.
  { unfold castBases. rewrite Hb0, Hb1. cbn.
    destruct Hnone as [-> | ->]; [done|]. by destruct (hdomain b0). }
  assert (forall d, d = 2 \/ d = 3 ->
            repairInterfaceFindElements d bi mb =
              AssertionFailed "Cannot cast basis as needed.") as Hfind.
  { intros d [-> | ->]; unfold repairInterfaceFindElements; cbn [Nat.eqb orb GISMO_ASSERT bind];
      by rewrite Hcast. }
  split; [|split].
  - unfold repairInterface2d. by rewrite Hcast.
  - intros [Hd|Hd]; unfold repairInterface; rewrite Hd, Hfind by auto; done.
  - intros r. unfold repairInterface.
    destruct (dim mb) as [|[|[|[|?]]]]; try done; rewrite Hfind by auto; done.
Qed.

(** Two stored patches, the second with a basis that is not hierarchical. *)
Lemma non_hierarchical_basis_fails_witness :
  let bi := Scenario.east_west [true; true] in
  let b0 := {| Scenario.b_tree := Some Scenario.coarse; Scenario.b_refined := [] |} in
  let b1 := {| Scenario.b_tree := None; Scenario.b_refined := [] |} in
  let mb := {| m_bases := [b0; b1]; dim := 2; refineCalls := [] |} in
  repairInterface2d bi mb = AssertionFailed "Cannot cast basis as needed." /\
  repairInterface bi mb = AssertionFailed "Cannot cast basis as needed.".
Proof.
  intros bi b0 b1 mb.
  destruct (non_hierarchical_basis_fails bi mb b0 b1) as (H2d & Hgen & _).
  - reflexivity.
  - reflexivity.
  - right. reflexivity.
  - split; [exact H2d|]. apply Hgen. left. reflexivity.
Defined.

(** ** What a repair leaves alone *)

Lemma sameOutside_refl {B : Type} (p0 p1 : nat) (mb : gsMultiBasis B) :
  sameOutside p0 p1 mb mb.
Proof. by repeat split. Qed.

Lemma sameOutside_refineAt {B : Type} `{PatchBasis B} (p0 p1 q : nat) (boxes : list Z)
    (mb mb' : gsMultiBasis B) :
  q = p0 \/ q = p1 ->
  sameOutside p0 p1 mb mb' ->
  sameOutside p0 p1 mb (refineAt q boxes mb').
Proof.
  intros Hq (Hdim & Hlen & Hother). unfold sameOutside, refineAt. cbn.
  split; [done|]. split; [by rewrite length_alter|].
  intros p Hp0 Hp1. rewrite list_lookup_alter_ne by (destruct Hq; congruence).
  by apply Hother.
Qed.

Lemma sameOutside_refineBoth {B : Type} `{PatchBasis B} (p0 p1 : nat)
    (r0 r1 : list Z) (mb : gsMultiBasis B) :
  sameOutside p0 p1 mb
    (let mb' := if nonempty r0 then refineAt p0 r0 mb else mb in
     if nonempty r1 then refineAt p1 r1 mb' else mb').
Proof.
  cbv zeta.
  destruct (nonempty r0), (nonempty r1);
    repeat (apply sameOutside_refineAt; [auto|]); apply sameOutside_refl.
Qed.

(** X8. A repair that returns changes nothing but the bases of the two
    patches of the interface: [dim()], the number of bases and the basis of
    every other patch are those of the multi-basis it was given, in
    [repairInterface] and in [repairInterface2d]; and a basis it leaves at
    one of the two patches is the old one or the old one refined. *)
Theorem repair_frame {B : Type} `{PatchBasis B} (bi : boundaryInterface)
    (mb mb' : gsMultiBasis B) (changed : bool) :
  repairInterface bi mb = Ok (changed, mb') \/
  repairInterface2d bi mb = Ok (changed, mb') ->
  sameOutside (patch (first bi)) (patch (second bi)) mb mb' /\
  (patch (first bi) <> patch (second bi) ->
   forall p b', m_bases mb' !! p = Some b' ->
     exists b, m_bases mb !! p = Some b /\
       (b' = b \/ exists boxes, nonempty boxes = true /\ b' = refineElements boxes b)).
Proof.
  intros Hrun.
  assert (exists r0 r1,
            mb' = (let mb1 := if nonempty r0
                              then refineAt (patch (first bi)) r0 mb else mb in
                   if nonempty r1 then refineAt (patch (second bi)) r1 mb1 else mb1))
    as (r0 & r1 & ->).
  { destruct Hrun as [Hrun|Hrun].
    - unfold repairInterface in Hrun.
      destruct (match dim mb with
                | 2 => repairInterfaceFindElements 2 bi mb
                | 3 => repairInterfaceFindElements 3 bi mb
                | _ => AssertionFailed "wrong dimension"
                end) as [[[c r0] r1]|msg]; [|done].
      cbn [bind] in Hrun. injection Hrun as <- <-.
      destruct c.
      + by exists r0, r1.
      + exists [], []. done.
    - unfold repairInterface2d in Hrun.
      destruct (castBases bi mb) as [[t0 t1]|msg]; [|done]. cbn [bind] in Hrun.
      destruct (findElements2d bi t0 t1) as [[r0 r1]|msg]; [|done]. cbn [bind] in Hrun.
      injection Hrun as <- <-. by exists r0, r1. }
  split; [apply sameOutside_refineBoth|].
  intros Hne p b'. cbv zeta.
  destruct (nonempty r0) eqn:H0, (nonempty r1) eqn:H1; unfold refineAt; cbn [m_bases].
  - destruct (decide (p = patch (second bi))) as [->|Hp1].
    + rewrite list_lookup_alter_eq, list_lookup_alter_ne by done.
      destruct (m_bases mb !! patch (second bi)) as [b|]; [|done].
      cbn. intros [= <-]. exists b. split; [done|]. right. by exists r1.
    + rewrite list_lookup_alter_ne by done.
      destruct (decide (p = patch (first bi))) as [->|Hp0].
      * rewrite list_lookup_alter_eq.
        destruct (m_bases mb !! patch (first bi)) as [b|]; [|done].
        cbn. intros [= <-]. exists b. split; [done|]. right. by exists r0.
      * rewrite list_lookup_alter_ne by done. intros ->. eauto.
  - destruct (decide (p = patch (first bi))) as [->|Hp0].
    + rewrite list_lookup_alter_eq.
      destruct (m_bases mb !! patch (first bi)) as [b|]; [|done].
      cbn. intros [= <-]. exists b. split; [done|]. right. by exists r0.
    + rewrite list_lookup_alter_ne by done. intros ->. eauto.
  - destruct (decide (p = patch (second bi))) as [->|Hp1].
    + rewrite list_lookup_alter_eq.
      destruct (m_bases mb !! patch (second bi)) as [b|]; [|done].
      cbn. intros [= <-]. exists b. split; [done|]. right. by exists r1.
    + rewrite list_lookup_alter_ne by done. intros ->. eauto.
  - intros ->. eauto.
Qed.

(** Scenario A with a third patch beside the two of the interface. *)
Lemma repair_frame_witness :
  let bi := Scenario.east_west [true; true] in
  let other := {| Scenario.b_tree := None; Scenario.b_refined := [] |} in
  let mb := {| m_bases := m_bases (Scenario.patches 2 Scenario.coarse Scenario.fine)
                          ++ [other];
               dim := 2; refineCalls := [] |} in
  let mb' := refineAt 0 [3; 3; 0; 4; 2; 3; 3; 2; 4; 4]%Z mb in
  repairInterface2d bi mb = Ok (true, mb') /\
  sameOutside 0 1 mb mb' /\ m_bases mb' !! 2 = Some other.
Proof.
  intros bi other mb mb'.
  assert (repairInterface2d bi mb = Ok (true, mb')) as Hrun by (vm_compute; reflexivity).
  split; [exact Hrun|].
  split; [exact (proj1 (repair_frame bi mb mb' true (or_intror Hrun)))|reflexivity].
Defined.

(** ** The flip of the second table *)

Lemma fold_alter_seq {A : Type} (f : A -> A) (pre l : list A) :
  fold_left (fun m i => alter f i m) (seq (length pre) (length l)) (pre ++ l) =
  pre ++ map f l.
Proof.
  revert pre. induction l as [|x l IH]; intros pre; [done|].
  cbn [length seq fold_left map].
  replace (alter f (length pre) (pre ++ x :: l)) with ((pre ++ [f x]) ++ l).
  - specialize (IH (pre ++ [f x])). rewrite length_app in IH. cbn [length] in IH.
    replace (length pre + 1) with (S (length pre)) in IH by lia.
    rewrite IH. by rewrite <- app_assoc.
  - rewrite <- app_assoc. cbn [app].
    replace (length pre) with (length pre + 0) at 1 by lia.
    by rewrite alter_app_r.
Qed.

Lemma fold_left_body_ext {A T : Type} (f g : A -> T -> A) (l : list T) (a : A) :
  (forall a t, f a t = g a t) -> fold_left f l a = fold_left g l a.
Proof.
  intros Hfg. revert a. induction l as [|t l IH]; intros a; [done|].
  cbn. by rewrite Hfg, IH.
Qed.

Lemma flipBody_alter (upper : Z) (m : matrix) (i : nat) :
  (let tmp := U32.sub upper (mget m i 1) in
   let m' := mset m i 1 (U32.sub upper (mget m i 0)) in
   mset m' i 0 tmp) = alter (flipRow upper) i m.
Proof.
  cbv zeta. unfold mset, mget. apply list_eq. intros k.
  destruct (decide (k = i)) as [->|Hk].
  - rewrite !list_lookup_alter_eq. destruct (m !! i) as [row|]; done.
  - by rewrite !list_lookup_alter_ne.
Qed.

Lemma flipRow_involutive (upper : Z) (row : list Z) :
  2 <= length row -> vec_in_range row -> flipRow upper (flipRow upper row) = row.
Proof.
  intros Hlen Hrange.
  assert (forall j, U32.in_range (vget row j)) as Hget.
  { intros j. unfold vget. destruct (row !! j) as [x|] eqn:Hj; simpl.
    - by apply (Forall_lookup_1 _ _ _ _ Hrange Hj).
    - unfold U32.in_range, U32.modulus. lia. }
  assert (length (flipRow upper row) = length row) as Hlen'.
  { unfold flipRow, vset. by rewrite !length_insert. }
  apply vec_ext.
  { unfold flipRow at 1, vset. by rewrite !length_insert. }
  intros j. unfold flipRow at 1.
  destruct (decide (j = 0)) as [->|Hj0].
  - rewrite vget_vset_eq by (unfold vset; rewrite length_insert; lia).
    unfold flipRow. rewrite vget_vset_ne by done.
    rewrite vget_vset_eq by lia. by apply U32Facts.sub_sub_cancel.
  - rewrite vget_vset_ne by done.
    destruct (decide (j = 1)) as [->|Hj1].
    + rewrite vget_vset_eq by lia.
      unfold flipRow. rewrite vget_vset_eq by (unfold vset; rewrite length_insert; lia).
      by apply U32Facts.sub_sub_cancel.
    + rewrite vget_vset_ne by done. unfold flipRow. by rewrite !vget_vset_ne.
Qed.

(** X9. The loop of lines 524-533, which flips the knot indices of the
    second table when the orientation is reversed, maps every row
    [(lo, up, ...)] to [(upper - up, upper - lo, ...)] (on [unsigned]) and
    leaves the number of rows; run twice on a table of [unsigned] entries
    with at least two columns it gives the table back. *)
Theorem flip_table_rows (upper : Z) (intfc1 : matrix) :
  flipTable upper intfc1 = map (flipRow upper) intfc1 /\
  rows (flipTable upper intfc1) = rows intfc1 /\
  (Forall (fun row => 2 <= length row /\ vec_in_range row) intfc1 ->
   flipTable upper (flipTable upper intfc1) = intfc1).
Proof.
  assert (forall m, flipTable upper m = map (flipRow upper) m) as Hmap.
  { intros m. unfold flipTable, for_loop, rows.
    rewrite (fold_left_body_ext _ (fun m i => alter (flipRow upper) i m))
      by (intros; apply flipBody_alter).
    apply (fold_alter_seq (flipRow upper) [] m). }
  split; [apply Hmap|]. split.
  - rewrite Hmap. unfold rows. by rewrite length_map.
  - intros Hrows. rewrite !Hmap, map_map.
    rewrite <- (map_id intfc1) at 2. apply map_ext_in.
    intros row Hin. apply list_elem_of_In in Hin.
    destruct (proj1 (Forall_forall _ _) Hrows row Hin) as [Hlen Hrange].
    by apply flipRow_involutive.
Qed.

(** ** Degrees of a multi-basis *)

Lemma fold_max_spec {B : Type} (f : B -> Z) (l : list B) (r0 : Z) :
  let r := fold_left (fun result b => Z.max (f b) result) l r0 in
  (r0 <= r)%Z /\ (forall b, b ∈ l -> (f b <= r)%Z) /\
  (r = r0 \/ exists b, b ∈ l /\ f b = r).
Proof.
  revert r0. induction l as [|b l IH]; intros r0; cbn.
  { split; [lia|]. split; [|by left]. intros b Hb. by apply elem_of_nil in Hb. }
  destruct (IH (Z.max (f b) r0)) as (Hle & Hall & Hatt).
  split; [lia|]. split.
  - intros b' Hb'. apply elem_of_cons in Hb' as [->|Hb']; [lia|by apply Hall].
  - destruct Hatt as [Heq|(b' & Hb' & Heq)].
    + destruct (Z.max_spec (f b) r0) as [[_ Hm]|[_ Hm]].
      * left. lia.
      * right. exists b. split; [apply list_elem_of_here|lia].
    + right. exists b'. split; [by apply list_elem_of_further|done].
Qed.

Lemma fold_min_spec {B : Type} (f : B -> Z) (l : list B) (r0 : Z) :
  let r := fold_left (fun result b => Z.min (f b) result) l r0 in
  (r <= r0)%Z /\ (forall b, b ∈ l -> (r <= f b)%Z) /\
  (r = r0 \/ exists b, b ∈ l /\ f b = r).
Proof.
  revert r0. induction l as [|b l IH]; intros r0; cbn.
  { split; [lia|]. split; [|by left]. intros b Hb. by apply elem_of_nil in Hb. }
  destruct (IH (Z.min (f b) r0)) as (Hle & Hall & Hatt).
  split; [lia|]. split.
  - intros b' Hb'. apply elem_of_cons in Hb' as [->|Hb']; [lia|by apply Hall].
  - destruct Hatt as [Heq|(b' & Hb' & Heq)].
    + destruct (Z.min_spec (f b) r0) as [[_ Hm]|[_ Hm]].
      * right. exists b. split; [apply list_elem_of_here|lia].
      * left. lia.
    + right. exists b'. split; [by apply list_elem_of_further|done].
Qed.

(** The greatest and the least value of [f] over the list [l]. *)
Lemma greatest_of_fold {B : Type} (f : B -> Z) (b0 : B) (l : list B) :
  let r := fold_left (fun result b => Z.max (f b) result) (b0 :: l) (f b0) in
  (forall b, b ∈ b0 :: l -> (f b <= r)%Z) /\ exists b, b ∈ b0 :: l /\ f b = r.
Proof.
  intros r. destruct (fold_max_spec f (b0 :: l) (f b0)) as (_ & Hall & Hatt).
  split; [exact Hall|].
  destruct Hatt as [Heq|Hatt]; [|exact Hatt].
  exists b0. split; [apply list_elem_of_here|by symmetry].
Qed.

Lemma least_of_fold {B : Type} (f : B -> Z) (b0 : B) (l : list B) :
  let r := fold_left (fun result b => Z.min (f b) result) (b0 :: l) (f b0) in
  (forall b, b ∈ b0 :: l -> (r <= f b)%Z) /\ exists b, b ∈ b0 :: l /\ f b = r.
Proof.
  intros r. destruct (fold_min_spec f (b0 :: l) (f b0)) as (_ & Hall & Hatt).
  split; [exact Hall|].
  destruct Hatt as [Heq|Hatt]; [|exact Hatt].
  exists b0. split; [apply list_elem_of_here|by symmetry].
Qed.

Lemma maxDegree_fold {B : Type} `{BasisDegrees B} (l : list B) (k r0 : Z) :
  fold_left (fun result b => if (degree b k >? result)%Z then degree b k else result) l r0 =
  fold_left (fun result b => Z.max (degree b k) result) l r0.
Proof.
  apply fold_left_body_ext. intros r b.
  rewrite Z.gtb_ltb. destruct (Z.ltb_spec r (degree b k)); lia.
Qed.

Lemma minDegree_fold {B : Type} `{BasisDegrees B} (l : list B) (k r0 : Z) :
  fold_left (fun result b => if (degree b k <? result)%Z then degree b k else result) l r0 =
  fold_left (fun result b => Z.min (degree b k) result) l r0.
Proof.
  apply fold_left_body_ext. intros r b.
  destruct (Z.ltb_spec (degree b k) r); lia.
Qed.

Lemma degree_extrema_aux {B : Type} `{BasisDegrees B} (mb : gsMultiBasis B) (k : Z) :
  (m_bases mb = [] ->
   maxDegree mb k = AssertionFailed "Empty multibasis." /\
   minDegree mb k = AssertionFailed "Empty multibasis.") /\
  (m_bases mb <> [] ->
   exists lo hi,
     minDegree mb k = Ok lo /\ maxDegree mb k = Ok hi /\
     (forall b, b ∈ m_bases mb -> (lo <= degree b k <= hi)%Z) /\
     (exists b, b ∈ m_bases mb /\ degree b k = lo) /\
     (exists b, b ∈ m_bases mb /\ degree b k = hi)).
Proof.
  unfold maxDegree, minDegree. destruct (m_bases mb) as [|b0 l]; split; try done.
  intros _. rewrite maxDegree_fold, minDegree_fold.
  destruct (greatest_of_fold (fun b => degree b k) b0 l) as [Hmax Hmax'].
  destruct (least_of_fold (fun b => degree b k) b0 l) as [Hmin Hmin'].
  eexists _, _. split; [done|]. split; [done|].
  split; [|by split].
  intros b Hb. split; [by apply Hmin|by apply Hmax].
Qed.

(** X10. [maxDegree(k)] and [minDegree(k)] fail with the assertion on an
    empty multi-basis, and nowhere else; on a multi-basis with bases they
    give the greatest and the least of the degrees [degree(k)] of its bases:
    a bound of all of them that one basis attains. *)
Theorem degree_extrema {B : Type} `{BasisDegrees B} (mb : gsMultiBasis B) (k : Z) :
  (m_bases mb = [] ->
   maxDegree mb k = AssertionFailed "Empty multibasis." /\
   minDegree mb k = AssertionFailed "Empty multibasis.") /\
  (m_bases mb <> [] ->
   exists lo hi,
     minDegree mb k = Ok lo /\ maxDegree mb k = Ok hi /\
     (forall b, b ∈ m_bases mb -> (lo <= degree b k <= hi)%Z) /\
     (exists b, b ∈ m_bases mb /\ degree b k = lo) /\
     (exists b, b ∈ m_bases mb /\ degree b k = hi)).
Proof. exact (degree_extrema_aux mb k). Qed.

(** X11. [maxCwiseDegree()] and [minCwiseDegree()] fail on an empty
    multi-basis; otherwise they give the greatest [maxDegree()] and the least
    [minDegree()] of the bases.  When [degree(k)] of every basis lies between
    its [minDegree()] and its [maxDegree()], the four results are in the order
    [minCwiseDegree() <= minDegree(k) <= maxDegree(k) <= maxCwiseDegree()]. *)
Theorem cwise_degree_extrema {B : Type} `{BasisDegrees B} (mb : gsMultiBasis B) (k : Z) :
  m_bases mb <> [] ->
  (forall b, b ∈ m_bases mb -> (basisMinDegree b <= degree b k <= basisMaxDegree b)%Z) ->
  exists lo hi lok hik,
    minCwiseDegree mb = Ok lo /\ maxCwiseDegree mb = Ok hi /\
    minDegree mb k = Ok lok /\ maxDegree mb k = Ok hik /\
    (forall b, b ∈ m_bases mb -> (lo <= basisMinDegree b)%Z /\ (basisMaxDegree b <= hi)%Z) /\
    (exists b, b ∈ m_bases mb /\ basisMinDegree b = lo) /\
    (exists b, b ∈ m_bases mb /\ basisMaxDegree b = hi) /\
    (lo <= lok <= hik)%Z /\ (hik <= hi)%Z.
Proof.
  intros Hne Hdeg.
  destruct (proj2 (degree_extrema_aux mb k) Hne)
    as (lok & hik & Hmin & Hmax & Hall & (bl & Hbl & Hlo) & (bh & Hbh & Hhi)).
  unfold maxCwiseDegree, minCwiseDegree. destruct (m_bases mb) as [|b0 l] eqn:Hb; [done|].
  destruct (greatest_of_fold basisMaxDegree b0 l) as [Hcmax Hcmax'].
  destruct (least_of_fold basisMinDegree b0 l) as [Hcmin Hcmin'].
  eexists _, _, lok, hik. split; [done|]. split; [done|].
  split; [done|]. split; [done|].
  split; [|split; [done|split; [done|]]].
  - intros b Hin. split; [by apply Hcmin|by apply Hcmax].
  - specialize (Hcmin bl Hbl). specialize (Hcmax bh Hbh).
    pose proof (Hdeg bl Hbl). pose proof (Hdeg bh Hbh).
    pose proof (Hall bl Hbl). lia.
Qed.

Lemma cwise_degree_extrema_witness :
  exists lo hi lok hik,
    minCwiseDegree Example.twoPatches = Ok lo /\
    maxCwiseDegree Example.twoPatches = Ok hi /\
    minDegree Example.twoPatches 1 = Ok lok /\
    maxDegree Example.twoPatches 1 = Ok hik /\
    (lo <= lok <= hik)%Z /\ (hik <= hi)%Z.
Proof.
  assert (m_bases Example.twoPatches <> []) as Hne by discriminate.
  assert (forall b, b ∈ m_bases Example.twoPatches ->
            (basisMinDegree b <= degree b 1 <= basisMaxDegree b)%Z) as Hdeg.
  { intros b Hb. cbn in Hb.
    apply elem_of_cons in Hb as [->|Hb]; [vm_compute; split; discriminate|].
    apply elem_of_cons in Hb as [->|Hb]; [vm_compute; split; discriminate|].
    by apply elem_of_nil in Hb. }
  destruct (cwise_degree_extrema Example.twoPatches 1 Hne Hdeg)
    as (lo & hi & lok & hik & H1 & H2 & H3 & H4 & _ & _ & _ & H5 & H6).
  exists lo, hi, lok, hik. auto 10.
Defined.

(** ** The container of bases: findBasisIndex, addBasis, addInterface *)

Lemma findBasisIndex_Ok {P : Type} `{EqDecision P} (l : list P) (g : P) (i : nat) :
  findBasisIndex l g = Ok i <->
  l !! i = Some g /\ forall j, j < i -> l !! j <> Some g.
Proof.
  unfold findBasisIndex. split.
  - destruct (list_find (fun b => b = g) l) as [[i' x]|] eqn:Hfind; [|done].
    intros [= ->]. apply list_find_Some in Hfind as (Hi & -> & Hfirst).
    split; [done|]. intros j Hj Hjg. by apply (Hfirst j g).
  - intros [Hi Hfirst].
    assert (list_find (fun b => b = g) l = Some (i, g)) as ->; [|done].
    apply list_find_Some. split; [done|]. split; [done|].
    intros j y Hj Hlt ->. by apply (Hfirst j).
Qed.

Lemma findBasisIndex_fails {P : Type} `{EqDecision P} (l : list P) (g : P) :
  findBasisIndex l g = AssertionFailed "it != m_bases.end()" <-> g ∉ l.
Proof.
  unfold findBasisIndex.
  destruct (list_find (fun b => b = g) l) as [[i x]|] eqn:Hfind.
  - apply list_find_Some in Hfind as (Hi & -> & _).
    split; [done|]. intros Hnot. destruct Hnot. by eapply list_elem_of_lookup_2.
  - split; [|done]. intros _ Hin.
    apply list_find_None in Hfind.
    by apply (proj1 (Forall_forall _ _) Hfind g Hin).
Qed.

(** X12. [findBasisIndex] gives the first position of [m_bases] that holds
    the pointer, also when the pointer is stored more than once, and its
    assertion fails exactly when the pointer is not stored; there is no other
    outcome. *)
Theorem findBasisIndex_first {P : Type} `{EqDecision P} (m_bases : list P) (g : P) :
  (forall i, findBasisIndex m_bases g = Ok i <->
             m_bases !! i = Some g /\ forall j, j < i -> m_bases !! j <> Some g) /\
  (findBasisIndex m_bases g = AssertionFailed "it != m_bases.end()" <-> g ∉ m_bases) /\
  (g ∈ m_bases -> exists i, findBasisIndex m_bases g = Ok i /\ i < length m_bases).
Proof.
  split; [intros i; apply findBasisIndex_Ok|]. split; [apply findBasisIndex_fails|].
  intros Hin. destruct (findBasisIndex m_bases g) as [i|msg] eqn:Hfind.
  - exists i. split; [done|]. apply findBasisIndex_Ok in Hfind as [Hi _].
    by apply lookup_lt_Some in Hi.
  - exfalso. revert Hfind. unfold findBasisIndex.
    destruct (list_find _ _) as [[? ?]|] eqn:Hl; [done|]. intros _.
    apply list_find_None in Hl. by apply (proj1 (Forall_forall _ _) Hl g Hin).
Qed.

Lemma addBasis_bases {P T : Type} `{BoxTopology T} (dimOf : P -> Z) (g : P)
    (s s' : basisStore P T) :
  addBasis dimOf g s = Ok s' -> bs_bases s' = bs_bases s ++ [g].
Proof.
  unfold addBasis.
  destruct (top_dim (bs_topology s) =? -1)%Z; cbn [bind].
  - by intros [= <-].
  - destruct (dimOf g =? top_dim (bs_topology s))%Z; cbn; [|done]. by intros [= <-].
Qed.

(** X13. [addBasis] puts the pointer behind the stored ones: when it returns,
    [findBasisIndex] gives every pointer that was stored the index it had, a
    pointer that was not stored gets the old [size()] as its index, and
    [addInterface] on pointers handed to [addBasis] before no longer fails. *)
Theorem addBasis_then_find {P T : Type} `{EqDecision P} `{BoxTopology T}
    (dimOf : P -> Z) (g : P) (s s' : basisStore P T) :
  addBasis dimOf g s = Ok s' ->
  (forall h i, findBasisIndex (bs_bases s) h = Ok i ->
               findBasisIndex (bs_bases s') h = Ok i) /\
  (g ∉ bs_bases s -> findBasisIndex (bs_bases s') g = Ok (length (bs_bases s))) /\
  (forall h s1 s2, h ∈ bs_bases s' ->
     exists p q, findBasisIndex (bs_bases s') g = Ok p /\
                 findBasisIndex (bs_bases s') h = Ok q /\
                 addInterface g s1 h s2 s' =
                   Ok {| bs_bases := bs_bases s';
                         bs_topology := top_addInterface p s1 q s2 (bs_topology s') |}).
Proof.
  intros Hadd. rewrite (addBasis_bases _ _ _ _ Hadd).
  split; [|split].
  - intros h i Hfind. apply findBasisIndex_Ok in Hfind as [Hi Hfirst].
    apply findBasisIndex_Ok. pose proof (lookup_lt_Some _ _ _ Hi) as Hlt. split.
    + by rewrite lookup_app_l.
    + intros j Hj. rewrite lookup_app_l by lia. by apply Hfirst.
  - intros Hnot. apply findBasisIndex_Ok. split.
    + by rewrite list_lookup_middle.
    + intros j Hj. rewrite lookup_app_l by done.
      intros Hjg. apply Hnot. by eapply list_elem_of_lookup_2.
  - intros h s1 s2 Hh.
    assert (g ∈ bs_bases s ++ [g]) as Hg
      by (apply elem_of_app; right; apply list_elem_of_here).
    destruct (findBasisIndex (bs_bases s ++ [g]) g) as [p|msg] eqn:Hp.
    2:{ exfalso. revert Hp. unfold findBasisIndex.
        destruct (list_find _ _) as [[? ?]|] eqn:Hl; [done|]. intros _.
        apply list_find_None in Hl. by apply (proj1 (Forall_forall _ _) Hl g Hg). }
    destruct (findBasisIndex (bs_bases s ++ [g]) h) as [q|msg] eqn:Hq.
    2:{ exfalso. revert Hq. unfold findBasisIndex.
        destruct (list_find _ _) as [[? ?]|] eqn:Hl; [done|]. intros _.
        apply list_find_None in Hl. by apply (proj1 (Forall_forall _ _) Hl h Hh). }
    exists p, q. split; [done|]. split; [done|].
    unfold addInterface. rewrite (addBasis_bases _ _ _ _ Hadd), Hp, Hq. done.
Qed.

Lemma addBasis_then_find_witness :
  let s := {| bs_bases := [7; 9];
              bs_topology := {| Example.t_dim := 2; Example.t_boxes := 2;
                                Example.t_interfaces := [] |} |} in
  let s' := {| bs_bases := [7; 9; 4];
               bs_topology := {| Example.t_dim := 2; Example.t_boxes := 3;
                                 Example.t_interfaces := [] |} |} in
  addBasis Example.planar 4 s = Ok s' /\ findBasisIndex (bs_bases s') 4 = Ok 2.
Proof.
  intros s s'.
  assert (addBasis Example.planar 4 s = Ok s') as Hadd by reflexivity.
  split; [exact Hadd|].
  apply (proj1 (proj2 (addBasis_then_find Example.planar 4 s s' Hadd))).
  vm_compute. intros Hin.
  apply elem_of_cons in Hin as [Hin|Hin]; [discriminate|].
  apply elem_of_cons in Hin as [Hin|Hin]; [discriminate|].
  by apply elem_of_nil in Hin.
Defined.

(** X14. [addBasis] keeps the bases of one dimension, that of the topology:
    for a topology whose [setDim] sets [dim()] and whose [addBox] keeps it,
    and bases of dimension at least 0, a store all of whose bases have the
    dimension [m_topology.dim()] accepts a basis exactly when the topology
    has no dimension yet (-1) or has that of the basis, fails with the
    assertion otherwise, and is again such a store afterwards, with the
    dimension of the basis. *)
Theorem addBasis_dimension {P T : Type} `{BoxTopology T} (dimOf : P -> Z) (g : P)
    (s : basisStore P T) :
  (forall d t, top_dim (top_setDim d t) = d) ->
  (forall t, top_dim (top_addBox t) = top_dim t) ->
  (forall p, (0 <= dimOf p)%Z) ->
  (forall b, b ∈ bs_bases s -> dimOf b = top_dim (bs_topology s)) ->
  ((exists s', addBasis dimOf g s = Ok s') <->
   top_dim (bs_topology s) = (-1)%Z \/ dimOf g = top_dim (bs_topology s)) /\
  (addBasis dimOf g s = AssertionFailed "g->dim() == m_topology.dim()" <->
   top_dim (bs_topology s) <> (-1)%Z /\ dimOf g <> top_dim (bs_topology s)) /\
  (forall s', addBasis dimOf g s = Ok s' ->
     top_dim (bs_topology s') = dimOf g /\
     forall b, b ∈ bs_bases s' -> dimOf b = top_dim (bs_topology s')).
Proof.
  intros HsetDim HaddBox Hnonneg Hinv. unfold addBasis.
  destruct (Z.eqb_spec (top_dim (bs_topology s)) (-1)) as [Hnone|Hdim]; cbn [bind].
  - split; [split; eauto|]. split; [split; [done|intros [? _]; done]|].
    intros s' [= <-]. cbn. rewrite HaddBox, HsetDim. split; [done|].
    intros b Hb. apply elem_of_app in Hb as [Hb|Hb].
    + specialize (Hinv b Hb). specialize (Hnonneg b). lia.
    + apply list_elem_of_singleton in Hb. by subst.
  - destruct (Z.eqb_spec (dimOf g) (top_dim (bs_topology s))) as [Heq|Hne]; cbn.
    + split; [split; eauto|]. split; [split; [done|intros [_ ?]; done]|].
      intros s' [= <-]. cbn. rewrite HaddBox. split; [done|].
      intros b Hb. apply elem_of_app in Hb as [Hb|Hb]; [by apply Hinv|].
      apply list_elem_of_singleton in Hb. by subst.
    + split; [split; [by intros [? ?]|intros [?|?]; done]|].
      split; [done|]. done.
Qed.

(** The first basis of a store: the topology takes its dimension. *)
Lemma addBasis_dimension_witness :
  exists s', addBasis Example.planar 7%nat Example.emptyStore = Ok s' /\
             top_dim (bs_topology s') = 2%Z.
Proof.
  destruct (addBasis_dimension Example.planar 7%nat Example.emptyStore)
    as (Hok & _ & Hdim).
  - intros d t. reflexivity.
  - intros t. reflexivity.
  - intros p. unfold Example.planar. lia.
  - intros b Hb. by apply elem_of_nil in Hb.
  - destruct (proj2 Hok) as [s' Hs']; [left; reflexivity|].
    exists s'. split; [exact Hs'|]. exact (proj1 (Hdim s' Hs')).
Defined.

(** X15. [addInterface] fails with the assertion of [findBasisIndex] when one
    of its two bases is not stored, and then tells the topology nothing;
    otherwise it leaves [m_bases] as it is and hands the topology the
    positions of the two bases, the same position twice for one basis. *)
Theorem addInterface_indices {P T : Type} `{EqDecision P} `{BoxTopology T}
    (g1 : P) (s1 : nat) (g2 : P) (s2 : nat) (s : basisStore P T) :
  (g1 ∉ bs_bases s \/ g2 ∉ bs_bases s ->
   addInterface g1 s1 g2 s2 s = AssertionFailed "it != m_bases.end()") /\
  (g1 ∈ bs_bases s -> g2 ∈ bs_bases s ->
   exists p1 p2,
     bs_bases s !! p1 = Some g1 /\ bs_bases s !! p2 = Some g2 /\
     (g1 = g2 -> p1 = p2) /\
     addInterface g1 s1 g2 s2 s =
       Ok {| bs_bases := bs_bases s;
             bs_topology := top_addInterface p1 s1 p2 s2 (bs_topology s) |}).
Proof.
  unfold addInterface. split.
  - intros Hnot. destruct (findBasisIndex (bs_bases s) g1) as [p1|msg] eqn:H1.
    + destruct Hnot as [Hnot|Hnot].
      * apply findBasisIndex_Ok in H1 as [H1 _]. destruct Hnot.
        by eapply list_elem_of_lookup_2.
      * apply findBasisIndex_fails in Hnot. cbn [bind]. by rewrite Hnot.
    + revert H1. unfold findBasisIndex.
      destruct (list_find _ _) as [[? ?]|]; [done|]. by intros [= <-].
  - intros Hg1 Hg2.
    destruct (findBasisIndex (bs_bases s) g1) as [p1|msg] eqn:H1.
    2:{ exfalso. revert H1. unfold findBasisIndex.
        destruct (list_find _ _) as [[? ?]|] eqn:Hl; [done|]. intros _.
        apply list_find_None in Hl. by apply (proj1 (Forall_forall _ _) Hl g1 Hg1). }
    destruct (findBasisIndex (bs_bases s) g2) as [p2|msg] eqn:H2.
    2:{ exfalso. revert H2. unfold findBasisIndex.
        destruct (list_find _ _) as [[? ?]|] eqn:Hl; [done|]. intros _.
        apply list_find_None in Hl. by apply (proj1 (Forall_forall _ _) Hl g2 Hg2). }
    exists p1, p2. cbn [bind].
    pose proof (proj1 (findBasisIndex_Ok _ _ _) H1) as [Hp1 _].
    pose proof (proj1 (findBasisIndex_Ok _ _ _) H2) as [Hp2 _].
    split; [done|]. split; [done|]. split; [|done].
    intros ->. congruence.
Qed.

(** ** The iteration of gsConjugateGradient::solve *)

Section Solve.
Context {D : Type} `{CGIteration D}.
Hypothesis step_counters : stepKeepsCounters.

(** The loop has left within [m_maxIters - m_numIter] turns: more fuel
    changes nothing. *)
Lemma solveLoop_fuel (fuel fuel' : nat) (s : cgSolver D) (steps : list bool) :
  (m_maxIters s - m_numIter s <= Z.of_nat fuel)%Z -> fuel <= fuel' ->
  solveLoop fuel' s steps = solveLoop fuel s steps.
Proof.
  revert fuel' s steps. induction fuel as [|fuel IH]; intros fuel' s steps Hfuel Hle.
  - destruct fuel' as [|fuel']; [done|]. cbn.
    destruct (Z.ltb_spec (m_numIter s) (m_maxIters s)); [lia|done].
  - destruct fuel' as [|fuel']; [lia|]. cbn.
    destruct (Z.ltb_spec (m_numIter s) (m_maxIters s)); [|done].
    destruct (step_counters s) as [Hn Hm].
    destruct (step s) as [converged s1]. cbn [snd] in Hn, Hm.
    destruct converged; [done|].
    apply IH; [cbn; lia|lia].
Qed.

Lemma solveLoop_spec (fuel : nat) (s : cgSolver D) (steps : list bool) :
  (m_maxIters s - m_numIter s <= Z.of_nat fuel)%Z ->
  exists (k : nat) (converged : bool),
    (solveLoop fuel s steps).2 =
      steps ++ replicate k false ++ (if converged then [true] else []) /\
    m_numIter (solveLoop fuel s steps).1 = (m_numIter s + Z.of_nat k)%Z /\
    m_maxIters (solveLoop fuel s steps).1 = m_maxIters s /\
    (if converged
     then (m_numIter s + Z.of_nat k < m_maxIters s)%Z
     else Z.of_nat k = Z.max 0 (m_maxIters s - m_numIter s)).
Proof.
  revert s steps. induction fuel as [|fuel IH]; intros s steps Hfuel.
  - exists 0, false. cbn. rewrite app_nil_r. repeat split; lia.
  - cbn. destruct (Z.ltb_spec (m_numIter s) (m_maxIters s)) as [Hlt|Hge].
    + destruct (step_counters s) as [Hn Hm].
      destruct (step s) as [converged s1]. cbn [snd] in Hn, Hm.
      destruct converged.
      * exists 0, true. cbn. repeat split; lia.
      * destruct (IH {| m_numIter := m_numIter s1 + 1; m_maxIters := m_maxIters s1;
                        cg_data := cg_data s1 |} (steps ++ [false]))
          as (k & conv & Hsteps & Hnum & Hmax & Hend); [cbn; lia|].
        cbn [m_numIter m_maxIters] in Hnum, Hmax, Hend.
        exists (S k), conv. rewrite Hsteps, Hnum, Hmax.
        split; [by rewrite <- app_assoc|].
        split; [lia|]. split; [lia|].
        destruct conv; lia.
    + exists 0, false. cbn. rewrite app_nil_r. repeat split; lia.
Qed.
End Solve.

(** X16. [solve] runs [step] at most [m_maxIters - m_numIter] times (counted
    after [initIteration]) when [step] leaves the two counters alone: the
    results of the calls are [false] until, possibly, one final [true];
    [m_numIter] has grown by the number of calls that gave [false]; and the
    loop has ended on a [true], with [m_numIter] still below [m_maxIters], or
    with all the iterations used up. *)
Theorem solve_iterations {D : Type} `{CGIteration D} (s : cgSolver D) :
  stepKeepsCounters ->
  let s0 := initIteration s in
  let budget := Z.max 0 (m_maxIters s0 - m_numIter s0) in
  exists (s1 : cgSolver D) (k : nat) (converged : bool),
    solve s = (setError s1, replicate k false ++ (if converged then [true] else [])) /\
    m_numIter s1 = (m_numIter s0 + Z.of_nat k)%Z /\
    m_maxIters s1 = m_maxIters s0 /\
    (Z.of_nat (length (solve s).2) <= budget)%Z /\
    (if converged then (m_numIter s1 < m_maxIters s1)%Z else Z.of_nat k = budget) /\
    forall fuel, Z.to_nat budget <= fuel ->
      solveLoop fuel s0 [] = (s1, (solve s).2).
Proof.
  intros Hstep s0 budget. unfold solve. fold s0.
  set (fuel0 := Z.to_nat (m_maxIters s0 - m_numIter s0)).
  assert (m_maxIters s0 - m_numIter s0 <= Z.of_nat fuel0)%Z as Hfuel by lia.
  destruct (solveLoop_spec Hstep fuel0 s0 [] Hfuel)
    as (k & conv & Hsteps & Hnum & Hmax & Hend).
  destruct (solveLoop fuel0 s0 []) as [s1 steps] eqn:Hloop.
  cbn [fst snd] in *. cbn [app] in Hsteps. subst steps.
  exists s1, k, conv. split; [done|]. split; [done|]. split; [done|].
  split; [|split].
  - rewrite length_app, length_replicate. destruct conv; cbn [length]; lia.
  - destruct conv; lia.
  - intros fuel Hle. rewrite <- Hloop.
    apply (solveLoop_fuel Hstep); [done|]. unfold fuel0. lia.
Qed.

(** An iteration that converges at its third step, with 10 iterations
    allowed: two steps without convergence and the step that converges. *)
Lemma solve_iterations_witness :
  let s : cgSolver nat := {| m_numIter := 5%Z; m_maxIters := 10%Z; cg_data := 2 |} in
  exists (s1 : cgSolver nat) (k : nat) (converged : bool),
    solve s = (setError s1, replicate k false ++ (if converged then [true] else [])) /\
    m_numIter s1 = Z.of_nat k.
Proof.
  intros s.
  assert (@stepKeepsCounters nat Example.countdown_CGIteration) as Hstep.
  { intros s0. unfold step, Example.countdown_CGIteration.
    by destruct (cg_data s0). }
  destruct (solve_iterations s Hstep) as (s1 & k & conv & Hsolve & Hnum & _).
  exists s1, k, conv. split; [exact Hsolve|]. exact Hnum.
Defined.

(** ** The refinement boxes as boxes of the domain *)

Lemma shr_mono (x y s : Z) : (0 <= s -> x <= y -> U32.shr x s <= U32.shr y s)%Z.
Proof.
  intros Hs Hxy. unfold U32.shr. rewrite !Z.shiftr_div_pow2 by done.
  apply Z.div_le_mono; [|done]. by apply Z.pow_pos_nonneg.
Qed.

Lemma shr_in_range (x s : Z) : (0 <= s)%Z -> U32.in_range x -> U32.in_range (U32.shr x s).
Proof.
  unfold U32.in_range, U32.shr. intros Hs [H0 Hx].
  rewrite Z.shiftr_div_pow2 by done.
  assert (0 < 2 ^ s)%Z as Hpow by (by apply Z.pow_pos_nonneg).
  split; [by apply Z.div_pos|].
  apply Z.le_lt_trans with x; [|done]. apply Z.div_le_upper_bound; [done|]. nia.
Qed.

Lemma vget_in_range (v : vec) (j : nat) : vec_in_range v -> U32.in_range (vget v j).
Proof.
  intros Hv. unfold vget. destruct (v !! j) as [x|] eqn:Hj; simpl.
  - by apply (Forall_lookup_1 _ _ _ _ Hv Hj).
  - unfold U32.in_range, U32.modulus. lia.
Qed.

Lemma slab_inDomain (sideIndex : nat) (upper : Z) :
  U32.in_range upper -> (1 <= upper)%Z -> inDomain upper (slab sideIndex upper).
Proof.
  intros Hu H1. unfold slab, inDomain.
  destruct (sideIndex mod 2 =? 1); cbn [fst snd]; [lia|].
  rewrite sub_no_wrap by (done || lia). lia.
Qed.

Lemma orientInterval_inDomain (preserved : bool) (upper : Z) (x : Z * Z) :
  U32.in_range upper -> inDomain upper x -> inDomain upper (orientInterval preserved upper x).
Proof.
  intros Hu (Hlo & Hup). unfold orientInterval, inDomain.
  destruct preserved; cbn [fst snd]; [done|].
  rewrite !sub_no_wrap by (done || lia). lia.
Qed.

Lemma shifted_inDomain (upper lo up s : Z) :
  (0 <= s)%Z -> inDomain upper (lo, up) ->
  inDomain (U32.shr upper s) (U32.shr lo s, U32.shr up s).
Proof.
  intros Hs ([H0 Hle] & Hup). cbn [fst snd] in *. unfold inDomain. cbn [fst snd].
  pose proof (shr_mono 0 lo s Hs H0) as H1.
  pose proof (shr_mono lo up s Hs Hle).
  pose proof (shr_mono up upper s Hs Hup).
  unfold U32.shr in H1 at 1. rewrite Z.shiftr_0_l in H1. lia.
Qed.

(** X17. The boxes of the general path are boxes of the domain they refine:
    for a merged segment that lies in the domains of both patches (at the
    reference level), with levels up to the reference level and domains of
    at least one cell across the interface, the box asked of the first patch
    and the box asked of the second one have, along every direction, their
    lower end first and lie between 0 and the upper corner of that patch on
    the level of the box; no subtraction wraps around. *)
Theorem requests_in_domain (d : nat) (bi : boundaryInterface) (Lu : Z) (U0 U1 : vec)
    (seg : list Z) :
  wellFormed d bi ->
  let a0 := (spanDirections d (direction (first bi))).1.1 in
  let b0 := (spanDirections d (direction (first bi))).1.2 in
  let c0 := (spanDirections d (direction (first bi))).2 in
  let a1 := dmap (dirMap bi) a0 in
  let b1 := dmap (dirMap bi) b0 in
  let c1 := dmap (dirMap bi) c0 in
  U32.in_range Lu -> vec_in_range U0 -> vec_in_range U1 ->
  (0 <= vget seg 4 <= Lu)%Z -> (0 <= vget seg 5 <= Lu)%Z ->
  inDomain (Z.min (vget U0 a0) (vget U1 a1)) (vget seg 0, vget seg 2) ->
  inDomain (Z.min (vget U0 b0) (vget U1 b1)) (vget seg 1, vget seg 3) ->
  (1 <= U32.shr (vget U0 c0) (U32.sub Lu (vget seg 5)))%Z ->
  (1 <= U32.shr (vget U1 c1) (U32.sub Lu (vget seg 4)))%Z ->
  (forall j, j < d ->
     inDomain (U32.shr (vget U0 j) (U32.sub Lu (vget seg 5)))
       (boxAxis d j (requestFirst d bi Lu U0 a0 c0 seg))) /\
  (forall j, j < d ->
     inDomain (U32.shr (vget U1 j) (U32.sub Lu (vget seg 4)))
       (boxAxis d j (requestSecond d bi Lu U1 a0 b0 a1 c1 seg))).
Proof.
  intros Hwf a0 b0 c0 a1 b1 c1 HLu HU0 HU1 HL4 HL5 Ha Hb Hc0 Hc1.
  pose proof (requestFirst_axes d bi Lu U0 seg Hwf) as HF.
  pose proof (requestSecond_axes d bi Lu U1 seg Hwf) as HS.
  cbv zeta in HF, HS. fold a0 b0 c0 in HF, HS. fold a1 b1 c1 in HS.
  destruct HF as (_ & _ & HFc & HFa & HFb).
  destruct HS as (_ & _ & HSc & HSa & HSb).
  destruct Hwf as (Hd & Hdir & Hp).
  destruct (spanDirections_wf d (direction (first bi)) Hd Hdir)
    as (Ha0 & Hb0 & Hc0' & Hac & Hbc & Hb2 & Hb3).
  fold a0 b0 c0 in Ha0, Hb0, Hc0', Hac, Hbc, Hb2, Hb3.
  assert (a1 < d) as Ha1 by apply (is_permutation_lt d _ a0 Hp Ha0).
  assert (b1 < d) as Hb1 by apply (is_permutation_lt d _ b0 Hp Hb0).
  assert (c1 < d) as Hc1' by apply (is_permutation_lt d _ c0 Hp Hc0').
  assert (a1 ≠ c1) as Hac1
    by (intros Heq; apply Hac; by apply (is_permutation_inj d (dirMap bi))).
  assert (b1 ≠ c1) as Hbc1
    by (intros Heq; apply Hbc; by apply (is_permutation_inj d (dirMap bi))).
  assert (d = 3 -> b1 ≠ a1) as Hba1.
  { intros Hd3 Heq. apply (Hb3 Hd3). by apply (is_permutation_inj d (dirMap bi)). }
  assert (0 <= U32.sub Lu (vget seg 5))%Z as Hs5 by (rewrite sub_no_wrap by done; lia).
  assert (0 <= U32.sub Lu (vget seg 4))%Z as Hs4 by (rewrite sub_no_wrap by done; lia).
  assert (forall U a s lo up, vec_in_range U -> (0 <= s)%Z ->
            inDomain (vget U a) (lo, up) ->
            inDomain (U32.shr (vget U a) s) (U32.shr lo s, U32.shr up s)) as Hshift
    by (intros; by apply shifted_inDomain).
  assert (forall m m' x, (m <= m')%Z -> inDomain m x -> inDomain m' x) as Hweak
    by (unfold inDomain; intros; lia).
  split; intros j Hj.
  - assert (j = c0 \/ j = a0 \/ (d = 3 /\ j = b0)) as [->|[->|[Hd3 ->]]]
      by (destruct Hd as [Hd|Hd]; specialize (Hb2); specialize (Hb3); lia).
    + rewrite HFc. apply slab_inDomain; [|done].
      apply shr_in_range; [done|by apply vget_in_range].
    + rewrite HFa. apply Hshift; [done|done|].
      eapply Hweak; [|exact Ha]. lia.
    + rewrite (HFb Hd3). apply Hshift; [done|done|].
      eapply Hweak; [|exact Hb]. lia.
  - assert (j = c1 \/ j = a1 \/ (d = 3 /\ j = b1)) as [->|[->|[Hd3 ->]]]
      by (destruct Hd as [Hd|Hd]; specialize (Hba1); lia).
    + rewrite HSc. apply slab_inDomain; [|done].
      apply shr_in_range; [done|by apply vget_in_range].
    + rewrite HSa. apply orientInterval_inDomain.
      { apply shr_in_range; [done|by apply vget_in_range]. }
      apply Hshift; [done|done|]. eapply Hweak; [|exact Ha]. lia.
    + rewrite (HSb Hd3). apply orientInterval_inDomain.
      { apply shr_in_range; [done|by apply vget_in_range]. }
      apply Hshift; [done|done|]. eapply Hweak; [|exact Hb]. lia.
Qed.

(** The segment [[0,2]] of levels 2 and 3 between two patches with upper
    corner 4 at the reference level 3, the orientation reversed. *)
Lemma requests_in_domain_witness :
  let bi := Scenario.east_west [false; false] in
  let seg := [0; 0; 2; 2; 2; 3]%Z in
  inDomain (U32.shr (vget [4; 4]%Z 1) (U32.sub 3 (vget seg 4)))
    (boxAxis 2 1 (requestSecond 2 bi 3 [4; 4]%Z 1 1 1 0 seg)).
Proof.
  intros bi seg.
  assert (wellFormed 2 bi) as Hwf by by_evaluation.
  assert (U32.in_range 3) as HLu by by_evaluation.
  assert (vec_in_range [4; 4]%Z) as HU by by_evaluation.
  assert (1 < 2) as Hj by lia.
  refine (proj2 (requests_in_domain 2 bi 3 [4; 4]%Z [4; 4]%Z seg Hwf HLu HU HU
                   _ _ _ _ _ _) 1 Hj).
  - vm_compute. split; discriminate.
  - vm_compute. split; discriminate.
  - vm_compute. repeat split; discriminate.
  - vm_compute. repeat split; discriminate.
  - vm_compute. discriminate.
  - vm_compute. discriminate.
Defined.

(** * The orientation mapping, there and back *)




